(** * Symbol navigator of openhands-aci: index, grouping and render cache

    A shallow embedding of [openhands_aci/editor/navigator.py]
    (class [SymbolNavigator]) and the properties of its query functions
    [get_definitions_tree] and [get_references_tree].

    Conventions of the embedding.
    - A Python [str] is a [string]; one [ascii] stands for one character
      (the code points below 256), compared by code point as Python does.
    - A Python [int] is a [Z]; a modification time is a [Z] as well, the code
      only compares such times and uses them inside dictionary keys.
    - A [dict] is a [gmap], a [set] is a [gset]; [list(s)] of a set is
      [elements s], whose order is fixed but unspecified, like the iteration
      order of a Python set.
    - A call that may raise returns a [result]; the navigator holds no
      [try]/[except], so an exception of a collaborator leaves the function
      that called it.
    - The two caches of the navigator instance are threaded through the calls
      as a [NavState], together with the log of the files whose text was read.
*)

From Stdlib Require Import ZArith Ascii String List Lia DecimalString.
From stdpp Require Import base option list gmap strings sorting.

Local Open Scope string_scope.
Local Open Scope Z_scope.
Local Open Scope list_scope.

(** ** Exceptions *)

Inductive result (A : Type) : Type :=
| Ok (a : A)
| Raise (msg : string).
Arguments Ok {A} a.
Arguments Raise {A} msg.

#[global] Instance result_ret : MRet result := λ A a, Ok a.

(* Sequencing: the first exception ends the computation. *)
#[global] Instance result_bind : MBind result := λ A B k r,
  match r with
  | Ok a => k a
  | Raise msg => Raise msg
  end.

(** ** Tags ([ParsedTag], [TagKind] of the tree-sitter parser module) *)

Inductive TagKind : Type := DEF | REF.

Record ParsedTag : Type := mkTag {
  abs_path : string;
  rel_path : string;
  node_content : string;
  tag_kind : TagKind;
  start_line : Z;
  end_line : Z;
}.

#[global] Instance TagKind_eq_dec : EqDecision TagKind.
Proof. solve_decision. Defined.

#[global] Instance TagKind_countable : Countable TagKind.
Proof.
  refine (inj_countable' (λ k, match k with DEF => true | REF => false end)
                         (λ b : bool, if b then DEF else REF) _).
  by intros [].
Defined.

#[global] Instance ParsedTag_eq_dec : EqDecision ParsedTag.
Proof. solve_decision. Defined.

#[global] Instance ParsedTag_countable : Countable ParsedTag.
Proof.
  refine (inj_countable'
            (λ t, (abs_path t, rel_path t, node_content t, tag_kind t,
                   start_line t, end_line t))
            (λ '(a, r, n, k, s, e), mkTag a r n k s e) _).
  by intros [].
Defined.

(** ** The collaborators of the navigator

    [GitRepoUtils], [PathUtils], [TreeSitterParser], [get_modified_time] and
    [read_text] live outside [navigator.py]; a [World] gives their answers at
    one moment of the file tree. *)

Record World : Type := mkWorld {
  (* git_utils.get_all_absolute_tracked_files(depth=depth) *)
  get_all_absolute_tracked_files : option Z → result (list string);
  (* git_utils.get_absolute_tracked_files_in_directory(rel_dir_path=, depth=) *)
  get_absolute_tracked_files_in_directory : string → option Z → result (list string);
  (* path_utils.get_relative_path_str(abs_file) *)
  get_relative_path_str : string → string;
  (* ts_parser.get_tags_from_file(abs_file, rel_file) *)
  get_tags_from_file : string → string → result (list ParsedTag);
  (* get_modified_time(abs_file) *)
  get_modified_time : string → Z;
  (* read_text(abs_file); [None] is Python's None *)
  read_text : string → option string;
}.

(** ** The four indices of [get_parsed_tags] *)

Record Index : Type := mkIndex {
  ident2defrels : gmap string (gset string);
  ident2refrels : gmap string (list string);
  identwrel2deftags : gmap (string * string) (gset ParsedTag);
  identwrel2reftags : gmap (string * string) (gset ParsedTag);
}.

Definition empty_index : Index := mkIndex ∅ ∅ ∅ ∅.

(* d[k].add(x) on a defaultdict(set) *)
Definition dd_add `{Countable K} `{Countable V}
    (k : K) (x : V) (d : gmap K (gset V)) : gmap K (gset V) :=
  <[k := default ∅ (d !! k) ∪ {[x]}]> d.

(* d[k].append(x) on a defaultdict(list) *)
Definition dd_append `{Countable K} {V : Type}
    (k : K) (x : V) (d : gmap K (list V)) : gmap K (list V) :=
  <[k := default [] (d !! k) ++ [x]]> d.

(* The body of [for parsed_tag in parsed_tags]. *)
Definition add_tag (rel_file : string) (idx : Index) (parsed_tag : ParsedTag) : Index :=
  let idx1 :=
    match tag_kind parsed_tag with
    | DEF =>
        mkIndex (dd_add (node_content parsed_tag) rel_file (ident2defrels idx))
                (ident2refrels idx)
                (dd_add (rel_file, node_content parsed_tag) parsed_tag
                        (identwrel2deftags idx))
                (identwrel2reftags idx)
    | REF => idx
    end in
  match tag_kind parsed_tag with
  | REF =>
      mkIndex (ident2defrels idx1)
              (dd_append (node_content parsed_tag) rel_file (ident2refrels idx1))
              (identwrel2deftags idx1)
              (dd_add (rel_file, node_content parsed_tag) parsed_tag
                      (identwrel2reftags idx1))
  | DEF => idx1
  end.

(* The loop [for abs_file in all_abs_files_iter]; the progress bar only wraps
   the iteration. *)
Fixpoint scan_files (w : World) (all_abs_files : list string) (idx : Index)
    : result Index :=
  match all_abs_files with
  | [] => Ok idx
  | abs_file :: rest =>
      let rel_file := get_relative_path_str w abs_file in
      parsed_tags ← get_tags_from_file w abs_file rel_file;
      scan_files w rest (foldl (add_tag rel_file) idx parsed_tags)
  end.

(* Truth value of an optional string: None and the empty string are false. *)
Definition truthy_opt_str (o : option string) : bool :=
  match o with
  | Some (String _ _) => true
  | _ => false
  end.

Definition get_parsed_tags (w : World) (depth : option Z) (rel_dir_path : option string)
    : result Index :=
  all_abs_files ←
    (if truthy_opt_str rel_dir_path
     then get_absolute_tracked_files_in_directory w (default "" rel_dir_path) depth
     else get_all_absolute_tracked_files w depth);
  scan_files w all_abs_files empty_index.

(** ** Strings as Python uses them *)

Definition LF : string := String "010"%char "".

(* [needle in hay] *)
Fixpoint str_contains (needle hay : string) : bool :=
  String.prefix needle hay ||
  match hay with
  | "" => false
  | String _ rest => str_contains needle rest
  end.

(* [s.endswith('\n')] *)
Fixpoint ends_with_newline (s : string) : bool :=
  match s with
  | "" => false
  | String c "" => Ascii.eqb c "010"
  | String _ rest => ends_with_newline rest
  end.

(* The line boundaries of [str.splitlines] among the characters below 256:
   LF, VT, FF, CR, FS, GS, RS and NEL; CR LF counts as one boundary. *)
Definition is_linebreak (c : ascii) : bool :=
  let n := N_of_ascii c in
  ((10 <=? n) && (n <=? 13))%N || ((28 <=? n) && (n <=? 30))%N || (n =? 133)%N.

Definition is_CR (c : ascii) : bool := Ascii.eqb c "013".
Definition is_LF (c : ascii) : bool := Ascii.eqb c "010".

(* [s.splitlines()]: the lines without their terminators; a terminator at the
   very end opens no further line. *)
Fixpoint splitlines (s : string) : list string :=
  match s with
  | "" => []
  | String c rest =>
      if is_linebreak c then
        match rest with
        | String c' rest' =>
            if is_CR c && is_LF c' then "" :: splitlines rest'
            else "" :: splitlines rest
        | "" => [""]
        end
      else
        match splitlines rest with
        | [] => [String c ""]
        | line :: lines => String c line :: lines
        end
  end.

(* [line[:n]] *)
Fixpoint str_take (n : nat) (s : string) : string :=
  match n, s with
  | O, _ => ""
  | _, "" => ""
  | S n', String c rest => String c (str_take n' rest)
  end.

(* [sep.join(parts)] *)
Definition str_join (sep : string) (parts : list string) : string :=
  String.concat sep parts.

(* The lines of a text in the plain sense: the pieces between LF characters. *)
Fixpoint lines_lf (s : string) : list string :=
  match s with
  | "" => [""]
  | String c rest =>
      if is_LF c then "" :: lines_lf rest
      else match lines_lf rest with
           | [] => [String c ""]
           | line :: lines => String c line :: lines
           end
  end.

(** ** Sorting

    [list.sort] and [sorted] are stable; a stable sort has one possible
    result, which insertion from the right computes. *)

Fixpoint insert_by {A : Type} (leb : A → A → bool) (x : A) (l : list A) : list A :=
  match l with
  | [] => [x]
  | y :: l' => if leb x y then x :: l else y :: insert_by leb x l'
  end.

Definition sort_by {A : Type} (leb : A → A → bool) (l : list A) : list A :=
  foldr (insert_by leb) [] l.

(* key=lambda tag: (tag.rel_path, tag.start_line), compared as tuples *)
Definition tag_key_leb (t1 t2 : ParsedTag) : bool :=
  match String.compare (rel_path t1) (rel_path t2) with
  | Lt => true
  | Eq => start_line t1 <=? start_line t2
  | Gt => false
  end.

(** ** The context renderer ([grep_ast.TreeContext])

    A [TreeContext] object is built from a file name and its text and is then
    mutated: its lines of interest are reset and filled, [add_context] marks
    the lines to show and [format] prints them. *)

Class TreeContextOps (TreeContext : Type) : Type := {
  (* TreeContext(filename=rel_file, code=code, color=False, ...) *)
  new_TreeContext : string → string → TreeContext;
  (* context.lines_of_interest = set() *)
  clear_lines_of_interest : TreeContext → TreeContext;
  (* context.add_lines_of_interest(lois) *)
  add_lines_of_interest : list Z → TreeContext → TreeContext;
  (* context.add_context() *)
  add_context : TreeContext → TreeContext;
  (* context.format() *)
  format : TreeContext → string;
}.

Section Navigator.

Context {TreeContext : Type} `{!TreeContextOps TreeContext}.

(** ** The state of a navigator instance *)

Record NavState : Type := mkNav {
  (* rel_file -> {'context': TreeContext_obj, 'mtime': mtime} *)
  file_context_cache : gmap string (TreeContext * Z);
  (* (rel_file, lois, mtime) -> rendered_tree *)
  rendered_tree_cache : gmap (string * list Z * Z) string;
  (* the files whose text [read_text] was asked for, oldest first *)
  read_log : list string;
}.

Definition new_navigator : NavState := mkNav ∅ ∅ [].

(* What [render_tree] does with the context once it holds it. *)
Definition render_with (lois : list Z) (context : TreeContext) : TreeContext :=
  add_context (add_lines_of_interest lois (clear_lines_of_interest context)).

(* The text handed to the renderer: [read_text(abs_file) or ''], closed by a
   newline. *)
Definition code_of (w : World) (abs_file : string) : string :=
  let code := default "" (read_text w abs_file) in
  if ends_with_newline code then code else code +:+ LF.

Definition render_tree (w : World) (abs_file rel_file : string) (lois : list Z)
    (st : NavState) : string * NavState :=
  let mtime := get_modified_time w abs_file in
  let tree_cache_key := (rel_file, sort_by Z.leb lois, mtime) in
  match rendered_tree_cache st !! tree_cache_key with
  | Some res => (res, st)
  | None =>
      let fresh :=
        (new_TreeContext rel_file (code_of w abs_file), mtime,
         read_log st ++ [abs_file]) in
      let '(context, entry_mtime, reads) :=
        match file_context_cache st !! rel_file with
        | None => fresh
        | Some (context, cached_mtime) =>
            if cached_mtime <? mtime then fresh
            else (context, cached_mtime, read_log st)
        end in
      (* the cached object is the one that is mutated *)
      let context := render_with lois context in
      let res := format context in
      (res, mkNav (<[rel_file := (context, entry_mtime)]> (file_context_cache st))
                  (<[tree_cache_key := res]> (rendered_tree_cache st))
                  reads)
  end.

(** ** Grouping the tags per file *)

Record LoopState : Type := mkLoop {
  cur_rel_file : string;
  cur_abs_file : string;
  lois : list Z;
  output : string;
  nav : NavState;
}.

Definition dummy_tag : ParsedTag := mkTag "" "" "" DEF 0 0.

(* range(tag.start_line, tag.end_line + 1) or [tag.start_line] *)
Definition tag_lois (use_end_line : bool) (tag : ParsedTag) : list Z :=
  if use_end_line
  then seqZ (start_line tag) (end_line tag + 1 - start_line tag)
  else [start_line tag].

(* The branch taken when the file changes, up to [lois = []]. *)
Definition flush (w : World) (s : LoopState) : LoopState :=
  match lois s with
  | _ :: _ =>
      let '(res, st) :=
        render_tree w (cur_abs_file s) (cur_rel_file s) (lois s) (nav s) in
      mkLoop (cur_rel_file s) (cur_abs_file s) []
             (output s +:+ cur_rel_file s +:+ ":" +:+ LF +:+ res) st
  | [] =>
      match cur_rel_file s with
      | String _ _ =>
          mkLoop (cur_rel_file s) (cur_abs_file s) (lois s)
                 (output s +:+ LF +:+ cur_rel_file s +:+ ":" +:+ LF) (nav s)
      | "" => s
      end
  end.

(* One turn of [for tag in tags + [dummy_tag]]. *)
Definition tag_step (w : World) (use_end_line : bool) (s : LoopState) (tag : ParsedTag)
    : LoopState :=
  let s1 :=
    if bool_decide (rel_path tag ≠ cur_rel_file s) then
      let s' := flush w s in
      mkLoop (rel_path tag) (abs_path tag) (lois s') (output s') (nav s')
    else s in
  mkLoop (cur_rel_file s1) (cur_abs_file s1) (lois s1 ++ tag_lois use_end_line tag)
         (output s1) (nav s1).

Definition truncate_lines (text : string) : string :=
  str_join LF (str_take 150 <$> splitlines text).

Definition tag_list_to_tree (w : World) (tags : list ParsedTag) (use_end_line : bool)
    (st : NavState) : string * NavState :=
  match tags with
  | [] => ("", st)
  | _ =>
      let s := foldl (tag_step w use_end_line) (mkLoop "" "" [] "" st)
                     (tags ++ [dummy_tag]) in
      (truncate_lines (output s), nav s)
  end.

(** ** The two queries *)

(* The loop [for def_rel in def_rels] with its path filter. *)
Definition collect_def_tags (idx : Index) (symbol : string) (rel_file_path : option string)
    : gset ParsedTag :=
  match symbol with
  | "" => ∅
  | _ =>
      let def_rels := default ∅ (ident2defrels idx !! symbol) in
      set_fold (λ def_rel def_tags,
                  match rel_file_path with
                  | Some f =>
                      if negb (str_contains f def_rel) then def_tags
                      else def_tags ∪ default ∅ (identwrel2deftags idx !! (def_rel, symbol))
                  | None =>
                      def_tags ∪ default ∅ (identwrel2deftags idx !! (def_rel, symbol))
                  end)
               ∅ def_rels
  end.

Definition definitions_header (symbol : string) : string :=
  LF +:+ "Definition(s) of `" +:+ symbol +:+ "`:" +:+ LF.

Definition get_definitions_tree (w : World) (symbol : string)
    (rel_file_path : option string) (use_end_line : bool) (st : NavState)
    : result (string * NavState) :=
  idx ← get_parsed_tags w None None;
  let def_tags := collect_def_tags idx symbol rel_file_path in
  let defs_repr := "" +:+ definitions_header symbol in
  let def_tags_list := sort_by tag_key_leb (elements def_tags) in
  let '(tree, st') := tag_list_to_tree w def_tags_list use_end_line st in
  Ok (defs_repr +:+ tree +:+ LF, st').

(* The loop [for ref_rel in ref_rels]. *)
Definition collect_ref_tags (idx : Index) (symbol : string) : gset ParsedTag :=
  let ref_rels := default [] (ident2refrels idx !! symbol) in
  foldl (λ ref_tags ref_rel,
           ref_tags ∪ default ∅ (identwrel2reftags idx !! (ref_rel, symbol)))
        ∅ ref_rels.

Definition references_header (symbol : string) : string :=
  LF +:+ "References to `" +:+ symbol +:+ "`:" +:+ LF.

Definition get_references_tree (w : World) (symbol : string) (st : NavState)
    : result (string * NavState) :=
  idx ← get_parsed_tags w None None;
  let ref_tags := collect_ref_tags idx symbol in
  let direct_refs_repr := "" +:+ references_header symbol in
  let ref_tags_list := sort_by tag_key_leb (elements ref_tags) in
  let '(tree, st') := tag_list_to_tree w ref_tags_list false st in
  Ok (direct_refs_repr +:+ tree +:+ LF, st').

End Navigator.

Arguments NavState TreeContext : clear implicits.
Arguments LoopState TreeContext : clear implicits.

(** ** Notions used by the properties *)

(** The order of the sort key [(rel_path, start_line)]. *)
Definition tag_key_le (t1 t2 : ParsedTag) : Prop :=
  String.le (rel_path t1) (rel_path t2) ∧
  (rel_path t1 = rel_path t2 → start_line t1 ≤ start_line t2).

(* [needle] occurs in [hay]. *)
Definition is_substring (needle hay : string) : Prop :=
  ∃ pre post, hay = pre +:+ needle +:+ post.

(** Every line of the text is at most 150 characters long. *)
Definition all_lines_short (text : string) : Prop :=
  Forall (λ line, (String.length line ≤ 150)%nat) (lines_lf text).

(* The first component of the sort key alone. *)
Definition rel_le (t1 t2 : ParsedTag) : Prop := String.le (rel_path t1) (rel_path t2).

(** ** A small renderer and a small tree, to run the navigator on

    [PlainContext] prints the lines of interest of a text, one per line and
    in ascending order, and nothing around them. Line numbers count from 0,
    as the tags of the parser do. *)

Record PlainContext : Type := mkPlain {
  pc_lines : list string;
  pc_lois : list Z;
  pc_show : list Z;
}.

Definition plain_format (c : PlainContext) : string :=
  foldr (λ i acc,
           match pc_lines c !! Z.to_nat i with
           | Some line => if 0 <=? i then line +:+ LF +:+ acc else acc
           | None => acc
           end)
        "" (pc_show c).

#[global] Instance PlainContext_ops : TreeContextOps PlainContext := {|
  new_TreeContext _ code := mkPlain (splitlines code) [] [];
  clear_lines_of_interest c := mkPlain (pc_lines c) [] (pc_show c);
  add_lines_of_interest lois c := mkPlain (pc_lines c) (pc_lois c ++ lois) (pc_show c);
  add_context c :=
    mkPlain (pc_lines c) (pc_lois c) (sort_by Z.leb (remove_dups (pc_lois c)));
  format := plain_format;
|}.

Definition test_def_py : string :=
  "class TestSymbol:" +:+ LF +:+ "    def test_method(self):" +:+ LF +:+ "        pass".

Definition test_ref_py : string :=
  "from test_def import TestSymbol" +:+ LF +:+ LF +:+ "obj = TestSymbol()" +:+ LF
  +:+ "obj.test_method()".

Definition test_tags (abs_file rel_file : string) : list ParsedTag :=
  if String.eqb rel_file "test_def.py" then
    [ mkTag abs_file rel_file "TestSymbol" DEF 0 2;
      mkTag abs_file rel_file "test_method" DEF 1 2 ]
  else if String.eqb rel_file "test_ref.py" then
    [ mkTag abs_file rel_file "TestSymbol" REF 0 0;
      mkTag abs_file rel_file "TestSymbol" REF 2 2;
      mkTag abs_file rel_file "test_method" REF 3 3 ]
  else [].

(* Drops the root directory and its slash. *)
Definition strip_root (root abs_file : string) : string :=
  if String.prefix root abs_file
  then String.substring (String.length root) (String.length abs_file - String.length root) abs_file
  else abs_file.

(* The tree of the navigation tests: two tracked Python files under /repo/. *)
Definition test_world : World := {|
  get_all_absolute_tracked_files _ := Ok ["/repo/test_def.py"; "/repo/test_ref.py"];
  get_absolute_tracked_files_in_directory _ _ :=
    Ok ["/repo/test_def.py"; "/repo/test_ref.py"];
  get_relative_path_str := strip_root "/repo/";
  get_tags_from_file abs_file rel_file := Ok (test_tags abs_file rel_file);
  get_modified_time _ := 1000;
  read_text abs_file :=
    if String.eqb abs_file "/repo/test_def.py" then Some test_def_py
    else if String.eqb abs_file "/repo/test_ref.py" then Some test_ref_py
    else None;
|}.

(** A tree that is not under version control: listing the tracked files
    raises. *)
Definition no_git_world : World := {|
  get_all_absolute_tracked_files _ := Raise "No git repository found";
  get_absolute_tracked_files_in_directory _ _ := Raise "No git repository found";
  get_relative_path_str := strip_root "/repo/";
  get_tags_from_file abs_file rel_file := Ok (test_tags abs_file rel_file);
  get_modified_time _ := 1000;
  read_text := read_text test_world;
|}.

(** The test tree once more, with a parser that fails on [test_def.py]. *)
Definition broken_parse_world : World := {|
  get_all_absolute_tracked_files := get_all_absolute_tracked_files test_world;
  get_absolute_tracked_files_in_directory :=
    get_absolute_tracked_files_in_directory test_world;
  get_relative_path_str := strip_root "/repo/";
  get_tags_from_file abs_file rel_file :=
    if String.eqb rel_file "test_def.py" then Raise "cannot parse test_def.py"
    else Ok (test_tags abs_file rel_file);
  get_modified_time _ := 1000;
  read_text := read_text test_world;
|}.

(** The scan as section 4.1 of the specification words it: a file whose
    extraction fails is skipped and the scan goes on. *)
Fixpoint scan_files_skipping (w : World) (all_abs_files : list string) (idx : Index)
    : Index :=
  match all_abs_files with
  | [] => idx
  | abs_file :: rest =>
      let rel_file := get_relative_path_str w abs_file in
      match get_tags_from_file w abs_file rel_file with
      | Ok parsed_tags =>
          scan_files_skipping w rest (foldl (add_tag rel_file) idx parsed_tags)
      | Raise _ => scan_files_skipping w rest idx
      end
  end.

Definition extraction_ok (w : World) (abs_file : string) : Prop :=
  ∃ parsed_tags,
    get_tags_from_file w abs_file (get_relative_path_str w abs_file) = Ok parsed_tags.

(** ** The file sections of an answer

    The loop of [tag_list_to_tree] closes a section, made of the current
    relative path, absolute path and lines of interest, each time the
    relative path of the next tag differs from the current one; the dummy tag
    closes the last one. *)

Definition FileSection : Type := string * string * list Z.

Definition sec_rel (sec : FileSection) : string := sec.1.1.
Definition sec_lois (sec : FileSection) : list Z := sec.2.

Fixpoint closed_sections (use_end_line : bool) (rel_file abs_file : string)
    (ls : list Z) (tags : list ParsedTag) : list FileSection :=
  match tags with
  | [] => []
  | tag :: rest =>
      if bool_decide (rel_path tag ≠ rel_file)
      then (rel_file, abs_file, ls)
           :: closed_sections use_end_line (rel_path tag) (abs_path tag)
                              (tag_lois use_end_line tag) rest
      else closed_sections use_end_line rel_file abs_file
                           (ls ++ tag_lois use_end_line tag) rest
  end.

Definition file_sections (use_end_line : bool) (tags : list ParsedTag)
    : list FileSection :=
  closed_sections use_end_line "" "" [] (tags ++ [dummy_tag]).

(** Nothing changed in the tree between [w1] and [w2] as far as listing,
    parsing and modification times tell; the text of the files is left out
    on purpose. *)
Definition unchanged_tree (w1 w2 : World) : Prop :=
  get_all_absolute_tracked_files w1 None = get_all_absolute_tracked_files w2 None ∧
  (∀ abs_file, get_relative_path_str w1 abs_file = get_relative_path_str w2 abs_file) ∧
  (∀ abs_file rel_file,
     get_tags_from_file w1 abs_file rel_file = get_tags_from_file w2 abs_file rel_file) ∧
  (∀ abs_file, get_modified_time w1 abs_file = get_modified_time w2 abs_file).

Section NavigatorSections.

Context {TreeContext : Type} `{!TreeContextOps TreeContext}.

(** The text and state after the sections are written out in order, each by
    the branch of the loop that closes it. *)
Fixpoint render_sections (w : World) (sections : list FileSection) (out : string)
    (st : NavState TreeContext) : string * NavState TreeContext :=
  match sections with
  | [] => (out, st)
  | (rel_file, abs_file, ls) :: rest =>
      let s := flush w (mkLoop rel_file abs_file ls out st) in
      render_sections w rest (output s) (nav s)
  end.

(** A sequence of calls of [render_tree], each in the tree of its moment. *)
Definition run_renders (calls : list (World * string * string * list Z))
    (st : NavState TreeContext) : NavState TreeContext :=
  foldl (λ st '(w, abs_file, rel_file, ls), (render_tree w abs_file rel_file ls st).2)
        st calls.

(** No cache entry of [rel_file] carries a modification time after [mtime]. *)
Definition cache_at_most (rel_file : string) (mtime : Z) (st : NavState TreeContext)
    : Prop :=
  (∀ ls m res, rendered_tree_cache st !! (rel_file, ls, m) = Some res → m ≤ mtime) ∧
  (∀ context m, file_context_cache st !! rel_file = Some (context, m) → m ≤ mtime).

End NavigatorSections.

(** The key of the rendered-tree cache for one call of [render_tree]. *)
Definition tree_cache_key (w : World) (abs_file rel_file : string) (ls : list Z)
    : string * list Z * Z :=
  (rel_file, sort_by Z.leb ls, get_modified_time w abs_file).

(** The test tree at the same modification times, with texts that can no
    longer be read. *)
Definition unreadable_world : World := {|
  get_all_absolute_tracked_files := get_all_absolute_tracked_files test_world;
  get_absolute_tracked_files_in_directory :=
    get_absolute_tracked_files_in_directory test_world;
  get_relative_path_str := get_relative_path_str test_world;
  get_tags_from_file := get_tags_from_file test_world;
  get_modified_time := get_modified_time test_world;
  read_text _ := None;
|}.


(** An index with one definition whose identifier is the empty string. *)
Definition empty_name_index : Index :=
  add_tag "pkg/a.py" empty_index (mkTag "/repo/pkg/a.py" "pkg/a.py" "" DEF 0 0).

(** A symbol of 200 characters. *)
Definition long_symbol : string := string_of_list_ascii (replicate 200 "a"%char).

(** The path filter as the specification words it: the tags of the answer
    are those of the candidate files whose relative path contains the
    filter. *)
Definition path_filter_exact (idx : Index) (symbol f : string) : Prop :=
  ∀ tag,
    tag ∈ collect_def_tags idx symbol (Some f) ↔
    ∃ def_rel,
      def_rel ∈ default ∅ (ident2defrels idx !! symbol) ∧
      is_substring f def_rel ∧
      tag ∈ default ∅ (identwrel2deftags idx !! (def_rel, symbol)).

(** The scan as the specification words it, on one tree. *)
Definition scan_skips_failures (w : World) : Prop :=
  ∀ files,
    get_all_absolute_tracked_files w None = Ok files →
    get_parsed_tags w None None = Ok (scan_files_skipping w files empty_index).

(** A new navigator over the small renderer, the index of the test tree, and
    a tree whose parser reports a definition with an empty identifier. *)
Definition plain_navigator : NavState PlainContext := new_navigator.

Definition test_index : Index :=
  scan_files_skipping test_world ["/repo/test_def.py"; "/repo/test_ref.py"] empty_index.

Definition empty_name_world : World := {|
  get_all_absolute_tracked_files _ := Ok ["/repo/pkg/a.py"];
  get_absolute_tracked_files_in_directory _ _ := Ok ["/repo/pkg/a.py"];
  get_relative_path_str := strip_root "/repo/";
  get_tags_from_file abs_file rel_file := Ok [mkTag abs_file rel_file "" DEF 0 0];
  get_modified_time _ := 1000;
  read_text _ := Some ("def (): pass" +:+ LF);
|}.

(** The text and the state of an answer. *)
Definition text_of {S : Type} (r : result (string * S)) : option string :=
  match r with Ok (text, _) => Some text | Raise _ => None end.

Definition state_of {S : Type} (r : result (string * S)) : option S :=
  match r with Ok (_, st) => Some st | Raise _ => None end.

(** ** The tags of a scan, one by one

    The scan adds the tags of every tracked file to the index, each paired
    with the relative path of the file it came from. *)

Definition scanned_tags (w : World) (all_abs_files : list string)
    : list (string * ParsedTag) :=
  all_abs_files ≫= λ abs_file,
    let rel_file := get_relative_path_str w abs_file in
    match get_tags_from_file w abs_file rel_file with
    | Ok parsed_tags => pair rel_file <$> parsed_tags
    | Raise _ => []
    end.

Definition add_pair (idx : Index) (p : string * ParsedTag) : Index :=
  add_tag p.1 idx p.2.

(* What one tag contributes to each of the four dictionaries. *)
Definition def_rel_item (p : string * ParsedTag) : option (string * string) :=
  match tag_kind p.2 with DEF => Some (node_content p.2, p.1) | REF => None end.

Definition ref_rel_item (p : string * ParsedTag) : option (string * string) :=
  match tag_kind p.2 with REF => Some (node_content p.2, p.1) | DEF => None end.

Definition def_tag_item (p : string * ParsedTag)
    : option (string * string * ParsedTag) :=
  match tag_kind p.2 with DEF => Some ((p.1, node_content p.2), p.2) | REF => None end.

Definition ref_tag_item (p : string * ParsedTag)
    : option (string * string * ParsedTag) :=
  match tag_kind p.2 with REF => Some ((p.1, node_content p.2), p.2) | DEF => None end.

(** The tag [t] was returned by the parser for a tracked file whose relative
    path is [rel_file]. *)
Definition parsed_in (w : World) (all_abs_files : list string) (rel_file : string)
    (t : ParsedTag) : Prop :=
  ∃ abs_file parsed_tags,
    abs_file ∈ all_abs_files ∧
    get_relative_path_str w abs_file = rel_file ∧
    get_tags_from_file w abs_file rel_file = Ok parsed_tags ∧
    t ∈ parsed_tags.

(** The relative path of each tracked file, once per reference tag of
    [ident] in it, in the order of the scan. *)
Definition ref_occurrences (w : World) (all_abs_files : list string) (ident : string)
    : list string :=
  all_abs_files ≫= λ abs_file,
    let rel_file := get_relative_path_str w abs_file in
    match get_tags_from_file w abs_file rel_file with
    | Ok parsed_tags =>
        (λ _, rel_file)
          <$> filter (λ t, tag_kind t = REF ∧ node_content t = ident) parsed_tags
    | Raise _ => []
    end.

(** ** Notions about the state of the navigator *)

Section NavigatorNotions.

Context {TreeContext : Type} `{!TreeContextOps TreeContext}.

(** From [st] to [st'] the caches and the read log were only added to. *)
Definition nav_grows (st st' : NavState TreeContext) : Prop :=
  rendered_tree_cache st ⊆ rendered_tree_cache st' ∧
  dom (file_context_cache st) ⊆ dom (file_context_cache st') ∧
  read_log st `prefix_of` read_log st'.

(** Every rendered tree of a file is backed by a cached context of that file
    that is at least as recent. *)
Definition context_covers (st : NavState TreeContext) : Prop :=
  ∀ rel_file ls m res,
    rendered_tree_cache st !! (rel_file, ls, m) = Some res →
    ∃ context m', file_context_cache st !! rel_file = Some (context, m') ∧ m ≤ m'.

End NavigatorNotions.

(** The characters of a string. *)
Definition chars (s : string) : list ascii := list_ascii_of_string s.

(** What the loop writes for a file section without lines of interest. *)
Definition bare_section_header (sec : FileSection) : string :=
  match sec_rel sec with
  | "" => ""
  | _ => LF +:+ sec_rel sec +:+ ":" +:+ LF
  end.

(** ** Queries in a row, and what the cache relies on *)

Inductive Query : Type :=
| Definitions (symbol : string) (rel_file_path : option string) (use_end_line : bool)
| References (symbol : string).

(** The absolute path of every tag the parser returns for the tracked files
    is the one that [abs_of] gives for its relative path. *)
Definition tags_located (w : World) (abs_of : string → string) : Prop :=
  abs_of "" = "" ∧
  ∀ files rel_file t,
    get_all_absolute_tracked_files w None = Ok files →
    parsed_in w files rel_file t → abs_path t = abs_of (rel_path t).

Section QueriesInARow.

Context {TreeContext : Type} `{!TreeContextOps TreeContext}.

Definition ask (w : World) (q : Query) (st : NavState TreeContext)
    : result (string * NavState TreeContext) :=
  match q with
  | Definitions symbol rel_file_path use_end_line =>
      get_definitions_tree w symbol rel_file_path use_end_line st
  | References symbol => get_references_tree w symbol st
  end.

(* The state after the queries [qs]; a query that raises leaves it as it
   was, since the exception comes before any render. *)
Definition state_after (w : World) (qs : list Query) (st : NavState TreeContext)
    : NavState TreeContext :=
  foldl (λ st q, match ask w q st with Ok (_, st') => st' | Raise _ => st end) st qs.

(** What the cache takes for granted about the renderer: the rendering of a
    context depends on the lines of interest given last, not on those given
    before, and not on the order in which they are given. *)
Definition renderer_forgets : Prop :=
  ∀ ls ls' (context : TreeContext),
    format (render_with ls (render_with ls' context)) = format (render_with ls context).

Definition renderer_order_blind : Prop :=
  ∀ ls1 ls2 (context : TreeContext),
    sort_by Z.leb ls1 = sort_by Z.leb ls2 →
    format (render_with ls1 context) = format (render_with ls2 context).

(** The rendering of the lines [ls] of a file by a new context. *)
Definition fresh_rendering (w : World) (abs_file rel_file : string) (ls : list Z)
    : string :=
  format (render_with ls (new_TreeContext rel_file (code_of w abs_file))).

(** Both caches hold what a new navigator would compute in the tree [w]. *)
Definition cache_faithful (w : World) (abs_of : string → string)
    (st : NavState TreeContext) : Prop :=
  (∀ rel_file key m res,
     rendered_tree_cache st !! (rel_file, key, m) = Some res →
     m = get_modified_time w (abs_of rel_file) ∧
     ∀ ls, sort_by Z.leb ls = key →
           res = fresh_rendering w (abs_of rel_file) rel_file ls) ∧
  (∀ rel_file context m,
     file_context_cache st !! rel_file = Some (context, m) →
     m = get_modified_time w (abs_of rel_file) ∧
     ∀ ls, format (render_with ls context)
           = fresh_rendering w (abs_of rel_file) rel_file ls).

End QueriesInARow.

(** ** The answer, section by section

    What an answer holds for its file sections, written without the loop of
    [tag_list_to_tree]. A section with lines of interest gives its relative
    path, a colon, a line feed and the text that [render_tree] returns when
    it is handed the absolute path, the relative path and these very lines,
    in the state the sections before it left; a section without lines gives
    a bare header. *)

Definition sec_abs (sec : FileSection) : string := sec.1.2.

(** The text cut line by line: the lines of [raw], as [splitlines] gives
    them, each reduced to its first [n] characters, joined by line feeds. *)
Definition cut_lines (n : nat) (raw : string) : string :=
  String.concat LF (String.substring 0 n <$> splitlines raw).

(** The file sections and the header line of a query. *)
Definition query_sections (idx : Index) (q : Query) : list FileSection :=
  match q with
  | Definitions symbol rel_file_path use_end_line =>
      file_sections use_end_line
        (sort_by tag_key_leb (elements (collect_def_tags idx symbol rel_file_path)))
  | References symbol =>
      file_sections false (sort_by tag_key_leb (elements (collect_ref_tags idx symbol)))
  end.

Definition query_header (q : Query) : string :=
  match q with
  | Definitions symbol _ _ => LF +:+ "Definition(s) of `" +:+ symbol +:+ "`:" +:+ LF
  | References symbol => LF +:+ "References to `" +:+ symbol +:+ "`:" +:+ LF
  end.

Section AnswerTexts.

Context {TreeContext : Type} `{!TreeContextOps TreeContext}.

Fixpoint section_texts (w : World) (sections : list FileSection)
    (st : NavState TreeContext) : list string * NavState TreeContext :=
  match sections with
  | [] => ([], st)
  | sec :: rest =>
      match sec_lois sec with
      | [] =>
          let '(texts, st') := section_texts w rest st in
          (bare_section_header sec :: texts, st')
      | _ :: _ =>
          let '(res, st1) :=
            render_tree w (sec_abs sec) (sec_rel sec) (sec_lois sec) st in
          let '(texts, st') := section_texts w rest st1 in
          ((sec_rel sec +:+ ":" +:+ LF +:+ res) :: texts, st')
      end
  end.

(** The text of a section when the renderer starts from the text the file
    has in [w]: a new context of that text, given the lines of interest of
    the section and nothing else. *)
Definition fresh_section_text (w : World) (sec : FileSection) : string :=
  match sec_lois sec with
  | [] => bare_section_header sec
  | _ :: _ =>
      sec_rel sec +:+ ":" +:+ LF
      +:+ fresh_rendering w (sec_abs sec) (sec_rel sec) (sec_lois sec)
  end.

(** The caches hold nothing that [render_tree] would use for the section in
    the tree [w]: no rendered tree of the file at its modification time, and
    no context of the file that is as recent as the file. *)
Definition unseen (w : World) (sec : FileSection) (st : NavState TreeContext) : Prop :=
  (∀ ls, rendered_tree_cache st
           !! (sec_rel sec, ls, get_modified_time w (sec_abs sec)) = None) ∧
  (∀ context m, file_context_cache st !! sec_rel sec = Some (context, m) →
                m < get_modified_time w (sec_abs sec)).


End AnswerTexts.

(** ** A tree with two files that define and use the same name

    [lib/b.py] is listed before [lib/a.py]. The name [area] is defined twice
    in [lib/a.py] and once in [lib/b.py]; one of its uses spans two lines.
    The last line of [lib/a.py] is 210 characters long. *)

Definition long_line : string :=
  "table = [" +:+ string_of_list_ascii (replicate 200 "1"%char) +:+ "]".

Definition shapes_a_py : string :=
  "def area(r):" +:+ LF +:+ "    return 3 * r * r" +:+ LF +:+ LF
  +:+ "def area(w, h):" +:+ LF +:+ "    return w * h" +:+ LF
  +:+ "print(area(2))" +:+ LF +:+ long_line +:+ LF.

Definition shapes_b_py : string :=
  "from a import area" +:+ LF +:+ "def area(side):" +:+ LF
  +:+ "    return side * side" +:+ LF +:+ LF
  +:+ "total = area(3) + (" +:+ LF +:+ "    area(4))" +:+ LF.

Definition shapes_tags (abs_file rel_file : string) : list ParsedTag :=
  if String.eqb rel_file "lib/a.py" then
    [ mkTag abs_file rel_file "area" DEF 0 1;
      mkTag abs_file rel_file "area" DEF 3 4;
      mkTag abs_file rel_file "area" REF 5 5;
      mkTag abs_file rel_file "table" DEF 6 6 ]
  else if String.eqb rel_file "lib/b.py" then
    [ mkTag abs_file rel_file "area" REF 0 0;
      mkTag abs_file rel_file "area" DEF 1 2;
      mkTag abs_file rel_file "area" REF 4 5 ]
  else [].

Definition shapes_world : World := {|
  get_all_absolute_tracked_files _ := Ok ["/repo/lib/b.py"; "/repo/lib/a.py"];
  get_absolute_tracked_files_in_directory _ _ :=
    Ok ["/repo/lib/b.py"; "/repo/lib/a.py"];
  get_relative_path_str := strip_root "/repo/";
  get_tags_from_file abs_file rel_file := Ok (shapes_tags abs_file rel_file);
  get_modified_time _ := 1000;
  read_text abs_file :=
    if String.eqb abs_file "/repo/lib/a.py" then Some shapes_a_py
    else if String.eqb abs_file "/repo/lib/b.py" then Some shapes_b_py
    else None;
|}.

Definition shapes_index : Index :=
  scan_files_skipping shapes_world ["/repo/lib/b.py"; "/repo/lib/a.py"] empty_index.

(** Where the files of the test tree live. *)
Definition repo_abs_of (rel_file : string) : string :=
  match rel_file with
  | "" => ""
  | _ => "/repo/" +:+ rel_file
  end.

(** * The editor ([openhands_aci/editor/editor.py], class [OHEditor])

    ** More of Python's strings and lists *)

(* [s[n:]] for a string *)
Fixpoint str_drop (n : nat) (s : string) : string :=
  match n, s with
  | O, _ => s
  | _, "" => ""
  | S n', String _ rest => str_drop n' rest
  end.

(* The scans of [count], [replace] and [split] go through the text from the
   left; after a match they pass over the rest of the matched piece, which
   [skip] counts down, so that occurrences do not overlap. *)
Fixpoint count_from (skip : nat) (sub s : string) : nat :=
  match s with
  | "" => O
  | String _ rest =>
      match skip with
      | S skip' => count_from skip' sub rest
      | O =>
          if String.prefix sub s
          then S (count_from (String.length sub - 1) sub rest)
          else count_from O sub rest
      end
  end.

(* [s.count(sub)]; the empty string is found between all characters *)
Definition str_count (sub s : string) : nat :=
  match sub with
  | "" => S (String.length s)
  | _ => count_from O sub s
  end.

Fixpoint replace_from (skip : nat) (old new s : string) : string :=
  match s with
  | "" => ""
  | String c rest =>
      match skip with
      | S skip' => replace_from skip' old new rest
      | O =>
          if String.prefix old s
          then new +:+ replace_from (String.length old - 1) old new rest
          else String c (replace_from O old new rest)
      end
  end.

Fixpoint interleave_new (new s : string) : string :=
  match s with
  | "" => new
  | String c rest => new +:+ String c (interleave_new new rest)
  end.

(* [s.replace(old, new)] *)
Definition str_replace_all (old new s : string) : string :=
  match old with
  | "" => interleave_new new s
  | _ => replace_from O old new s
  end.

Fixpoint split_from (skip : nat) (sep s : string) : list string :=
  match s with
  | "" => [""]
  | String c rest =>
      match skip with
      | S skip' => split_from skip' sep rest
      | O =>
          if String.prefix sep s
          then "" :: split_from (String.length sep - 1) sep rest
          else match split_from O sep rest with
               | piece :: pieces => String c piece :: pieces
               | [] => [String c ""]
               end
      end
  end.

(* [s.split(sep)]; [None] stands for ValueError('empty separator') *)
Definition str_split (sep s : string) : option (list string) :=
  match sep with
  | "" => None
  | _ => Some (split_from O sep s)
  end.

(* [s.split('\n')] *)
Definition split_lines (s : string) : list string := split_from O LF s.

Definition TAB : ascii := "009"%char.

Fixpoint spaces (n : nat) : string :=
  match n with
  | O => ""
  | S n' => String " " (spaces n')
  end.

(* [s.expandtabs()] with the tab size 8; [col] is the column reached, which a
   line feed or a carriage return sets back to 0. *)
Fixpoint expandtabs_from (col : nat) (s : string) : string :=
  match s with
  | "" => ""
  | String c rest =>
      if Ascii.eqb c TAB then
        let incr := (8 - col mod 8)%nat in
        spaces incr +:+ expandtabs_from (col + incr) rest
      else if is_LF c || is_CR c then String c (expandtabs_from O rest)
      else String c (expandtabs_from (S col) rest)
  end.

Definition expandtabs (s : string) : string := expandtabs_from O s.

(* [str(n)] for an integer *)
Definition str_of_Z (n : Z) : string := DecimalString.NilZero.string_of_int (Z.to_int n).

(* [f'{n:6}'] for an integer: right-aligned in a field of six characters *)
Definition format_width6 (n : Z) : string :=
  let digits := str_of_Z n in
  spaces (6 - String.length digits) +:+ digits.

(* [str(lst)] for a list of integers *)
Definition str_of_Z_list (l : list Z) : string :=
  "[" +:+ String.concat ", " (str_of_Z <$> l) +:+ "]".

(* [l[start:stop]] with Python's treatment of negative and oversized
   indices *)
Definition slice_index (len : nat) (i : Z) : nat :=
  let i' := if i <? 0 then i + Z.of_nat len else i in
  Z.to_nat (Z.max 0 (Z.min i' (Z.of_nat len))).

Definition py_slice {A : Type} (l : list A) (start stop : option Z) : list A :=
  let a := from_option (slice_index (length l)) O start in
  let b := from_option (slice_index (length l)) (length l) stop in
  take (b - a) (drop a l).

(** ** The editor

    The file system, the shell, the path library and the module constants
    are outside [editor.py]; an [Env] gives them. A file system is a value of
    the type [FS]; reading and writing may raise, and the text of the
    exception is what [str(e)] gives. A write that raises may have changed
    the file all the same ([write_text] opens the file, which empties it,
    before it writes), and a shell command may change any file: both return
    the file system they leave. A [Path] is modelled by its string. *)

Record Env (FS : Type) : Type := mkEnv {
  (* config.SNIPPET_CONTEXT_WINDOW *)
  SNIPPET_CONTEXT_WINDOW : nat;
  (* results.maybe_truncate(content) *)
  maybe_truncate : string → string;
  (* shell.run_shell_cmd(cmd): return code, stdout and stderr, and the file
     system after the command *)
  run_shell_cmd : FS → string → Z * string * string * FS;
  (* path.read_text() *)
  path_read_text : FS → string → result string;
  (* path.write_text(text): the file system after the call, and the exception
     when it raised *)
  path_write_text : FS → string → string → FS * option string;
  (* path.exists(), path.is_dir() *)
  path_exists : FS → string → bool;
  path_is_dir : FS → string → bool;
  (* str(Path(path)) for the string given to the tool *)
  Path_of : string → string;
  (* str(path.relative_to(root)); raises ValueError outside of root *)
  path_relative_to : string → string → result string;
  (* symbol_navigator.root *)
  navigator_root : string;
  (* str(e) for e = ToolError(message) *)
  str_ToolError : string → string;
}.
Arguments mkEnv {FS}.
Arguments SNIPPET_CONTEXT_WINDOW {FS}.
Arguments maybe_truncate {FS}.
Arguments run_shell_cmd {FS}.
Arguments path_read_text {FS}.
Arguments path_write_text {FS}.
Arguments path_exists {FS}.
Arguments path_is_dir {FS}.
Arguments Path_of {FS}.
Arguments path_relative_to {FS}.
Arguments navigator_root {FS}.
Arguments str_ToolError {FS}.

Module Editor.

(* The value handed to EditorToolParameterInvalidError. *)
Inductive ParamValue : Type :=
| VPath (path : string)
| VRange (view_range : list Z)
| VInt (n : Z).

Inductive Exn : Type :=
| ToolError (message : string)
| EditorToolParameterInvalidError (parameter : string) (value : ParamValue) (hint : string)
| EditorToolParameterMissingError (command parameter : string)
(* a bare [raise] without an active exception *)
| RuntimeError (message : string)
(* the local [_path] read before it was bound *)
| UnboundLocalError (name : string)
| ValueError (message : string)
(* an exception of the navigator's collaborators, passed on as it is *)
| Uncaught (message : string).

Inductive ResultClass : Type := ToolResult | CLIResult.

Record Result : Type := mkResult {
  result_class : ResultClass;
  output : string;
  error : option string;
}.

Section WithEnv.

Context {FS TreeContext : Type} `{!TreeContextOps TreeContext}.
Variable env : Env FS.

(* The editor and the file system it works on. *)
Record State : Type := mkState {
  (* self._file_history: defaultdict(list) *)
  file_history : gmap string (list string);
  files : FS;
  (* the caches of self.symbol_navigator *)
  navigator : NavState TreeContext;
}.

(* A method: it ends with a value or an exception, and the state goes on
   from where it stood in both cases. *)
Definition M (A : Type) : Type := State → (Exn + A) * State.

Definition ret {A : Type} (a : A) : M A := λ st, (inr a, st).
Definition raise {A : Type} (e : Exn) : M A := λ st, (inl e, st).
Definition bind {A B : Type} (k : A → M B) (m : M A) : M B :=
  λ st, match m st with
        | (inr a, st') => k a st'
        | (inl e, st') => (inl e, st')
        end.

#[local] Instance M_bind : MBind M := @bind.

(* self._file_history[path]: reading a missing key stores the empty list *)
Definition history_of (path : string) : M (list string) :=
  λ st, match file_history st !! path with
        | Some h => (inr h, st)
        | None =>
            (inr [], mkState (<[path := []]> (file_history st)) (files st) (navigator st))
        end.

(* self._file_history[path].append(text) *)
Definition history_append (path text : string) : M unit :=
  λ st, (inr (), mkState (<[path := default [] (file_history st !! path) ++ [text]]>
                            (file_history st))
                         (files st) (navigator st)).

(* self._file_history[path].pop() *)
Definition history_pop (path : string) : M unit :=
  λ st, (inr (), mkState (<[path := removelast (default [] (file_history st !! path))]>
                            (file_history st))
                         (files st) (navigator st)).

Definition read_file (path : string) : M string :=
  λ st, match path_read_text env (files st) path with
        | Ok text => (inr text, st)
        | Raise e =>
            (inl (ToolError ("Ran into " +:+ e +:+ " while trying to read " +:+ path)), st)
        end.

Definition write_file (path file_text : string) : M unit :=
  λ st, match path_write_text env (files st) path file_text with
        | (files', None) => (inr (), mkState (file_history st) files' (navigator st))
        | (files', Some e) =>
            (inl (ToolError ("Ran into " +:+ e +:+ " while trying to write to " +:+ path)),
             mkState (file_history st) files' (navigator st))
        end.

Definition exists_ (path : string) : M bool := λ st, (inr (path_exists env (files st) path), st).
Definition is_dir (path : string) : M bool := λ st, (inr (path_is_dir env (files st) path), st).

(* path.is_absolute() *)
Definition is_absolute (path : string) : bool := String.prefix "/" path.

Definition _populate_file_history_if_having_content_before_edit (path : string) : M unit :=
  h ← history_of path;
  ex ← exists_ path;
  if bool_decide (0 < length h)%nat || negb ex then ret ()
  else
    text ← read_file path;
    history_append path text.

Definition _make_output (snippet_content snippet_description : string) (start_line : Z)
    (expand_tabs : bool) : string :=
  let snippet_content := maybe_truncate env snippet_content in
  let snippet_content :=
    if expand_tabs then expandtabs snippet_content else snippet_content in
  let snippet_content :=
    String.concat LF
      (imap (λ i line, format_width6 (Z.of_nat i + start_line) +:+ String TAB line)
            (split_lines snippet_content)) in
  "Here's the result of running `cat -n` on " +:+ snippet_description +:+ ":" +:+ LF
  +:+ snippet_content +:+ LF.

(* The numbers, from 1, of the lines that contain [old_str]. *)
Definition lines_containing (old_str : string) (file_content_lines : list string)
    : list Z :=
  omap (λ '(idx, line),
          if str_contains old_str line then Some (Z.of_nat idx + 1) else None)
       (imap pair file_content_lines).

Definition str_replace (path old_str : string) (new_str : option string) : M Result :=
  _populate_file_history_if_having_content_before_edit path;;
  file_content ← read_file path;
  let old_str := expandtabs old_str in
  let new_str := from_option expandtabs "" new_str in
  let occurrences := str_count old_str file_content in
  if bool_decide (occurrences = 0)%nat then
    raise (ToolError ("No replacement was performed, old_str `" +:+ old_str
                      +:+ "` did not appear verbatim in " +:+ path +:+ "."))
  else if bool_decide (1 < occurrences)%nat then
    let file_content_lines := split_lines file_content in
    let line_numbers := lines_containing old_str file_content_lines in
    raise (ToolError ("No replacement was performed. Multiple occurrences of old_str `"
                      +:+ old_str +:+ "` in lines " +:+ str_of_Z_list line_numbers
                      +:+ ". Please ensure it is unique."))
  else
    let new_file_content := str_replace_all old_str new_str file_content in
    write_file path new_file_content;;
    history_append path new_file_content;;
    match str_split old_str file_content with
    | None => raise (ValueError "empty separator")
    | Some pieces =>
        let replacement_line := Z.of_nat (str_count LF (default "" (head pieces))) in
        let window := Z.of_nat (SNIPPET_CONTEXT_WINDOW env) in
        let start_line := Z.max 0 (replacement_line - window) in
        let end_line := replacement_line + window + Z.of_nat (str_count LF new_str) in
        let snippet :=
          String.concat LF
            (py_slice (split_lines new_file_content) (Some start_line)
                      (Some (end_line + 1))) in
        let success_msg := "The file " +:+ path +:+ " has been edited. " in
        let success_msg :=
          success_msg
          +:+ _make_output snippet ("a snippet of " +:+ path) (start_line + 1) true in
        let success_msg :=
          success_msg +:+ "Review the changes and make sure they are as expected. Edit the file again if necessary." in
        ret (mkResult CLIResult success_msg None)
    end.

Definition view (path : string) (view_range : option (list Z)) : M Result :=
  dir ← is_dir path;
  if (dir : bool) then
    match view_range with
    | Some ((_ :: _) as r) =>
        raise (EditorToolParameterInvalidError "view_range" (VRange r)
                 "The `view_range` parameter is not allowed when `path` points to a directory.")
    | _ =>
        (λ st,
          let '(_, stdout, stderr, files') :=
            run_shell_cmd env (files st)
              ("find " +:+ path +:+ " -maxdepth 2 -not -path '*/\.*'") in
          let stdout :=
            match stderr with
            | "" => "Here's the files and directories up to 2 levels deep in " +:+ path
                    +:+ ", excluding hidden items:" +:+ LF +:+ stdout +:+ LF
            | _ => stdout
            end in
          (inr (mkResult CLIResult stdout (Some stderr)),
           mkState (file_history st) files' (navigator st))) : M Result
    end
  else
    file_content ← read_file path;
    let start_line := 1 in
    match view_range with
    | None | Some [] =>
        ret (mkResult CLIResult (_make_output file_content path start_line true) None)
    | Some [start_line; end_line] =>
        let r := [start_line; end_line] in
        let file_content_lines := split_lines file_content in
        let num_lines := Z.of_nat (length file_content_lines) in
        if (start_line <? 1) || (num_lines <? start_line) then
          raise (EditorToolParameterInvalidError "view_range" (VRange r)
                   ("Its first element `" +:+ str_of_Z start_line
                    +:+ "` should be within the range of lines of the file: "
                    +:+ str_of_Z_list [1; num_lines] +:+ "."))
        else if num_lines <? end_line then
          raise (EditorToolParameterInvalidError "view_range" (VRange r)
                   ("Its second element `" +:+ str_of_Z end_line
                    +:+ "` should be smaller than the number of lines in the file: `"
                    +:+ str_of_Z num_lines +:+ "`."))
        else if negb (end_line =? -1) && (end_line <? start_line) then
          raise (EditorToolParameterInvalidError "view_range" (VRange r)
                   ("Its second element `" +:+ str_of_Z end_line
                    +:+ "` should be greater than or equal to the first element `"
                    +:+ str_of_Z start_line +:+ "`."))
        else
          let file_content :=
            if end_line =? -1
            then String.concat LF (py_slice file_content_lines (Some (start_line - 1)) None)
            else String.concat LF
                   (py_slice file_content_lines (Some (start_line - 1)) (Some end_line)) in
          ret (mkResult CLIResult (_make_output file_content path start_line true) None)
    | Some r =>
        raise (EditorToolParameterInvalidError "view_range" (VRange r)
                 "It should be a list of two integers.")
    end.

Definition insert (path : string) (insert_line : Z) (new_str : string) : M Result :=
  _populate_file_history_if_having_content_before_edit path;;
  (* read_file raises ToolError; the handler wraps its text once more *)
  file_text ← ((λ st, match read_file path st with
                      | (inl (ToolError e), st') =>
                          (inl (ToolError ("Ran into " +:+ str_ToolError env e
                                           +:+ " while trying to read " +:+ path)), st')
                      | r => r
                      end) : M string);
  let file_text := expandtabs file_text in
  let new_str := expandtabs new_str in
  let file_text_lines := split_lines file_text in
  let num_lines := Z.of_nat (length file_text_lines) in
  if (insert_line <? 0) || (num_lines <? insert_line) then
    raise (EditorToolParameterInvalidError "insert_line" (VInt insert_line)
             ("It should be within the range of lines of the file: "
              +:+ str_of_Z_list [0; num_lines]))
  else
    let window := Z.of_nat (SNIPPET_CONTEXT_WINDOW env) in
    let new_str_lines := split_lines new_str in
    let new_file_text_lines :=
      py_slice file_text_lines None (Some insert_line)
      ++ new_str_lines
      ++ py_slice file_text_lines (Some insert_line) None in
    let snippet_lines :=
      py_slice file_text_lines (Some (Z.max 0 (insert_line - window))) (Some insert_line)
      ++ new_str_lines
      ++ py_slice file_text_lines (Some insert_line)
                  (Some (Z.min num_lines (insert_line + window))) in
    let new_file_text := String.concat LF new_file_text_lines in
    let snippet := String.concat LF snippet_lines in
    write_file path new_file_text;;
    history_append path new_file_text;;
    let success_message := "The file " +:+ path +:+ " has been edited. " in
    let success_message :=
      success_message
      +:+ _make_output snippet "a snippet of the edited file"
                       (Z.max 1 (insert_line - window + 1)) true in
    let success_message :=
      success_message +:+ "Review the changes and make sure they are as expected (correct indentation, no duplicate lines, etc). Edit the file again if necessary." in
    ret (mkResult CLIResult success_message None).

Definition undo_edit (path : string) : M Result :=
  h ← history_of path;
  if bool_decide (length h ≤ 1)%nat then
    raise (ToolError ("No edit history found for " +:+ path +:+ "."))
  else
    history_pop path;;
    h ← history_of path;
    let old_text := default "" (last h) in
    write_file path old_text;;
    ret (mkResult CLIResult
           ("Last edit to " +:+ path +:+ " undone successfully. "
            +:+ _make_output old_text path 1 true)
           None).

(* A call of the navigator inside the editor: its caches live in the state,
   its exceptions are not caught. *)
Definition navigate
    (query : NavState TreeContext → result (string * NavState TreeContext)) : M string :=
  λ st, match query (navigator st) with
        | Ok (text, nav') => (inr text, mkState (file_history st) (files st) nav')
        | Raise e => (inl (Uncaught e), st)
        end.

Definition jump_to_definition (w : World) (path : option string) (symbol_name : string)
    : M Result :=
  match path with
  | None =>
      text ← navigate (get_definitions_tree w symbol_name None true);
      ret (mkResult CLIResult text None)
  | Some path =>
      match path_relative_to env path (navigator_root env) with
      | Raise e => raise (ValueError e)
      | Ok rel_path_str =>
          text ← navigate (get_definitions_tree w symbol_name (Some rel_path_str) true);
          ret (mkResult CLIResult text None)
      end
  end.

Definition find_references (w : World) (symbol_name : string) : M Result :=
  text ← navigate (get_references_tree w symbol_name);
  ret (mkResult CLIResult text None).

Definition validate_path (command path : string) : M unit :=
  if negb (is_absolute path) then
    let suggested_path := path in
    raise (EditorToolParameterInvalidError "path" (VPath path)
             ("The path should be an absolute path, starting with `/`. Maybe you meant "
              +:+ suggested_path +:+ "?"))
  else
    ex ← exists_ path;
    if String.eqb command "create" && ex then
      raise (EditorToolParameterInvalidError "path" (VPath path)
               ("File already exists at: " +:+ path
                +:+ ". Cannot overwrite files using command `create`."))
    else if negb (String.eqb command "create") && negb ex then
      raise (EditorToolParameterInvalidError "path" (VPath path)
               ("The path " +:+ path +:+ " does not exist. Please provide a valid path."))
    else
      dir ← is_dir path;
      if negb (String.eqb command "view") && (dir : bool) then
        raise (EditorToolParameterInvalidError "path" (VPath path)
                 ("The path " +:+ path
                  +:+ " is a directory and only the `view` command can be used on directories."))
      else ret ().

(* The local [_path]: bound only when [path] was given. *)
Definition the_path (_path : option string) : M string :=
  match _path with
  | Some p => ret p
  | None => raise (UnboundLocalError "_path")
  end.

(* Truth value of an optional string argument. *)
Definition given (arg : option string) : bool := truthy_opt_str arg.

Definition commands : list string :=
  ["view"; "create"; "str_replace"; "insert"; "undo_edit"; "jump_to_definition";
   "find_references"].

Definition call (w : World) (command : string) (path file_text : option string)
    (view_range : option (list Z)) (old_str new_str : option string)
    (insert_line : option Z) (symbol_name : option string) : M Result :=
  _path ← match path with
          | Some path =>
              let _path := Path_of env path in
              validate_path command _path;; ret (Some _path)
          | None => ret None
          end;
  if String.eqb command "view" then
    p ← the_path _path; view p view_range
  else if String.eqb command "create" then
    if negb (given file_text) then raise (RuntimeError "No active exception to reraise")
    else
      p ← the_path _path;
      write_file p (default "" file_text);;
      history_append p (default "" file_text);;
      ret (mkResult ToolResult ("File created successfully at: " +:+ p) None)
  else if String.eqb command "str_replace" then
    if negb (given old_str) then
      raise (EditorToolParameterMissingError command "old_str")
    else p ← the_path _path; str_replace p (default "" old_str) new_str
  else if String.eqb command "insert" then
    match insert_line with
    | None => raise (EditorToolParameterMissingError command "insert_line")
    | Some insert_line =>
        if negb (given new_str) then
          raise (EditorToolParameterMissingError command "new_str")
        else p ← the_path _path; insert p insert_line (default "" new_str)
    end
  else if String.eqb command "undo_edit" then
    p ← the_path _path; undo_edit p
  else if String.eqb command "jump_to_definition" then
    if negb (given symbol_name) then
      raise (EditorToolParameterMissingError command "symbol_name")
    else
      jump_to_definition w (if given path then _path else None) (default "" symbol_name)
  else if String.eqb command "find_references" then
    if negb (given symbol_name) then
      raise (EditorToolParameterMissingError command "symbol_name")
    else find_references w (default "" symbol_name)
  else
    raise (ToolError ("Unrecognized command " +:+ command
                      +:+ ". The allowed commands for the oh_editor tool are: "
                      +:+ String.concat ", " commands)).

End WithEnv.

End Editor.

(** The history of [path] once an editing method has filled it in: the
    history it had, or the text of the file when it had none and the file
    exists and can be read. *)
Definition populated {FS TreeContext : Type} (env : Env FS) (path : string)
    (st : Editor.State (FS:=FS) (TreeContext:=TreeContext)) : list string :=
  match default [] (Editor.file_history st !! path) with
  | [] => if path_exists env (Editor.files st) path
          then match path_read_text env (Editor.files st) path with
               | Ok text => [text]
               | Raise _ => []
               end
          else []
  | h0 => h0
  end.

(** The lines of the file after [insert]: those of the tab-expanded text of
    the file, with the lines of the tab-expanded [new_str] put after the
    first [insert_line] of them. *)
Definition inserted_lines (file_text : string) (insert_line : Z) (new_str : string)
    : list string :=
  let file_text_lines := split_lines (expandtabs file_text) in
  take (Z.to_nat insert_line) file_text_lines
  ++ split_lines (expandtabs new_str)
  ++ drop (Z.to_nat insert_line) file_text_lines.

(** ** A small file system, to run the editor on

    Files are texts under their paths, directories are a set of paths;
    reading a path that is no file raises, writing always succeeds, and the
    shell prints nothing and changes nothing. *)

Record PlainFS : Type := mkPlainFS {
  pfs_files : gmap string string;
  pfs_dirs : gset string;
}.

Definition plain_env : Env PlainFS := {|
  SNIPPET_CONTEXT_WINDOW := 4;
  maybe_truncate text := text;
  run_shell_cmd fs _ := (0, "", "", fs);
  path_read_text fs path :=
    match pfs_files fs !! path with
    | Some text => Ok text
    | None => Raise ("[Errno 2] No such file or directory: '" +:+ path +:+ "'")
    end;
  path_write_text fs path text :=
    (mkPlainFS (<[path := text]> (pfs_files fs)) (pfs_dirs fs), None);
  path_exists fs path :=
    bool_decide (is_Some (pfs_files fs !! path)) || bool_decide (path ∈ pfs_dirs fs);
  path_is_dir fs path := bool_decide (path ∈ pfs_dirs fs);
  Path_of path := path;
  path_relative_to path root :=
    if String.prefix (root +:+ "/") path
    then Ok (str_drop (S (String.length root)) path)
    else Raise ("'" +:+ path +:+ "' is not in the subpath of '" +:+ root +:+ "'");
  navigator_root := "/repo";
  str_ToolError message := message;
|}.

(* The file of the editor tests. *)
Definition test_txt : string :=
  "This is a test file." +:+ LF +:+ "This file is for testing purposes.".

Definition test_fs : PlainFS :=
  mkPlainFS {[ "/tmp/test.txt" := test_txt ]} {[ "/tmp" ]}.

Definition test_editor : Editor.State (FS:=PlainFS) (TreeContext:=PlainContext) :=
  Editor.mkState ∅ test_fs plain_navigator.

(** ** A disk that fills up, and a shell that tidies up

    The small file system once more, with room for [writes_left] further
    writes: a write beyond that raises once the file was opened, and leaves
    it empty. The shell of this environment knows one command that changes
    files: [find DIR -delete ...] removes every file under [DIR]. *)

Record DiskFS : Type := mkDisk {
  disk_fs : PlainFS;
  writes_left : nat;
}.

(* The words of a command line, split at spaces. *)
Definition words (cmd : string) : list string := split_from O " " cmd.

Definition disk_env : Env DiskFS := {|
  SNIPPET_CONTEXT_WINDOW := 4;
  maybe_truncate text := text;
  run_shell_cmd fs cmd :=
    match words cmd with
    | "find" :: dir :: "-delete" :: _ =>
        (0, "", "",
         mkDisk (mkPlainFS (filter (λ kv, String.prefix (dir +:+ "/") kv.1 = false)
                                   (pfs_files (disk_fs fs)))
                           (pfs_dirs (disk_fs fs)))
                (writes_left fs))
    | _ => (0, "", "", fs)
    end;
  path_read_text fs path := path_read_text plain_env (disk_fs fs) path;
  path_write_text fs path text :=
    match writes_left fs with
    | S n => (mkDisk (path_write_text plain_env (disk_fs fs) path text).1 n, None)
    | O =>
        (mkDisk (path_write_text plain_env (disk_fs fs) path "").1 O,
         Some "[Errno 28] No space left on device")
    end;
  path_exists fs path := path_exists plain_env (disk_fs fs) path;
  path_is_dir fs path := path_is_dir plain_env (disk_fs fs) path;
  Path_of path := path;
  path_relative_to := path_relative_to plain_env;
  navigator_root := "/repo";
  str_ToolError message := message;
|}.

(* The test file on a disk with room for [n] writes. *)
Definition disk_editor (n : nat)
    : Editor.State (FS:=DiskFS) (TreeContext:=PlainContext) :=
  Editor.mkState ∅ (mkDisk test_fs n) plain_navigator.

(* A directory with a file, next to a directory whose name ends with an
   option of [find]. *)
Definition notes_fs : PlainFS :=
  mkPlainFS {[ "/tmp/x/notes.txt" := "keep me" ]}
            {[ "/tmp"; "/tmp/x"; "/tmp/x -delete" ]}.

Definition notes_editor : Editor.State (FS:=DiskFS) (TreeContext:=PlainContext) :=
  Editor.mkState ∅ (mkDisk notes_fs 1) plain_navigator.

(* A file in which a text of two lines occurs twice. *)
Definition twice_txt : string :=
  "a" +:+ LF +:+ "b" +:+ LF +:+ "a" +:+ LF +:+ "b".

Definition twice_editor : Editor.State (FS:=PlainFS) (TreeContext:=PlainContext) :=
  Editor.mkState ∅ (mkPlainFS {[ "/tmp/twice.txt" := twice_txt ]} {[ "/tmp" ]})
                 plain_navigator.

(* What a run of a method returned, when it did not raise, and what it
   raised, when it did. *)
Definition returned {A S : Type} (run : (Editor.Exn + A) * S) : option A :=
  match run.1 with inr a => Some a | inl _ => None end.

Definition raised {A S : Type} (run : (Editor.Exn + A) * S) : option Editor.Exn :=
  match run.1 with inl e => Some e | inr _ => None end.

(** * Properties *)

(** ** Sorting *)

Section SortBy.
Context {A : Type} (leb : A → A → bool).
Hypothesis leb_total : ∀ x y, leb x y = true ∨ leb y x = true.

Lemma insert_by_Permutation x l : insert_by leb x l ≡ₚ x :: l.
Proof.
  induction l as [|y l IH]; simpl; [done|].
  destruct (leb x y); [done|].
  rewrite IH. apply Permutation_swap.
Qed.

Lemma sort_by_Permutation l : sort_by leb l ≡ₚ l.
Proof.
  induction l as [|x l IH]; simpl; [done|].
  by rewrite insert_by_Permutation, IH.
Qed.

Lemma insert_by_Sorted x l :
  Sorted (λ a b, leb a b = true) l →
  Sorted (λ a b, leb a b = true) (insert_by leb x l).
Proof using leb_total.
  induction 1 as [|y l Hs IH Hhd]; simpl.
  - by repeat constructor.
  - destruct (leb x y) eqn:Hxy.
    + constructor; [by constructor|by constructor].
    + constructor; [done|].
      destruct Hhd as [|z l Hyz]; simpl.
      * constructor. by destruct (leb_total x y) as [?|?]; [congruence|].
      * destruct (leb x z); constructor; [|done].
        by destruct (leb_total x y) as [?|?]; [congruence|].
Qed.

Lemma sort_by_Sorted l : Sorted (λ a b, leb a b = true) (sort_by leb l).
Proof using leb_total.
  induction l as [|x l IH]; simpl; [constructor|].
  by apply insert_by_Sorted.
Qed.

Lemma sort_by_elem_of x l : x ∈ sort_by leb l ↔ x ∈ l.
Proof. by rewrite sort_by_Permutation. Qed.
End SortBy.

Lemma string_compare_refl s : String.compare s s = Eq.
Proof.
  induction s as [|c s IH]; simpl; [done|].
  unfold Ascii.compare. by rewrite N.compare_refl.
Qed.

Lemma string_compare_Eq s1 s2 : String.compare s1 s2 = Eq ↔ s1 = s2.
Proof.
  split; [apply String.compare_eq_iff|intros ->; apply string_compare_refl].
Qed.

Lemma string_le_compare s1 s2 : String.le s1 s2 ↔ String.compare s1 s2 ≠ Gt.
Proof.
  unfold String.le, String.leb. destruct (String.compare s1 s2); naive_solver.
Qed.

Lemma tag_key_leb_le t1 t2 : tag_key_leb t1 t2 = true ↔ tag_key_le t1 t2.
Proof.
  unfold tag_key_leb, tag_key_le. rewrite string_le_compare.
  destruct (String.compare (rel_path t1) (rel_path t2)) eqn:Hc.
  - rewrite Z.leb_le. apply string_compare_Eq in Hc.
    split; [intros ?; split; [done|done]|intros [_ H]; auto].
  - split; [|done]. intros _. split; [done|].
    intros Heq. apply string_compare_Eq in Heq. congruence.
  - split; [done|]. by intros [? _].
Qed.

Lemma tag_key_leb_total t1 t2 : tag_key_leb t1 t2 = true ∨ tag_key_leb t2 t1 = true.
Proof.
  unfold tag_key_leb. rewrite (String.compare_antisym (rel_path t2)).
  destruct (String.compare (rel_path t1) (rel_path t2)); simpl; auto.
  rewrite !Z.leb_le. lia.
Qed.

#[global] Instance tag_key_le_trans : Transitive tag_key_le.
Proof.
  intros t1 t2 t3 [H12 H12'] [H23 H23']. split; [by etrans|].
  intros Heq. rewrite Heq in H12.
  assert (rel_path t2 = rel_path t3) as E23 by (by apply (anti_symm String.le)).
  assert (rel_path t1 = rel_path t2) as E12 by congruence.
  specialize (H12' E12). specialize (H23' E23). lia.
Qed.

Lemma Sorted_weaken {A : Type} (R1 R2 : relation A) (l : list A) :
  (∀ x y, R1 x y → R2 x y) → Sorted R1 l → Sorted R2 l.
Proof.
  intros HR. induction 1 as [|x l _ IH Hhd]; constructor; [done|].
  destruct Hhd; constructor; auto.
Qed.

Lemma sorted_tags_StronglySorted (l : list ParsedTag) :
  StronglySorted tag_key_le (sort_by tag_key_leb l).
Proof.
  apply Sorted_StronglySorted; [apply _|].
  eapply Sorted_weaken; [|apply sort_by_Sorted, tag_key_leb_total].
  intros ??. apply tag_key_leb_le.
Qed.

(** ** Strings *)

Lemma prefix_spec p s : String.prefix p s = true ↔ ∃ t, s = p +:+ t.
Proof.
  revert s. induction p as [|a p IH]; intros s; simpl.
  - destruct s; split; eauto.
  - destruct s as [|b s]; [split; [done|by intros [? ?]]|].
    simpl. destruct (ascii_dec a b) as [->|Hne].
    + rewrite IH. split; intros [t Ht]; exists t.
      * by rewrite Ht.
      * by injection Ht.
    + split; [done|]. intros [t Ht]. injection Ht as ??. done.
Qed.

Lemma str_contains_spec needle hay :
  str_contains needle hay = true ↔ is_substring needle hay.
Proof.
  unfold is_substring. induction hay as [|c hay IH].
  - change (str_contains needle "") with (String.prefix needle "" || false).
    rewrite orb_false_r, prefix_spec. split.
    + intros [t Ht]. by exists "", t.
    + intros [[|??] [post Hp]]; [by exists post|done].
  - change (str_contains needle (String c hay))
      with (String.prefix needle (String c hay) || str_contains needle hay).
    rewrite orb_true_iff, prefix_spec, IH. split.
    + intros [[t Ht]|(pre & post & Hp)].
      * by exists "", t.
      * exists (String c pre), post. simpl. by rewrite Hp.
    + intros ([|c' pre] & post & Hp); simpl in Hp.
      * left. by exists post.
      * right. exists pre, post. by injection Hp.
Qed.

Lemma str_app_assoc (s1 s2 s3 : string) : (s1 +:+ s2) +:+ s3 = s1 +:+ s2 +:+ s3.
Proof.
  induction s1 as [|c s1 IH]; [done|].
  change (String c ((s1 +:+ s2) +:+ s3) = String c (s1 +:+ s2 +:+ s3)).
  by rewrite IH.
Qed.

Lemma length_str_take n s : (String.length (str_take n s) ≤ n)%nat.
Proof.
  revert s. induction n as [|n IH]; intros [|c s]; simpl; try lia.
  specialize (IH s). lia.
Qed.

Lemma lines_lf_nonempty s : lines_lf s ≠ [].
Proof.
  destruct s as [|c s]; simpl; [done|].
  destruct (is_LF c); [done|]. by destruct (lines_lf s).
Qed.

Lemma lines_lf_app_LF s t : lines_lf (s +:+ LF +:+ t) = lines_lf s ++ lines_lf t.
Proof.
  induction s as [|c s IH]; [done|].
  change (String c s +:+ LF +:+ t) with (String c (s +:+ LF +:+ t)).
  simpl. rewrite IH. destruct (is_LF c); [done|].
  pose proof (lines_lf_nonempty s). by destruct (lines_lf s).
Qed.

Lemma lines_lf_length s :
  Forall (λ line, (String.length line ≤ String.length s)%nat) (lines_lf s).
Proof.
  induction s as [|c s IH]; simpl; [by repeat constructor|].
  destruct (is_LF c).
  - constructor; [simpl; lia|]. eapply Forall_impl; [done|]. simpl. lia.
  - pose proof (lines_lf_nonempty s).
    destruct (lines_lf s) as [|line lines]; [done|].
    apply Forall_cons in IH as [??]. constructor; [simpl; lia|].
    eapply Forall_impl; [done|]. simpl. lia.
Qed.

Lemma all_lines_short_join (parts : list string) :
  Forall (λ part, (String.length part ≤ 150)%nat) parts →
  all_lines_short (str_join LF parts).
Proof.
  unfold all_lines_short, str_join.
  induction 1 as [|x parts Hx _ IH]; simpl; [by repeat constructor|].
  destruct parts as [|y parts].
  - eapply Forall_impl; [apply lines_lf_length|]. simpl. lia.
  - rewrite lines_lf_app_LF. apply Forall_app. split; [|done].
    eapply Forall_impl; [apply lines_lf_length|]. simpl. lia.
Qed.

Lemma all_lines_short_truncate text : all_lines_short (truncate_lines text).
Proof.
  apply all_lines_short_join, Forall_fmap, Forall_true.
  intros line. apply length_str_take.
Qed.

(** ** Building the index *)

Lemma scan_files_all_ok w files idx :
  Forall (extraction_ok w) files →
  scan_files w files idx = Ok (scan_files_skipping w files idx).
Proof.
  intros Hok. revert idx.
  induction Hok as [|abs_file rest [tags Htags] _ IH]; intros idx; simpl; [done|].
  rewrite Htags. simpl. apply IH.
Qed.

Lemma scan_files_first_failure w before abs_file after msg idx :
  Forall (extraction_ok w) before →
  get_tags_from_file w abs_file (get_relative_path_str w abs_file) = Raise msg →
  scan_files w (before ++ abs_file :: after) idx = Raise msg.
Proof.
  intros Hok Hfail. revert idx.
  induction Hok as [|f rest [tags Htags] _ IH]; intros idx; simpl.
  - by rewrite Hfail.
  - rewrite Htags. simpl. apply IH.
Qed.

Section Queries.

Context {TreeContext : Type} `{!TreeContextOps TreeContext}.
Implicit Types (st : NavState TreeContext) (w : World).

(** Without tags the answer is the header and an empty line; nothing else is
    said. *)
Lemma get_definitions_tree_no_tags w symbol rel_file_path use_end_line st idx :
  get_parsed_tags w None None = Ok idx →
  collect_def_tags idx symbol rel_file_path = ∅ →
  get_definitions_tree w symbol rel_file_path use_end_line st
  = Ok (definitions_header symbol +:+ LF, st).
Proof.
  intros Hidx Hnone. unfold get_definitions_tree. rewrite Hidx. simpl.
  by rewrite Hnone, elements_empty.
Qed.

Lemma get_references_tree_no_tags w symbol st idx :
  get_parsed_tags w None None = Ok idx →
  collect_ref_tags idx symbol = ∅ →
  get_references_tree w symbol st = Ok (references_header symbol +:+ LF, st).
Proof.
  intros Hidx Hnone. unfold get_references_tree. rewrite Hidx. simpl.
  by rewrite Hnone, elements_empty.
Qed.

(** An exception of the file listing leaves both queries. *)
Lemma queries_propagate_listing_failure w msg symbol rel_file_path use_end_line st :
  get_all_absolute_tracked_files w None = Raise msg →
  get_definitions_tree w symbol rel_file_path use_end_line st = Raise msg ∧
  get_references_tree w symbol st = Raise msg.
Proof.
  intros Hfail. unfold get_definitions_tree, get_references_tree, get_parsed_tags.
  simpl. by rewrite Hfail.
Qed.

End Queries.

(** ** Sections of a sorted tag list *)

Lemma string_le_empty s : String.le "" s.
Proof. by destruct s. Qed.

Lemma tag_key_sorted_rel_sorted tags :
  StronglySorted tag_key_le tags → StronglySorted rel_le tags.
Proof.
  induction 1 as [|t tags _ IH Hall]; constructor; [done|].
  eapply Forall_impl; [done|]. by intros ? [? _].
Qed.

Lemma closed_sections_head uel rel_file abs_file ls tags sec secs :
  closed_sections uel rel_file abs_file ls tags = sec :: secs → sec_rel sec = rel_file.
Proof.
  revert ls. induction tags as [|t tags IH]; intros ls; simpl; [done|].
  case_bool_decide; [|by apply IH]. by intros [= <- _].
Qed.

Lemma closed_sections_rel uel rel_file abs_file ls tags sec :
  sec ∈ closed_sections uel rel_file abs_file ls (tags ++ [dummy_tag]) →
  sec_rel sec = rel_file ∨ ∃ t, t ∈ tags ∧ rel_path t = sec_rel sec.
Proof.
  revert rel_file abs_file ls.
  induction tags as [|t tags IH]; intros rel_file abs_file ls; simpl.
  - case_bool_decide; [|by intros ?%elem_of_nil].
    intros ->%list_elem_of_singleton. by left.
  - case_bool_decide.
    + intros [->|Hin]%elem_of_cons; [by left|].
      right. apply IH in Hin as [Hr|(t' & ? & ?)].
      * exists t. split; [left|done].
      * exists t'. split; [by right|done].
    + intros Hin. apply IH in Hin as [Hr|(t' & ? & ?)]; [by left|].
      right. exists t'. split; [by right|done].
Qed.

Lemma closed_sections_Sorted uel rel_file abs_file ls tags :
  StronglySorted rel_le tags →
  Forall (λ t, String.le rel_file (rel_path t)) tags →
  Sorted (strict String.le)
         (sec_rel <$> closed_sections uel rel_file abs_file ls (tags ++ [dummy_tag])).
Proof.
  intros Hs. revert rel_file abs_file ls.
  induction Hs as [|t tags _ IH Hall]; intros rel_file abs_file ls Hge; simpl.
  - case_bool_decide; repeat constructor.
  - apply Forall_cons in Hge as [Hle Hge]. case_bool_decide as Hne.
    + simpl. constructor; [by apply IH|].
      destruct (closed_sections uel (rel_path t) (abs_path t) (tag_lois uel t)
                  (tags ++ [dummy_tag])) as [|sec secs] eqn:Hsecs; [constructor|].
      apply closed_sections_head in Hsecs. simpl. constructor.
      rewrite Hsecs. apply (proj2 (strict_spec_alt (R:=String.le) _ _)).
      split; [done|]. unfold sec_rel. simpl. congruence.
    + by apply IH.
Qed.

Lemma file_sections_StronglySorted uel tags :
  StronglySorted tag_key_le tags →
  StronglySorted (strict String.le) (sec_rel <$> file_sections uel tags).
Proof.
  intros Hs%tag_key_sorted_rel_sorted.
  apply Sorted_StronglySorted; [apply _|].
  apply closed_sections_Sorted; [done|].
  apply Forall_true. intros t. apply string_le_empty.
Qed.

Lemma StronglySorted_NoDup {A : Type} (R : relation A) `{!Irreflexive R} (l : list A) :
  StronglySorted R l → NoDup l.
Proof.
  induction 1 as [|x l _ IH Hall]; constructor; [|done].
  intros Hin. rewrite Forall_forall in Hall. by apply (irreflexivity R x), Hall.
Qed.

Lemma closed_sections_lois uel rel_file abs_file ls tags sec n :
  StronglySorted rel_le tags →
  Forall (λ t, String.le rel_file (rel_path t)) tags →
  sec ∈ closed_sections uel rel_file abs_file ls (tags ++ [dummy_tag]) →
  n ∈ sec_lois sec ↔
  (sec_rel sec = rel_file ∧ n ∈ ls) ∨
  (∃ t, t ∈ tags ∧ rel_path t = sec_rel sec ∧ n ∈ tag_lois uel t).
Proof.
  intros Hs. revert rel_file abs_file ls.
  induction Hs as [|t tags Hs IH Hall]; intros rel_file abs_file ls Hge; simpl.
  - case_bool_decide; [|by intros ?%elem_of_nil].
    intros ->%list_elem_of_singleton. simpl. split; [by left; split|].
    intros [[_ ?]|(t & ?%elem_of_nil & _)]; done.
  - apply Forall_cons in Hge as [Hle Hge]. rewrite Forall_forall in Hall.
    case_bool_decide as Hne.
    + intros [->|Hin]%elem_of_cons.
      * simpl. split; [by left; split|]. intros [[_ ?]|(t' & Hin' & Hrel & _)]; [done|].
        exfalso. apply Hne. apply (anti_symm String.le); [|done].
        unfold sec_rel in Hrel. simpl in Hrel. rewrite <- Hrel.
        apply elem_of_cons in Hin' as [->|Hin']; [done|by apply Hall].
      * assert (sec_rel sec ≠ rel_file) as Hsec.
        { intros Heq. apply Hne. apply (anti_symm String.le); [|done].
          rewrite <- Heq.
          apply closed_sections_rel in Hin as [->|(t' & Hin' & <-)]; [done|].
          by apply Hall. }
        assert (Forall (λ t', String.le (rel_path t) (rel_path t')) tags) as Hge'.
        { apply Forall_forall. intros t' Hin'. by apply Hall. }
        rewrite (IH _ _ _ Hge' Hin).
        split.
        -- intros [[Hr Hn]|(t' & Hin' & Hr & Hn)]; right.
           ++ exists t. split; [left|done].
           ++ exists t'. split; [by right|done].
        -- intros [[? _]|(t' & Hin' & Hr & Hn)]; [done|].
           apply elem_of_cons in Hin' as [->|Hin']; [by left|].
           right. exists t'. done.
    + intros Hin.
      rewrite (IH _ _ _ Hge Hin).
      rewrite elem_of_app. split.
      * intros [[Hr [Hn|Hn]]|(t' & Hin' & Hr & Hn)].
        -- by left.
        -- right. exists t. split; [left|]. split; [congruence|done].
        -- right. exists t'. split; [by right|done].
      * intros [[Hr Hn]|(t' & Hin' & Hr & Hn)]; [left; split; [done|by left]|].
        apply elem_of_cons in Hin' as [->|Hin'].
        -- left. split; [congruence|by right].
        -- right. exists t'. done.
Qed.

Lemma file_sections_lois uel tags sec n :
  StronglySorted tag_key_le tags →
  sec ∈ file_sections uel tags →
  n ∈ sec_lois sec ↔ ∃ t, t ∈ tags ∧ rel_path t = sec_rel sec ∧ n ∈ tag_lois uel t.
Proof.
  intros Hs%tag_key_sorted_rel_sorted Hin.
  assert (Forall (λ t, String.le "" (rel_path t)) tags) as Hge.
  { apply Forall_true. intros t. apply string_le_empty. }
  rewrite (closed_sections_lois _ _ _ _ _ _ _ Hs Hge Hin).
  split; [|by right]. by intros [[_ ?%elem_of_nil]|?].
Qed.

Lemma elem_of_tag_lois_range t n :
  n ∈ tag_lois true t ↔ start_line t ≤ n ≤ end_line t.
Proof. unfold tag_lois. rewrite elem_of_seqZ. lia. Qed.

Lemma elem_of_tag_lois_start t n : n ∈ tag_lois false t ↔ n = start_line t.
Proof. unfold tag_lois. apply list_elem_of_singleton. Qed.

(** ** The loop of [tag_list_to_tree] writes the file sections in order *)

Section Loop.

Context {TreeContext : Type} `{!TreeContextOps TreeContext}.
Implicit Types (st : NavState TreeContext) (s : LoopState TreeContext) (w : World).

Lemma flush_lois w s : lois (flush w s) = [].
Proof.
  unfold flush. destruct (lois s) eqn:Hl.
  - by destruct (cur_rel_file s).
  - by destruct (render_tree _ _ _ _ _).
Qed.

Lemma foldl_tag_step_sections w uel tags s :
  render_sections w
    (closed_sections uel (cur_rel_file s) (cur_abs_file s) (lois s) tags)
    (output s) (nav s)
  = (output (foldl (tag_step w uel) s tags), nav (foldl (tag_step w uel) s tags)).
Proof.
  revert s. induction tags as [|t tags IH]; intros s; simpl; [done|].
  rewrite <- IH. unfold tag_step. case_bool_decide; simpl.
  - rewrite flush_lois. by destruct s.
  - done.
Qed.

Lemma tag_list_to_tree_sections w tags uel st :
  tag_list_to_tree w tags uel st
  = let '(out, st') := render_sections w (file_sections uel tags) "" st in
    (truncate_lines out, st').
Proof.
  destruct tags as [|t tags]; [done|].
  unfold tag_list_to_tree, file_sections.
  by rewrite (foldl_tag_step_sections w uel _ (mkLoop "" "" [] "" st)).
Qed.

End Loop.

(** ** The render cache *)

Section RenderCache.

Context {TreeContext : Type} `{!TreeContextOps TreeContext}.
Implicit Types (st : NavState TreeContext) (s : LoopState TreeContext) (w : World).

Lemma render_tree_hit w abs_file rel_file ls st res :
  rendered_tree_cache st !! tree_cache_key w abs_file rel_file ls = Some res →
  render_tree w abs_file rel_file ls st = (res, st).
Proof. unfold render_tree, tree_cache_key. by intros ->. Qed.

(* What a call computes when the rendered-tree cache has no entry for it and
   the context of the file is missing or older than the file. *)
Lemma render_tree_fresh w abs_file rel_file ls st :
  rendered_tree_cache st !! tree_cache_key w abs_file rel_file ls = None →
  (∀ context m, file_context_cache st !! rel_file = Some (context, m) →
                m < get_modified_time w abs_file) →
  let context := render_with ls (new_TreeContext rel_file (code_of w abs_file)) in
  render_tree w abs_file rel_file ls st
  = (format context,
     mkNav (<[rel_file := (context, get_modified_time w abs_file)]>
              (file_context_cache st))
           (<[tree_cache_key w abs_file rel_file ls := format context]>
              (rendered_tree_cache st))
           (read_log st ++ [abs_file])).
Proof.
  unfold render_tree, tree_cache_key. intros -> Hold.
  destruct (file_context_cache st !! rel_file) as [[context m]|] eqn:Hctx; [|done].
  specialize (Hold _ _ eq_refl). apply Z.ltb_lt in Hold. by rewrite Hold.
Qed.

Lemma render_tree_stores w abs_file rel_file ls st :
  rendered_tree_cache (render_tree w abs_file rel_file ls st).2
    !! tree_cache_key w abs_file rel_file ls
  = Some (render_tree w abs_file rel_file ls st).1.
Proof.
  unfold render_tree, tree_cache_key.
  destruct (rendered_tree_cache st !! _) eqn:Hhit; simpl; [done|].
  destruct (file_context_cache st !! rel_file) as [[context m]|];
    [destruct (m <? _)|]; simpl; apply lookup_insert_eq.
Qed.

Lemma render_tree_mono w abs_file rel_file ls st :
  rendered_tree_cache st ⊆ rendered_tree_cache (render_tree w abs_file rel_file ls st).2.
Proof.
  unfold render_tree.
  destruct (rendered_tree_cache st !! _) eqn:Hhit; simpl; [done|].
  destruct (file_context_cache st !! rel_file) as [[context m]|];
    [destruct (m <? _)|]; simpl; by apply insert_subseteq.
Qed.

Lemma flush_mono w s :
  rendered_tree_cache (nav s) ⊆ rendered_tree_cache (nav (flush w s)).
Proof.
  unfold flush. destruct (lois s) eqn:Hl.
  - by destruct (cur_rel_file s).
  - pose proof (render_tree_mono w (cur_abs_file s) (cur_rel_file s) (lois s) (nav s)).
    rewrite <- Hl. by destruct (render_tree _ _ _ _ _).
Qed.

Lemma render_sections_mono w sections out st :
  rendered_tree_cache st ⊆ rendered_tree_cache (render_sections w sections out st).2.
Proof.
  revert out st. induction sections as [|[[rel_file abs_file] ls] rest IH];
    intros out st; simpl; [done|].
  etrans; [|apply IH]. apply (flush_mono w (mkLoop rel_file abs_file ls out st)).
Qed.

(* A section that was written once is written again from the cache alone:
   same text, no change of the state. *)
Lemma flush_replay w1 w2 rel_file abs_file ls out st stF :
  (∀ a, get_modified_time w1 a = get_modified_time w2 a) →
  rendered_tree_cache (nav (flush w1 (mkLoop rel_file abs_file ls out st)))
    ⊆ rendered_tree_cache stF →
  flush w2 (mkLoop rel_file abs_file ls out stF)
  = mkLoop (cur_rel_file (flush w1 (mkLoop rel_file abs_file ls out st)))
           (cur_abs_file (flush w1 (mkLoop rel_file abs_file ls out st)))
           (lois (flush w1 (mkLoop rel_file abs_file ls out st)))
           (output (flush w1 (mkLoop rel_file abs_file ls out st)))
           stF.
Proof.
  intros Hmtime. unfold flush. simpl. destruct ls as [|l ls]; simpl.
  - by destruct rel_file.
  - intros Hsub.
    pose proof (render_tree_stores w1 abs_file rel_file (l :: ls) st) as Hst.
    destruct (render_tree w1 _ _ _ st) as [res st1]. simpl in *.
    rewrite (render_tree_hit w2 _ _ _ stF res); [done|].
    eapply lookup_weaken; [|done].
    unfold tree_cache_key in *. by rewrite <- Hmtime.
Qed.

Lemma render_sections_replay w1 w2 sections out st stF :
  (∀ a, get_modified_time w1 a = get_modified_time w2 a) →
  rendered_tree_cache (render_sections w1 sections out st).2 ⊆ rendered_tree_cache stF →
  render_sections w2 sections out stF = ((render_sections w1 sections out st).1, stF).
Proof.
  intros Hmtime. revert out st.
  induction sections as [|[[rel_file abs_file] ls] rest IH]; intros out st; simpl;
    [done|].
  intros Hsub. rewrite (flush_replay w1 w2 _ _ _ _ st); [|done|].
  - simpl. by apply IH.
  - etrans; [|done]. apply render_sections_mono.
Qed.

Lemma get_parsed_tags_unchanged w1 w2 :
  unchanged_tree w1 w2 → get_parsed_tags w1 None None = get_parsed_tags w2 None None.
Proof.
  intros (Hlist & Hrel & Htags & _). unfold get_parsed_tags. simpl. rewrite Hlist.
  destruct (get_all_absolute_tracked_files w2 None) as [files|msg]; simpl; [|done].
  clear Hlist. generalize empty_index.
  induction files as [|f files IH]; intros idx; simpl; [done|].
  rewrite Hrel, Htags. destruct (get_tags_from_file w2 _ _); simpl; [apply IH|done].
Qed.

(** *** Entries of the caches and the modification times seen so far *)

Lemma new_navigator_cache_at_most rel_file mtime :
  cache_at_most rel_file mtime (new_navigator (TreeContext:=TreeContext)).
Proof. split; intros *; simpl; by rewrite lookup_empty. Qed.

Lemma render_tree_cache_at_most w abs_file rel_file ls st rel mtime :
  cache_at_most rel mtime st →
  (rel_file = rel → get_modified_time w abs_file ≤ mtime) →
  cache_at_most rel mtime (render_tree w abs_file rel_file ls st).2.
Proof.
  intros [Hrend Hctx] Hle. unfold render_tree.
  destruct (rendered_tree_cache st !! _) eqn:Hhit; simpl; [done|].
  assert (∀ (c : TreeContext) m0 reads',
    (m0 ≤ mtime ∨ rel_file ≠ rel) →
    cache_at_most rel mtime
      (mkNav (<[rel_file := (c, m0)]> (file_context_cache st))
             (<[(rel_file, sort_by Z.leb ls, get_modified_time w abs_file)
                := format c]> (rendered_tree_cache st))
             reads')) as Hins.
  { intros c m0 reads' Hm0. split; simpl.
    - intros ls' m res. rewrite lookup_insert. case_decide as Hk.
      + injection Hk as -> _ <-. intros _. by apply Hle.
      + apply Hrend.
    - intros c' m. rewrite lookup_insert. case_decide as Hk.
      + intros [= _ <-]. destruct Hm0; [done|congruence].
      + apply Hctx. }
  destruct (file_context_cache st !! rel_file) as [[context m]|] eqn:Hc.
  - destruct (m <? get_modified_time w abs_file); simpl; apply Hins.
    + destruct (decide (rel_file = rel)) as [Heq|?]; [left; by apply Hle|by right].
    + destruct (decide (rel_file = rel)) as [<-|?]; [left; by eapply Hctx|by right].
  - simpl. apply Hins.
    destruct (decide (rel_file = rel)) as [Heq|?]; [left; by apply Hle|by right].
Qed.

Lemma run_renders_cache_at_most calls st rel mtime :
  cache_at_most rel mtime st →
  Forall (λ '(w, abs_file, rel_file, _),
            rel_file = rel → get_modified_time w abs_file ≤ mtime) calls →
  cache_at_most rel mtime (run_renders calls st).
Proof.
  intros Hst Hcalls. revert st Hst.
  induction Hcalls as [|[[[w abs_file] rel_file] ls] calls Hle _ IH]; intros st Hst;
    simpl; [done|].
  apply IH. by apply render_tree_cache_at_most.
Qed.

End RenderCache.

(** ** The tags of a symbol *)

Lemma collect_def_tags_empty_symbol idx rel_file_path :
  collect_def_tags idx "" rel_file_path = ∅.
Proof. done. Qed.

Lemma elem_of_collect_def_tags idx symbol rel_file_path tag :
  symbol ≠ "" →
  tag ∈ collect_def_tags idx symbol rel_file_path ↔
  ∃ def_rel,
    def_rel ∈ default ∅ (ident2defrels idx !! symbol) ∧
    (∀ f, rel_file_path = Some f → str_contains f def_rel = true) ∧
    tag ∈ default ∅ (identwrel2deftags idx !! (def_rel, symbol)).
Proof.
  intros Hsym. unfold collect_def_tags.
  destruct symbol as [|c symbol]; [done|]. clear Hsym.
  generalize (default ∅ (ident2defrels idx !! String c symbol)).
  apply (set_fold_ind_L (λ (acc : gset ParsedTag) (X : gset string),
    tag ∈ acc ↔
    ∃ def_rel, def_rel ∈ X ∧
      (∀ f, rel_file_path = Some f → str_contains f def_rel = true) ∧
      tag ∈ default ∅ (identwrel2deftags idx !! (def_rel, String c symbol)))).
  - split; [by intros ?%not_elem_of_empty|].
    by intros (? & ?%not_elem_of_empty & _).
  - intros def_rel X acc Hfresh IH.
    assert (∀ P : string → Prop,
      (∃ r, r ∈ {[def_rel]} ∪ X ∧ P r) ↔ P def_rel ∨ ∃ r, r ∈ X ∧ P r) as Hex.
    { intros P. split.
      - intros (r & [->%elem_of_singleton|?]%elem_of_union & ?); eauto.
      - intros [?|(r & ? & ?)]; [exists def_rel|exists r];
          (split; [|done]); apply elem_of_union; [left|by right].
        by apply elem_of_singleton. }
    rewrite (Hex (λ r, _ ∧ _)), <- IH.
    destruct rel_file_path as [f|].
    + destruct (str_contains f def_rel) eqn:Hf; simpl.
      * rewrite elem_of_union. split.
        -- intros [?|?]; [by right|left]. split; [|done]. by intros ? [= <-].
        -- intros [[_ ?]|?]; [by right|by left].
      * split; [by right|]. intros [[Hc _]|?]; [|done].
        specialize (Hc f eq_refl). congruence.
    + rewrite elem_of_union. split.
      * intros [?|?]; [by right|left]. split; [|done]. by intros ? [=].
      * intros [[_ ?]|?]; [by right|by left].
Qed.

Lemma StronglySorted_lookup_le {A : Type} (R : relation A) `{!Reflexive R}
    (l : list A) (i j : nat) (x y : A) :
  StronglySorted R l → (i ≤ j)%nat → l !! i = Some x → l !! j = Some y → R x y.
Proof.
  intros Hs. revert i j. induction Hs as [|z l _ IH Hall]; intros i j Hij Hi Hj.
  - by rewrite lookup_nil in Hi.
  - destruct i as [|i], j as [|j]; simpl in *; simplify_eq.
    + reflexivity.
    + rewrite Forall_forall in Hall. by eapply Hall, list_elem_of_lookup_2.
    + lia.
    + eapply (IH i j); [lia|done..].
Qed.

#[global] Instance rel_le_refl : Reflexive rel_le.
Proof. intros t. unfold rel_le. reflexivity. Qed.

(** * The claims *)

(** ** The answer, section by section *)

Lemma str_app_empty_r (s : string) : s +:+ "" = s.
Proof.
  induction s as [|c s IH]; [done|].
  change (String c s +:+ "") with (String c (s +:+ "")). by rewrite IH.
Qed.

(** * Further properties of [tag_list_to_tree] *)

Lemma chars_app s1 s2 : chars (s1 +:+ s2) = chars s1 ++ chars s2.
Proof.
  unfold chars. induction s1 as [|c s1 IH]; [done|].
  change (String c s1 +:+ s2) with (String c (s1 +:+ s2)). simpl. by rewrite IH.
Qed.

Lemma splitlines_no_linebreak s :
  Forall (λ line, Forall (λ c, is_linebreak c = false) (chars line)) (splitlines s).
Proof.
  assert (∀ n s, (String.length s ≤ n)%nat →
    Forall (λ line, Forall (λ c, is_linebreak c = false) (chars line)) (splitlines s))
    as Hgen; [|by apply (Hgen (String.length s))].
  clear s. induction n as [|n IH]; intros [|c rest] Hlen; simpl in *;
    try (by constructor); [lia|].
  destruct (is_linebreak c) eqn:Hc.
  - destruct rest as [|c' rest']; [by repeat constructor|]. simpl in Hlen.
    destruct (is_CR c && is_LF c').
    + constructor; [constructor|]. apply IH. lia.
    + constructor; [constructor|]. apply IH. simpl. lia.
  - assert (String.length rest ≤ n)%nat as Hrest by lia.
    specialize (IH rest Hrest). destruct (splitlines rest) as [|line lines].
    + by repeat constructor.
    + apply Forall_cons in IH as [Hline Hlines].
      constructor; [|done]. by constructor.
Qed.

Lemma str_take_chars (P : ascii → Prop) n s :
  Forall P (chars s) → Forall P (chars (str_take n s)).
Proof.
  revert s. induction n as [|n IH]; intros [|c s]; simpl; try (by constructor).
  intros [??]%Forall_cons. constructor; [done|]. by apply IH.
Qed.

Lemma lines_lf_single s : Forall (λ c, is_LF c = false) (chars s) → lines_lf s = [s].
Proof.
  induction s as [|c s IH]; [done|]. simpl.
  intros [-> Hs]%Forall_cons. by rewrite IH.
Qed.

(* Joining lines that hold no line feed and splitting again gives the lines
   back. *)
Lemma lines_lf_concat (ls : list string) :
  ls ≠ [] →
  Forall (λ line, Forall (λ c, is_LF c = false) (chars line)) ls →
  lines_lf (String.concat LF ls) = ls.
Proof.
  intros Hne Hls. induction Hls as [|x ls Hx Hls IH]; [done|]. simpl.
  destruct ls as [|y ls]; [by apply lines_lf_single|].
  rewrite lines_lf_app_LF, lines_lf_single, IH; done.
Qed.

Lemma concat_empty_cons (x : string) (l : list string) :
  String.concat "" (x :: l) = x +:+ String.concat "" l.
Proof. destruct l as [|y l]; simpl; [by rewrite str_app_empty_r|done]. Qed.

Lemma str_take_substring n s : str_take n s = String.substring 0 n s.
Proof. revert s. induction n as [|n IH]; intros [|c s]; simpl; try done. by rewrite IH. Qed.

Lemma truncate_lines_cut_lines text : truncate_lines text = cut_lines 150 text.
Proof.
  unfold truncate_lines, cut_lines, str_join. f_equal.
  apply list_fmap_ext. intros i line _. apply str_take_substring.
Qed.

Lemma splitlines_nonempty s : s ≠ "" → splitlines s ≠ [].
Proof.
  destruct s as [|c s]; [done|]. intros _. simpl. destruct (is_linebreak c).
  - destruct s as [|c' s']; [done|]. by destruct (is_CR c && is_LF c').
  - by destruct (splitlines s).
Qed.

(* The lines of a cut text are the lines of the text, each reduced to its
   first characters. *)
Lemma lines_lf_cut_lines n raw :
  raw ≠ "" → lines_lf (cut_lines n raw) = String.substring 0 n <$> splitlines raw.
Proof.
  intros Hraw. unfold cut_lines. apply lines_lf_concat.
  - intros Hnil%fmap_nil_inv. by apply (splitlines_nonempty raw).
  - apply Forall_fmap. eapply Forall_impl; [apply splitlines_no_linebreak|].
    intros line Hline. simpl. rewrite <- str_take_substring.
    apply str_take_chars. eapply Forall_impl; [exact Hline|].
    intros c Hc. simpl in *. unfold is_LF. destruct (Ascii.eqb c "010") eqn:Heq; [|done].
    apply Ascii.eqb_eq in Heq as ->. done.
Qed.

Lemma all_lines_short_cut_lines raw : all_lines_short (cut_lines 150 raw).
Proof. rewrite <- truncate_lines_cut_lines. apply all_lines_short_truncate. Qed.

Lemma closed_sections_current uel rel_file abs_file ls tags :
  rel_file ≠ "" →
  rel_file ∈ sec_rel <$> closed_sections uel rel_file abs_file ls (tags ++ [dummy_tag]).
Proof.
  intros Hne. revert ls. induction tags as [|t tags IH]; intros ls; simpl.
  - rewrite bool_decide_true by done. simpl. left.
  - case_bool_decide; [simpl; left|apply IH].
Qed.

(* Every tag with a relative path has a section of its file. *)
Lemma closed_sections_cover uel rel_file abs_file ls tags t :
  t ∈ tags → rel_path t ≠ "" →
  rel_path t ∈ sec_rel <$> closed_sections uel rel_file abs_file ls (tags ++ [dummy_tag]).
Proof.
  intros Hin Hne. revert rel_file abs_file ls.
  induction tags as [|t0 tags IH]; intros rel_file abs_file ls;
    [by apply elem_of_nil in Hin|].
  simpl. apply elem_of_cons in Hin as [->|Hin].
  - case_bool_decide as Hrel.
    + simpl. right. by apply closed_sections_current.
    + subst rel_file. by apply closed_sections_current.
  - case_bool_decide; [simpl; right|]; by apply IH.
Qed.

(* The absolute path of a section is the one of a tag of its file. *)
Lemma closed_sections_abs uel rel_file abs_file ls tags sec :
  sec ∈ closed_sections uel rel_file abs_file ls (tags ++ [dummy_tag]) →
  (sec_rel sec = rel_file ∧ sec_abs sec = abs_file) ∨
  ∃ t, t ∈ tags ∧ rel_path t = sec_rel sec ∧ abs_path t = sec_abs sec.
Proof.
  revert rel_file abs_file ls.
  induction tags as [|t tags IH]; intros rel_file abs_file ls; simpl.
  - case_bool_decide; [|by intros ?%elem_of_nil].
    intros ->%list_elem_of_singleton. by left.
  - case_bool_decide.
    + intros [->|Hin]%elem_of_cons; [by left|].
      right. apply IH in Hin as [[??]|(t' & ? & ? & ?)].
      * exists t. split; [left|done].
      * exists t'. split; [by right|done].
    + intros Hin. apply IH in Hin as [?|(t' & ? & ? & ?)]; [by left|].
      right. exists t'. split; [by right|done].
Qed.

(* The lines of a section, as a list: those of the tags of its file, in the
   order of the tags. *)
Lemma closed_sections_lois_list uel rel_file abs_file ls tags sec :
  StronglySorted rel_le tags →
  Forall (λ t, String.le rel_file (rel_path t)) tags →
  sec ∈ closed_sections uel rel_file abs_file ls (tags ++ [dummy_tag]) →
  sec_lois sec
  = (if decide (sec_rel sec = rel_file) then ls else [])
    ++ (filter (λ t, rel_path t = sec_rel sec) tags ≫= tag_lois uel).
Proof.
  intros Hs. revert rel_file abs_file ls.
  induction Hs as [|t tags Hs IH Hall]; intros rel_file abs_file ls Hge; simpl.
  - case_bool_decide; [|by intros ?%elem_of_nil].
    intros ->%list_elem_of_singleton. unfold sec_lois, sec_rel. simpl.
    rewrite decide_True by done. by rewrite app_nil_r.
  - apply Forall_cons in Hge as [Hle Hge]. rewrite Forall_forall in Hall.
    case_bool_decide as Hne.
    + intros [->|Hin]%elem_of_cons.
      * unfold sec_lois, sec_rel. simpl. rewrite decide_True by done.
        rewrite filter_cons_False by done.
        assert (filter (λ t0, rel_path t0 = rel_file) tags = []) as ->;
          [|by rewrite app_nil_r].
        apply elem_of_nil_inv. intros t' [Hrel Hin']%list_elem_of_filter.
        apply Hne. apply (anti_symm String.le); [|done].
        rewrite <- Hrel. by apply Hall.
      * assert (sec_rel sec ≠ rel_file) as Hsec.
        { intros Heq. apply Hne. apply (anti_symm String.le); [|done].
          rewrite <- Heq.
          apply closed_sections_rel in Hin as [->|(t' & Hin' & <-)]; [done|].
          by apply Hall. }
        assert (Forall (λ t', String.le (rel_path t) (rel_path t')) tags) as Hge'.
        { apply Forall_forall. intros t' Hin'. by apply Hall. }
        rewrite (IH _ _ _ Hge' Hin). rewrite (decide_False (P:=sec_rel sec = rel_file))
          by done.
        simpl. destruct (decide (sec_rel sec = rel_path t)) as [Heq|Hneq].
        -- rewrite filter_cons_True by done. done.
        -- rewrite filter_cons_False by done. done.
    + intros Hin. rewrite (IH _ _ _ Hge Hin).
      destruct (decide (sec_rel sec = rel_file)) as [Heq|Hneq].
      * rewrite filter_cons_True by congruence. simpl. by rewrite app_assoc.
      * rewrite filter_cons_False by congruence. done.
Qed.

Lemma file_sections_lois_list uel tags sec :
  StronglySorted tag_key_le tags →
  sec ∈ file_sections uel tags →
  sec_lois sec = filter (λ t, rel_path t = sec_rel sec) tags ≫= tag_lois uel.
Proof.
  intros Hs%tag_key_sorted_rel_sorted Hin.
  assert (Forall (λ t, String.le "" (rel_path t)) tags) as Hge.
  { apply Forall_true. intros t. apply string_le_empty. }
  rewrite (closed_sections_lois_list _ _ _ _ _ _ Hs Hge Hin).
  by destruct (decide _).
Qed.

Lemma file_sections_abs uel tags sec :
  sec ∈ file_sections uel tags →
  sec_rel sec ≠ "" →
  ∃ t, t ∈ tags ∧ rel_path t = sec_rel sec ∧ abs_path t = sec_abs sec.
Proof.
  intros Hin Hne. by apply closed_sections_abs in Hin as [[??]|?].
Qed.

Section AnswerTextsProperties.

Context {TreeContext : Type} `{!TreeContextOps TreeContext}.
Implicit Types (st : NavState TreeContext) (w : World).

Lemma render_sections_texts w sections out st :
  render_sections w sections out st
  = (out +:+ String.concat "" (section_texts w sections st).1,
     (section_texts w sections st).2).
Proof.
  revert out st. induction sections as [|[[rel_file abs_file] ls] rest IH];
    intros out st.
  - simpl. by rewrite str_app_empty_r.
  - cbn [render_sections section_texts]. unfold flush, sec_lois, sec_abs, sec_rel.
    simpl. destruct ls as [|l ls]; simpl.
    + destruct (section_texts w rest st) as [texts st'] eqn:Hrest.
      cbn [fst snd]. rewrite concat_empty_cons. unfold bare_section_header, sec_rel.
      destruct rel_file as [|c rel_file]; cbn [fst snd output nav]; rewrite IH, Hrest;
        cbn [fst snd]; [done|].
      by rewrite !str_app_assoc.
    + destruct (render_tree w abs_file rel_file (l :: ls) st) as [res st1].
      cbn [fst snd output nav]. rewrite IH.
      destruct (section_texts w rest st1) as [texts st'].
      cbn [fst snd]. rewrite concat_empty_cons. by rewrite !str_app_assoc.
Qed.

Lemma tag_list_to_tree_texts w tags uel st :
  tag_list_to_tree w tags uel st
  = (cut_lines 150 (String.concat "" (section_texts w (file_sections uel tags) st).1),
     (section_texts w (file_sections uel tags) st).2).
Proof.
  rewrite tag_list_to_tree_sections, render_sections_texts. simpl.
  by rewrite truncate_lines_cut_lines.
Qed.

Lemma ask_texts w q st idx :
  get_parsed_tags w None None = Ok idx →
  ask w q st
  = Ok (query_header q
        +:+ cut_lines 150 (String.concat "" (section_texts w (query_sections idx q) st).1)
        +:+ LF,
        (section_texts w (query_sections idx q) st).2).
Proof.
  intros Hidx.
  destruct q as [symbol rel_file_path use_end_line|symbol]; simpl;
    unfold get_definitions_tree, get_references_tree; rewrite Hidx; simpl;
    by rewrite tag_list_to_tree_texts.
Qed.

(* One text for each section, in the order of the sections. *)
Lemma section_texts_shape w sections st :
  Forall2 (λ sec text,
             (sec_lois sec = [] ∧ text = bare_section_header sec) ∨
             (sec_lois sec ≠ [] ∧ ∃ res, text = sec_rel sec +:+ ":" +:+ LF +:+ res))
          sections (section_texts w sections st).1.
Proof.
  revert st. induction sections as [|sec rest IH]; intros st; simpl; [constructor|].
  destruct (sec_lois sec) as [|l ls] eqn:Hls.
  - specialize (IH st). destruct (section_texts w rest st) as [texts st']. simpl in *.
    constructor; [by left|done].
  - destruct (render_tree w _ _ _ st) as [res st1]. specialize (IH st1).
    destruct (section_texts w rest st1) as [texts st']. simpl in *.
    constructor; [|done]. right. split; [by rewrite Hls|]. by exists res.
Qed.

Lemma render_tree_reads w abs_file rel_file ls st :
  ∃ reads, read_log (render_tree w abs_file rel_file ls st).2 = read_log st ++ reads.
Proof.
  unfold render_tree. destruct (rendered_tree_cache st !! _); simpl.
  { exists []. by rewrite app_nil_r. }
  destruct (file_context_cache st !! rel_file) as [[context m]|];
    [destruct (m <? _)|]; simpl; try (by eexists); exists []; by rewrite app_nil_r.
Qed.

Lemma render_tree_unseen_other w w' abs_file rel_file ls st sec :
  sec_rel sec ≠ rel_file →
  unseen w sec st → unseen w sec (render_tree w' abs_file rel_file ls st).2.
Proof.
  intros Hne [Hrend Hctx]. unfold render_tree.
  destruct (rendered_tree_cache st !! _) eqn:Hhit; simpl; [done|].
  assert (∀ (c : TreeContext) m0 reads',
    unseen w sec
      (mkNav (<[rel_file := (c, m0)]> (file_context_cache st))
             (<[(rel_file, sort_by Z.leb ls, get_modified_time w' abs_file)
                := format c]> (rendered_tree_cache st))
             reads')) as Hins.
  { intros c m0 reads'. split; simpl.
    - intros ls'. rewrite lookup_insert_ne; [apply Hrend|congruence].
    - intros c' m. rewrite lookup_insert_ne; [apply Hctx|done]. }
  destruct (file_context_cache st !! rel_file) as [[context m]|];
    [destruct (m <? _)|]; simpl; apply Hins.
Qed.


Lemma new_navigator_unseen w sec : unseen w sec (new_navigator (TreeContext:=TreeContext)).
Proof. split; intros *; simpl; by rewrite lookup_empty. Qed.

Lemma render_tree_unseen w sec ls st :
  unseen w sec st →
  ∃ st',
    render_tree w (sec_abs sec) (sec_rel sec) ls st
    = (fresh_rendering w (sec_abs sec) (sec_rel sec) ls, st') ∧
    read_log st' = read_log st ++ [sec_abs sec].
Proof.
  intros [Hrend Hctx]. eexists. split; [|shelve].
  apply render_tree_fresh; [apply Hrend|apply Hctx].
  Unshelve. done.
Qed.

(* A section the caches hold nothing for is rendered from the text of the
   file, which is read for it. *)
Lemma section_texts_unseen w sections st0 st :
  NoDup (sec_rel <$> sections) →
  (∀ sec, sec ∈ sections → unseen w sec st0 → unseen w sec st) →
  ∃ reads,
    read_log (section_texts w sections st).2 = read_log st ++ reads ∧
    Forall2 (λ sec text,
               unseen w sec st0 →
               text = fresh_section_text w sec ∧
               (sec_lois sec ≠ [] → sec_abs sec ∈ reads))
            sections (section_texts w sections st).1.
Proof.
  revert st. induction sections as [|sec rest IH]; intros st Hnodup Hkeep.
  { exists []. simpl. split; [by rewrite app_nil_r|constructor]. }
  rewrite fmap_cons in Hnodup. apply NoDup_cons in Hnodup as [Hhead Hnodup].
  cbn [section_texts]. unfold fresh_section_text.
  destruct (sec_lois sec) as [|l ls] eqn:Hls.
  - destruct (IH st Hnodup) as (reads & Hlog & Htexts).
    { intros sec' Hin. apply Hkeep. by right. }
    destruct (section_texts w rest st) as [texts st']. simpl in Hlog, Htexts.
    exists reads. split; [done|]. cbn [fst]. constructor; [|done].
    intros _. by rewrite Hls.
  - destruct (render_tree_reads w (sec_abs sec) (sec_rel sec) (l :: ls) st)
      as [reads1 Hlog1].
    destruct (IH (render_tree w (sec_abs sec) (sec_rel sec) (l :: ls) st).2 Hnodup)
      as (reads & Hlog & Htexts).
    { intros sec' Hin Hunseen. apply render_tree_unseen_other.
      - intros Heq. apply Hhead. rewrite <- Heq. apply list_elem_of_fmap.
        by exists sec'.
      - apply Hkeep; [by right|done]. }
    pose proof (render_tree_unseen w sec (l :: ls) st) as Hfresh.
    destruct (render_tree w (sec_abs sec) (sec_rel sec) (l :: ls) st) as [res st1].
    cbn [fst snd] in *. destruct (section_texts w rest st1) as [texts st'].
    cbn [fst snd] in *.
    exists (reads1 ++ reads). split; [by rewrite Hlog, Hlog1, app_assoc|].
    constructor.
    + intros Hunseen. rewrite Hls.
      destruct Hfresh as (st1' & [= -> <-] & Hread);
        [apply Hkeep; [left|done]|].
      rewrite Hlog1 in Hread. apply app_inv_head in Hread as ->.
      split; [done|]. intros _. apply elem_of_app. left. left.
    + eapply Forall2_impl; [exact Htexts|]. intros sec' text Hsec' Hunseen.
      destruct (Hsec' Hunseen) as [-> Hread]. split; [done|].
      intros Hne. apply elem_of_app. right. by apply Hread.
Qed.

Lemma section_texts_new_navigator w sections :
  NoDup (sec_rel <$> sections) →
  (section_texts w sections new_navigator).1 = fresh_section_text w <$> sections.
Proof.
  intros Hnodup.
  destruct (section_texts_unseen w sections new_navigator new_navigator Hnodup)
    as (reads & _ & Htexts); [done|].
  clear Hnodup. induction Htexts as [|sec text rest texts Hsec _ IH]; [done|].
  rewrite fmap_cons. f_equal; [|done]. apply Hsec, new_navigator_unseen.
Qed.



End AnswerTextsProperties.

Section Claims.

Context {TreeContext : Type} `{!TreeContextOps TreeContext}.
Implicit Types (st : NavState TreeContext) (w : World).

(** C3. Two queries for the definitions of a symbol in a row, with the
    listing, the tags and every modification time unchanged between them:
    the second returns the same string as the first and leaves the state of
    the navigator as the first left it, read log included, so no file text
    is read again. The text of the files is not even assumed to be the same
    in the second tree: every section is answered from the rendered-tree
    cache, under the key made of the relative path, the sorted lines of
    interest and the modification time. *)
Theorem second_query_served_from_cache w1 w2 symbol rel_file_path use_end_line
    st out st1 :
  unchanged_tree w1 w2 →
  get_definitions_tree w1 symbol rel_file_path use_end_line st = Ok (out, st1) →
  get_definitions_tree w2 symbol rel_file_path use_end_line st1 = Ok (out, st1).
Proof.
  intros Hsame. unfold get_definitions_tree.
  rewrite <- (get_parsed_tags_unchanged w1 w2 Hsame).
  destruct (get_parsed_tags w1 None None) as [idx|msg]; simpl; [|done].
  rewrite !tag_list_to_tree_sections.
  set (sections := file_sections _ _).
  pose proof (render_sections_replay w1 w2 sections "" st) as Hreplay.
  destruct (render_sections w1 sections "" st) as [text st'] eqn:Hrun.
  intros [= <- <-]. simpl in Hreplay.
  rewrite (Hreplay st'); [done| |done].
  by destruct Hsame as (_ & _ & _ & ?).
Qed.

(* One call of [render_tree]. A file was rendered any number of times while its modification time
    was at most [mtime_old]; now its modification time is later. The next
    render of the file finds no entry in the rendered-tree cache, reads the
    text of the file again (the read log grows by this file), parses it into
    a new context that replaces the cached one, and returns the rendering of
    the new text; no entry stored earlier is returned. *)
Lemma render_after_edit_is_fresh calls w abs_file rel_file ls mtime_old :
  Forall (λ '(w0, abs0, rel0, _),
            rel0 = rel_file → get_modified_time w0 abs0 ≤ mtime_old) calls →
  mtime_old < get_modified_time w abs_file →
  let st := run_renders calls new_navigator in
  let context := render_with ls (new_TreeContext rel_file (code_of w abs_file)) in
  rendered_tree_cache st !! tree_cache_key w abs_file rel_file ls = None ∧
  render_tree w abs_file rel_file ls st
  = (format context,
     mkNav (<[rel_file := (context, get_modified_time w abs_file)]>
              (file_context_cache st))
           (<[tree_cache_key w abs_file rel_file ls := format context]>
              (rendered_tree_cache st))
           (read_log st ++ [abs_file])).
Proof.
  intros Hcalls Hnew st context.
  destruct (run_renders_cache_at_most calls new_navigator rel_file mtime_old
              (new_navigator_cache_at_most _ _) Hcalls) as [Hrend Hctx].
  fold st in Hrend, Hctx.
  assert (rendered_tree_cache st !! tree_cache_key w abs_file rel_file ls = None)
    as Hmiss.
  { destruct (rendered_tree_cache st !! _) as [res|] eqn:Hhit; [|done].
    apply Hrend in Hhit. lia. }
  split; [done|]. apply render_tree_fresh; [done|].
  intros c m Hc. apply Hctx in Hc. lia.
Qed.


(** C5. The definition tags of a symbol are written out sorted by
    (relative path, start line); the tags of one file are therefore next to
    each other. The relative paths of the file sections strictly ascend, so
    no file has two sections, and every tag with a relative path has the
    section of its file. The answer is the header, then one text for each
    section in this order, cut to 150 characters a line, then a line feed;
    the text of a section with lines of interest is its relative path, a
    colon, a line feed and what [render_tree] returns for the section. *)
Theorem definitions_grouped_by_file w symbol rel_file_path use_end_line st idx :
  get_parsed_tags w None None = Ok idx →
  let tags := sort_by tag_key_leb (elements (collect_def_tags idx symbol rel_file_path)) in
  let sections := file_sections use_end_line tags in
  StronglySorted tag_key_le tags ∧
  (∀ t, t ∈ tags ↔ t ∈ collect_def_tags idx symbol rel_file_path) ∧
  (∀ i j k ti tj tk,
     (i ≤ j ≤ k)%nat →
     tags !! i = Some ti → tags !! j = Some tj → tags !! k = Some tk →
     rel_path ti = rel_path tk → rel_path tj = rel_path ti) ∧
  StronglySorted (strict String.le) (sec_rel <$> sections) ∧
  NoDup (sec_rel <$> sections) ∧
  (∀ t, t ∈ tags → rel_path t ≠ "" → rel_path t ∈ sec_rel <$> sections) ∧
  ∃ texts st',
    section_texts w sections st = (texts, st') ∧
    get_definitions_tree w symbol rel_file_path use_end_line st
    = Ok (definitions_header symbol +:+ cut_lines 150 (String.concat "" texts) +:+ LF,
          st') ∧
    Forall2 (λ sec text,
               (sec_lois sec = [] ∧ text = bare_section_header sec) ∨
               (sec_lois sec ≠ [] ∧
                ∃ res, text = sec_rel sec +:+ ":" +:+ LF +:+ res))
            sections texts.
Proof.
  intros Hidx tags sections.
  assert (StronglySorted tag_key_le tags) as Hsorted
    by apply sorted_tags_StronglySorted.
  assert (StronglySorted (strict String.le) (sec_rel <$> sections)) as Hsecs
    by by apply file_sections_StronglySorted.
  split_and!; [done| | |done| | |].
  - intros t. unfold tags. by rewrite sort_by_elem_of, elem_of_elements.
  - intros i j k ti tj tk [Hij Hjk] Hi Hj Hk Heq.
    apply tag_key_sorted_rel_sorted in Hsorted.
    apply (anti_symm String.le).
    + rewrite Heq. by apply (StronglySorted_lookup_le rel_le tags j k).
    + by apply (StronglySorted_lookup_le rel_le tags i j).
  - by eapply (StronglySorted_NoDup (strict String.le)).
  - intros t Hin Hne. by apply closed_sections_cover.
  - pose proof (section_texts_shape w sections st) as Hshape.
    pose proof (ask_texts w (Definitions symbol rel_file_path use_end_line) st idx Hidx)
      as Hask.
    simpl in Hask. fold tags in Hask. fold sections in Hask.
    destruct (section_texts w sections st) as [texts st']. by exists texts, st'.
Qed.

(** C6. For each file section with lines of interest the definitions
    lookup calls [render_tree] with the absolute path of a tag of the file,
    the relative path and the lines of the section, and these are exactly
    the lines of the inclusive ranges from start line to end line of the
    definition tags of that file, range after range in the order of the
    tags; the references lookup calls it with exactly the start lines of the
    reference tags of that file. The text of the answer is made of what
    these calls return; for a new navigator it is what the renderer prints
    for a new context of the file that was given these lines and no
    others. *)
Theorem lines_of_interest_per_file w symbol rel_file_path st idx :
  get_parsed_tags w None None = Ok idx →
  let def_tags :=
    sort_by tag_key_leb (elements (collect_def_tags idx symbol rel_file_path)) in
  let ref_tags := sort_by tag_key_leb (elements (collect_ref_tags idx symbol)) in
  let def_sections := file_sections true def_tags in
  let ref_sections := file_sections false ref_tags in
  (∃ texts st',
     section_texts w def_sections st = (texts, st') ∧
     get_definitions_tree w symbol rel_file_path true st
     = Ok (definitions_header symbol +:+ cut_lines 150 (String.concat "" texts)
           +:+ LF, st')) ∧
  (∀ sec n, sec ∈ def_sections →
     n ∈ sec_lois sec ↔
     ∃ t, t ∈ collect_def_tags idx symbol rel_file_path ∧
          rel_path t = sec_rel sec ∧ start_line t ≤ n ≤ end_line t) ∧
  (∃ texts st',
     section_texts w ref_sections st = (texts, st') ∧
     get_references_tree w symbol st
     = Ok (references_header symbol +:+ cut_lines 150 (String.concat "" texts)
           +:+ LF, st')) ∧
  (∀ sec n, sec ∈ ref_sections →
     n ∈ sec_lois sec ↔
     ∃ t, t ∈ collect_ref_tags idx symbol ∧
          rel_path t = sec_rel sec ∧ n = start_line t) ∧
  (section_texts w def_sections new_navigator).1 = fresh_section_text w <$> def_sections ∧
  (section_texts w ref_sections new_navigator).1 = fresh_section_text w <$> ref_sections ∧
  (∀ sec, sec ∈ def_sections →
     sec_lois sec
     = filter (λ t, rel_path t = sec_rel sec) def_tags
       ≫= λ t, seqZ (start_line t) (end_line t + 1 - start_line t)) ∧
  (∀ sec, sec ∈ ref_sections →
     sec_lois sec
     = filter (λ t, rel_path t = sec_rel sec) ref_tags ≫= λ t, [start_line t]) ∧
  (∀ sec, sec ∈ def_sections → sec_rel sec ≠ "" →
     ∃ t, t ∈ collect_def_tags idx symbol rel_file_path ∧
          rel_path t = sec_rel sec ∧ abs_path t = sec_abs sec) ∧
  (∀ sec, sec ∈ ref_sections → sec_rel sec ≠ "" →
     ∃ t, t ∈ collect_ref_tags idx symbol ∧
          rel_path t = sec_rel sec ∧ abs_path t = sec_abs sec).
Proof.
  intros Hidx def_tags ref_tags def_sections ref_sections. split_and!.
  - pose proof (ask_texts w (Definitions symbol rel_file_path true) st idx Hidx) as Hask.
    simpl in Hask. fold def_tags in Hask. fold def_sections in Hask.
    destruct (section_texts w def_sections st) as [texts st']. by exists texts, st'.
  - intros sec n Hin.
    rewrite (file_sections_lois _ _ _ _ (sorted_tags_StronglySorted _) Hin).
    unfold def_tags.
    by setoid_rewrite sort_by_elem_of; setoid_rewrite elem_of_elements;
       setoid_rewrite elem_of_tag_lois_range.
  - pose proof (ask_texts w (References symbol) st idx Hidx) as Hask.
    simpl in Hask. fold ref_tags in Hask. fold ref_sections in Hask.
    destruct (section_texts w ref_sections st) as [texts st']. by exists texts, st'.
  - intros sec n Hin.
    rewrite (file_sections_lois _ _ _ _ (sorted_tags_StronglySorted _) Hin).
    unfold ref_tags.
    by setoid_rewrite sort_by_elem_of; setoid_rewrite elem_of_elements;
       setoid_rewrite elem_of_tag_lois_start.
  - apply section_texts_new_navigator, (StronglySorted_NoDup (strict String.le)).
    apply file_sections_StronglySorted, sorted_tags_StronglySorted.
  - apply section_texts_new_navigator, (StronglySorted_NoDup (strict String.le)).
    apply file_sections_StronglySorted, sorted_tags_StronglySorted.
  - intros sec Hin.
    by rewrite (file_sections_lois_list _ _ _ (sorted_tags_StronglySorted _) Hin).
  - intros sec Hin.
    by rewrite (file_sections_lois_list _ _ _ (sorted_tags_StronglySorted _) Hin).
  - intros sec Hin Hne.
    destruct (file_sections_abs _ _ _ Hin Hne) as (t & Ht & ? & ?).
    exists t. split; [|done]. unfold def_tags in Ht.
    by rewrite sort_by_elem_of, elem_of_elements in Ht.
  - intros sec Hin Hne.
    destruct (file_sections_abs _ _ _ Hin Hne) as (t & Ht & ? & ?).
    exists t. split; [|done]. unfold ref_tags in Ht.
    by rewrite sort_by_elem_of, elem_of_elements in Ht.
Qed.

(** C7, amended. For every symbol other than the empty string and every
    path filter, the tags of the answer are exactly the definition tags of
    the candidate files whose relative path contains the filter as a
    substring; for the empty symbol no tag is collected at all. *)
Theorem path_filter_nonempty_symbol idx symbol f :
  symbol ≠ "" →
  path_filter_exact idx symbol f ∧ collect_def_tags idx "" (Some f) = ∅.
Proof.
  intros Hsym. split; [|done]. intros tag.
  rewrite (elem_of_collect_def_tags _ _ _ _ Hsym).
  split; intros (def_rel & Hin & Hf & Htag); exists def_rel; split_and!; try done.
  - apply str_contains_spec. by apply Hf.
  - intros f' [= <-]. by apply str_contains_spec.
Qed.

(** C8, amended. Each query returns its header, then the file sections,
    then a line feed. The file sections are cut line by line: their lines
    are the lines of the section texts as written, each reduced to its first
    150 characters, so every line of the file sections is at most 150
    characters long. The header line carries the symbol as it was given. *)
Theorem section_lines_truncated w symbol rel_file_path use_end_line st idx :
  get_parsed_tags w None None = Ok idx →
  let def_sections :=
    file_sections use_end_line
      (sort_by tag_key_leb (elements (collect_def_tags idx symbol rel_file_path))) in
  let ref_sections :=
    file_sections false (sort_by tag_key_leb (elements (collect_ref_tags idx symbol))) in
  (∃ texts body st',
     section_texts w def_sections st = (texts, st') ∧
     get_definitions_tree w symbol rel_file_path use_end_line st
     = Ok (definitions_header symbol +:+ body +:+ LF, st') ∧
     all_lines_short body ∧
     (String.concat "" texts = "" → body = "") ∧
     (String.concat "" texts ≠ "" →
      lines_lf body
      = String.substring 0 150 <$> splitlines (String.concat "" texts))) ∧
  (∃ texts body st',
     section_texts w ref_sections st = (texts, st') ∧
     get_references_tree w symbol st
     = Ok (references_header symbol +:+ body +:+ LF, st') ∧
     all_lines_short body ∧
     (String.concat "" texts = "" → body = "") ∧
     (String.concat "" texts ≠ "" →
      lines_lf body
      = String.substring 0 150 <$> splitlines (String.concat "" texts))).
Proof.
  intros Hidx def_sections ref_sections. split.
  - pose proof (ask_texts w (Definitions symbol rel_file_path use_end_line) st idx Hidx)
      as Hask.
    simpl in Hask. fold def_sections in Hask.
    destruct (section_texts w def_sections st) as [texts st'].
    exists texts, (cut_lines 150 (String.concat "" texts)), st'.
    split_and!; [done|done|apply all_lines_short_cut_lines|by intros ->|].
    apply lines_lf_cut_lines.
  - pose proof (ask_texts w (References symbol) st idx Hidx) as Hask.
    simpl in Hask. fold ref_sections in Hask.
    destruct (section_texts w ref_sections st) as [texts st'].
    exists texts, (cut_lines 150 (String.concat "" texts)), st'.
    split_and!; [done|done|apply all_lines_short_cut_lines|by intros ->|].
    apply lines_lf_cut_lines.
Qed.

(** C9, amended. The scan handles no failure of its own: when the parser
    returns for every tracked file, the index is the one built from all of
    them, a file without tags adding nothing; when the parser raises for a
    file, the exception of the first such file is the outcome of
    [get_parsed_tags]. *)
Theorem scan_stops_at_first_failure w files :
  get_all_absolute_tracked_files w None = Ok files →
  (Forall (extraction_ok w) files →
   get_parsed_tags w None None = Ok (scan_files_skipping w files empty_index)) ∧
  (∀ before abs_file after msg,
     files = before ++ abs_file :: after →
     Forall (extraction_ok w) before →
     get_tags_from_file w abs_file (get_relative_path_str w abs_file) = Raise msg →
     get_parsed_tags w None None = Raise msg).
Proof.
  intros Hlist. unfold get_parsed_tags. simpl. rewrite Hlist. simpl. split.
  - apply scan_files_all_ok.
  - intros before abs_file after msg -> Hok Hfail.
    by apply scan_files_first_failure.
Qed.

(** C10. Once the index is built, the answer of [get_definitions_tree] is a
    newline, the line [Definition(s) of `symbol`:], the file sections and a
    closing newline, for every symbol; the answer of [get_references_tree]
    has the same shape under the line [References to `symbol`:]. For the
    empty symbol [get_definitions_tree] looks nothing up and returns the
    header and the closing newline alone, its state untouched. *)
Theorem answers_start_with_header w symbol rel_file_path use_end_line st idx :
  get_parsed_tags w None None = Ok idx →
  (∃ body st',
     get_definitions_tree w symbol rel_file_path use_end_line st
     = Ok (LF +:+ "Definition(s) of `" +:+ symbol +:+ "`:" +:+ LF +:+ body +:+ LF,
           st')) ∧
  (∃ body st',
     get_references_tree w symbol st
     = Ok (LF +:+ "References to `" +:+ symbol +:+ "`:" +:+ LF +:+ body +:+ LF,
           st')) ∧
  get_definitions_tree w "" rel_file_path use_end_line st
  = Ok (LF +:+ "Definition(s) of ``:" +:+ LF +:+ LF, st).
Proof.
  intros Hidx. split_and!.
  - unfold get_definitions_tree. rewrite Hidx. simpl.
    destruct (tag_list_to_tree _ _ _ _) as [body st']. exists body, st'.
    unfold definitions_header. by rewrite !str_app_assoc.
  - unfold get_references_tree. rewrite Hidx. simpl.
    destruct (tag_list_to_tree _ _ _ _) as [body st']. exists body, st'.
    unfold references_header. by rewrite !str_app_assoc.
  - by rewrite (get_definitions_tree_no_tags _ _ _ _ _ idx).
Qed.

End Claims.

(** * The claims on the test tree *)

(** C1. In the tree of the navigation tests no definition and no reference
    carries the name [NonExistentSymbol]; each query answers with its header
    and an empty line, and prints neither a message that nothing was found
    nor a suggestion. *)
Theorem no_match_answers_header_only :
  get_definitions_tree test_world "NonExistentSymbol" None true plain_navigator
  = Ok (LF +:+ "Definition(s) of `NonExistentSymbol`:" +:+ LF +:+ LF, plain_navigator) ∧
  get_references_tree test_world "NonExistentSymbol" plain_navigator
  = Ok (LF +:+ "References to `NonExistentSymbol`:" +:+ LF +:+ LF, plain_navigator).
Proof. split; vm_compute; reflexivity. Qed.

(** C2. Where listing the tracked files raises, both queries end with that
    exception; no advisory text is returned in its place. *)
Theorem listing_failure_leaves_queries :
  get_definitions_tree no_git_world "TestSymbol" None true plain_navigator
  = Raise "No git repository found" ∧
  get_references_tree no_git_world "TestSymbol" plain_navigator
  = Raise "No git repository found".
Proof. by apply queries_propagate_listing_failure. Qed.

Lemma get_parsed_tags_test_world : get_parsed_tags test_world None None = Ok test_index.
Proof.
  apply (scan_files_all_ok test_world ["/repo/test_def.py"; "/repo/test_ref.py"]).
  repeat constructor; eexists; reflexivity.
Qed.

Lemma second_query_served_from_cache_witness :
  unchanged_tree test_world unreadable_world ∧
  ∃ st1,
    get_definitions_tree test_world "TestSymbol" None true plain_navigator
    = Ok (LF +:+ "Definition(s) of `TestSymbol`:" +:+ LF +:+ "test_def.py:" +:+ LF
          +:+ "class TestSymbol:" +:+ LF +:+ "    def test_method(self):" +:+ LF
          +:+ "        pass" +:+ LF, st1) ∧
    get_definitions_tree unreadable_world "TestSymbol" None true st1
    = Ok (LF +:+ "Definition(s) of `TestSymbol`:" +:+ LF +:+ "test_def.py:" +:+ LF
          +:+ "class TestSymbol:" +:+ LF +:+ "    def test_method(self):" +:+ LF
          +:+ "        pass" +:+ LF, st1) ∧
    read_log st1 = ["/repo/test_def.py"].
Proof.
  assert (unchanged_tree test_world unreadable_world) as Hsame by (by repeat split).
  split; [exact Hsame|].
  assert (text_of (get_definitions_tree test_world "TestSymbol" None true
                                        plain_navigator)
          = Some (LF +:+ "Definition(s) of `TestSymbol`:" +:+ LF +:+ "test_def.py:"
                  +:+ LF +:+ "class TestSymbol:" +:+ LF
                  +:+ "    def test_method(self):" +:+ LF +:+ "        pass" +:+ LF))
    as Htext by (vm_compute; reflexivity).
  assert (read_log <$> state_of (get_definitions_tree test_world "TestSymbol" None
                                   true plain_navigator)
          = Some ["/repo/test_def.py"]) as Hlog
    by (vm_compute; reflexivity).
  destruct (get_definitions_tree test_world "TestSymbol" None true plain_navigator)
    as [[out st1]|msg] eqn:Hfirst; [|discriminate].
  injection Htext as ->. injection Hlog as Hlog.
  exists st1. split_and!; [reflexivity| |exact Hlog].
  exact (second_query_served_from_cache test_world unreadable_world "TestSymbol"
           None true plain_navigator _ st1 Hsame Hfirst).
Defined.


Lemma get_parsed_tags_shapes_world :
  get_parsed_tags shapes_world None None = Ok shapes_index.
Proof.
  apply (scan_files_all_ok shapes_world ["/repo/lib/b.py"; "/repo/lib/a.py"]).
  repeat constructor; eexists; reflexivity.
Qed.


Lemma definitions_grouped_by_file_witness :
  get_parsed_tags shapes_world None None = Ok shapes_index ∧
  text_of (get_definitions_tree shapes_world "area" None true plain_navigator)
  = Some (LF +:+ "Definition(s) of `area`:" +:+ LF
          +:+ "lib/a.py:" +:+ LF
          +:+ "def area(r):" +:+ LF +:+ "    return 3 * r * r" +:+ LF
          +:+ "def area(w, h):" +:+ LF +:+ "    return w * h" +:+ LF
          +:+ "lib/b.py:" +:+ LF
          +:+ "def area(side):" +:+ LF +:+ "    return side * side" +:+ LF) ∧
  let tags := sort_by tag_key_leb (elements (collect_def_tags shapes_index "area" None)) in
  let sections := file_sections true tags in
  sec_rel <$> sections = [""; "lib/a.py"; "lib/b.py"] ∧
  StronglySorted tag_key_le tags ∧
  (∀ t, t ∈ tags ↔ t ∈ collect_def_tags shapes_index "area" None) ∧
  (∀ i j k ti tj tk,
     (i ≤ j ≤ k)%nat →
     tags !! i = Some ti → tags !! j = Some tj → tags !! k = Some tk →
     rel_path ti = rel_path tk → rel_path tj = rel_path ti) ∧
  StronglySorted (strict String.le) (sec_rel <$> sections) ∧
  NoDup (sec_rel <$> sections) ∧
  (∀ t, t ∈ tags → rel_path t ≠ "" → rel_path t ∈ sec_rel <$> sections) ∧
  ∃ texts st',
    section_texts shapes_world sections plain_navigator = (texts, st') ∧
    get_definitions_tree shapes_world "area" None true plain_navigator
    = Ok (definitions_header "area" +:+ cut_lines 150 (String.concat "" texts) +:+ LF,
          st') ∧
    Forall2 (λ sec text,
               (sec_lois sec = [] ∧ text = bare_section_header sec) ∨
               (sec_lois sec ≠ [] ∧
                ∃ res, text = sec_rel sec +:+ ":" +:+ LF +:+ res))
            sections texts.
Proof.
  split; [exact get_parsed_tags_shapes_world|].
  split; [vm_compute; reflexivity|]. intros tags sections.
  split; [vm_compute; reflexivity|].
  exact (definitions_grouped_by_file shapes_world "area" None true plain_navigator
           shapes_index get_parsed_tags_shapes_world).
Defined.

Lemma lines_of_interest_per_file_witness :
  get_parsed_tags shapes_world None None = Ok shapes_index ∧
  text_of (get_definitions_tree shapes_world "area" None true plain_navigator)
  = Some (LF +:+ "Definition(s) of `area`:" +:+ LF
          +:+ "lib/a.py:" +:+ LF
          +:+ "def area(r):" +:+ LF +:+ "    return 3 * r * r" +:+ LF
          +:+ "def area(w, h):" +:+ LF +:+ "    return w * h" +:+ LF
          +:+ "lib/b.py:" +:+ LF
          +:+ "def area(side):" +:+ LF +:+ "    return side * side" +:+ LF) ∧
  text_of (get_references_tree shapes_world "area" plain_navigator)
  = Some (LF +:+ "References to `area`:" +:+ LF
          +:+ "lib/a.py:" +:+ LF +:+ "print(area(2))" +:+ LF
          +:+ "lib/b.py:" +:+ LF
          +:+ "from a import area" +:+ LF +:+ "total = area(3) + (" +:+ LF) ∧
  let def_tags :=
    sort_by tag_key_leb (elements (collect_def_tags shapes_index "area" None)) in
  let ref_tags := sort_by tag_key_leb (elements (collect_ref_tags shapes_index "area")) in
  let def_sections := file_sections true def_tags in
  let ref_sections := file_sections false ref_tags in
  def_sections
  = [("", "", []); ("lib/a.py", "/repo/lib/a.py", [0; 1; 3; 4]);
     ("lib/b.py", "/repo/lib/b.py", [1; 2])] ∧
  ref_sections
  = [("", "", []); ("lib/a.py", "/repo/lib/a.py", [5]);
     ("lib/b.py", "/repo/lib/b.py", [0; 4])] ∧
  (∃ texts st',
     section_texts shapes_world def_sections plain_navigator = (texts, st') ∧
     get_definitions_tree shapes_world "area" None true plain_navigator
     = Ok (definitions_header "area" +:+ cut_lines 150 (String.concat "" texts)
           +:+ LF, st')) ∧
  (∀ sec n, sec ∈ def_sections →
     n ∈ sec_lois sec ↔
     ∃ t, t ∈ collect_def_tags shapes_index "area" None ∧
          rel_path t = sec_rel sec ∧ start_line t ≤ n ≤ end_line t) ∧
  (∃ texts st',
     section_texts shapes_world ref_sections plain_navigator = (texts, st') ∧
     get_references_tree shapes_world "area" plain_navigator
     = Ok (references_header "area" +:+ cut_lines 150 (String.concat "" texts)
           +:+ LF, st')) ∧
  (∀ sec n, sec ∈ ref_sections →
     n ∈ sec_lois sec ↔
     ∃ t, t ∈ collect_ref_tags shapes_index "area" ∧
          rel_path t = sec_rel sec ∧ n = start_line t) ∧
  (section_texts shapes_world def_sections plain_navigator).1
  = fresh_section_text shapes_world <$> def_sections ∧
  (section_texts shapes_world ref_sections plain_navigator).1
  = fresh_section_text shapes_world <$> ref_sections ∧
  (∀ sec, sec ∈ def_sections →
     sec_lois sec
     = filter (λ t, rel_path t = sec_rel sec) def_tags
       ≫= λ t, seqZ (start_line t) (end_line t + 1 - start_line t)) ∧
  (∀ sec, sec ∈ ref_sections →
     sec_lois sec
     = filter (λ t, rel_path t = sec_rel sec) ref_tags ≫= λ t, [start_line t]) ∧
  (∀ sec, sec ∈ def_sections → sec_rel sec ≠ "" →
     ∃ t, t ∈ collect_def_tags shapes_index "area" None ∧
          rel_path t = sec_rel sec ∧ abs_path t = sec_abs sec) ∧
  (∀ sec, sec ∈ ref_sections → sec_rel sec ≠ "" →
     ∃ t, t ∈ collect_ref_tags shapes_index "area" ∧
          rel_path t = sec_rel sec ∧ abs_path t = sec_abs sec).
Proof.
  split; [exact get_parsed_tags_shapes_world|].
  split; [vm_compute; reflexivity|]. split; [vm_compute; reflexivity|].
  intros def_tags ref_tags def_sections ref_sections.
  split; [vm_compute; reflexivity|]. split; [vm_compute; reflexivity|].
  exact (lines_of_interest_per_file shapes_world "area" None plain_navigator
           shapes_index get_parsed_tags_shapes_world).
Defined.

(** C7, as stated, fails for the empty symbol: the index built from a tree
    whose parser reports a definition with an empty identifier has a
    candidate file for it, its path contains the filter, and yet no tag is
    collected. *)
Lemma empty_symbol_skips_candidates :
  get_parsed_tags empty_name_world None None = Ok empty_name_index ∧
  ¬ path_filter_exact empty_name_index "" "pkg".
Proof.
  split; [reflexivity|]. intros Hclaim.
  destruct (Hclaim (mkTag "/repo/pkg/a.py" "pkg/a.py" "" DEF 0 0)) as [_ Hback].
  eapply (not_elem_of_empty (C:=gset ParsedTag)).
  rewrite <- (collect_def_tags_empty_symbol empty_name_index (Some "pkg")).
  apply Hback. exists "pkg/a.py".
  unfold empty_name_index, add_tag, dd_add, empty_index; simpl.
  rewrite !lookup_insert_eq; simpl. split_and!.
  - set_solver.
  - by exists "", "/a.py".
  - set_solver.
Qed.

Lemma path_filter_nonempty_symbol_witness :
  "TestSymbol" ≠ "" ∧ path_filter_exact test_index "TestSymbol" "def".
Proof.
  assert ("TestSymbol" ≠ "") as Hsym by discriminate.
  split; [exact Hsym|].
  exact (proj1 (path_filter_nonempty_symbol test_index "TestSymbol" "def" Hsym)).
Defined.

(** C8, as stated, fails for a long symbol: the header line of the answer
    holds the 200 characters of the symbol. *)
Lemma long_symbol_header_exceeds_limit :
  ∃ out st',
    get_definitions_tree test_world long_symbol None true plain_navigator
    = Ok (out, st') ∧
    ¬ all_lines_short out.
Proof.
  exists (definitions_header long_symbol +:+ LF), plain_navigator. split.
  - apply (get_definitions_tree_no_tags _ _ _ _ _ test_index);
      [exact get_parsed_tags_test_world|].
    vm_compute. reflexivity.
  - unfold all_lines_short. intros Hshort.
    assert (lines_lf (definitions_header long_symbol +:+ LF)
            = [""; "Definition(s) of `" +:+ long_symbol +:+ "`:"; ""; ""]) as Hlines
      by (vm_compute; reflexivity).
    rewrite Hlines in Hshort.
    apply Forall_cons in Hshort as [_ Hshort].
    apply Forall_cons in Hshort as [Hheader _].
    assert (String.length ("Definition(s) of `" +:+ long_symbol +:+ "`:") = 220%nat)
      as Hlen by (vm_compute; reflexivity).
    rewrite Hlen in Hheader. lia.
Qed.

Lemma section_lines_truncated_witness :
  get_parsed_tags shapes_world None None = Ok shapes_index ∧
  String.length long_line = 210%nat ∧
  text_of (get_definitions_tree shapes_world "table" None true plain_navigator)
  = Some (LF +:+ "Definition(s) of `table`:" +:+ LF +:+ "lib/a.py:" +:+ LF
          +:+ String.substring 0 150 long_line +:+ LF) ∧
  let def_sections :=
    file_sections true
      (sort_by tag_key_leb (elements (collect_def_tags shapes_index "table" None))) in
  let ref_sections :=
    file_sections false
      (sort_by tag_key_leb (elements (collect_ref_tags shapes_index "table"))) in
  (section_texts shapes_world def_sections plain_navigator).1
  = [""; "lib/a.py:" +:+ LF +:+ long_line +:+ LF] ∧
  (∃ texts body st',
     section_texts shapes_world def_sections plain_navigator = (texts, st') ∧
     get_definitions_tree shapes_world "table" None true plain_navigator
     = Ok (definitions_header "table" +:+ body +:+ LF, st') ∧
     all_lines_short body ∧
     (String.concat "" texts = "" → body = "") ∧
     (String.concat "" texts ≠ "" →
      lines_lf body
      = String.substring 0 150 <$> splitlines (String.concat "" texts))) ∧
  (∃ texts body st',
     section_texts shapes_world ref_sections plain_navigator = (texts, st') ∧
     get_references_tree shapes_world "table" plain_navigator
     = Ok (references_header "table" +:+ body +:+ LF, st') ∧
     all_lines_short body ∧
     (String.concat "" texts = "" → body = "") ∧
     (String.concat "" texts ≠ "" →
      lines_lf body
      = String.substring 0 150 <$> splitlines (String.concat "" texts))).
Proof.
  split; [exact get_parsed_tags_shapes_world|].
  split; [vm_compute; reflexivity|]. split; [vm_compute; reflexivity|].
  intros def_sections ref_sections. split; [vm_compute; reflexivity|].
  exact (section_lines_truncated shapes_world "table" None true plain_navigator
           shapes_index get_parsed_tags_shapes_world).
Defined.

(** C9, as stated, fails where the parser raises: the scan of the test tree
    with a parser that fails on its first file ends with that exception, not
    with the index of the remaining file. *)
Lemma parse_failure_aborts_scan : ¬ scan_skips_failures broken_parse_world.
Proof.
  intros Hclaim. specialize (Hclaim _ eq_refl).
  assert (get_parsed_tags broken_parse_world None None
          = Raise "cannot parse test_def.py") as Hraise by reflexivity.
  rewrite Hraise in Hclaim. discriminate.
Qed.

Lemma scan_stops_at_first_failure_witness :
  get_all_absolute_tracked_files broken_parse_world None
  = Ok ["/repo/test_def.py"; "/repo/test_ref.py"] ∧
  get_parsed_tags broken_parse_world None None = Raise "cannot parse test_def.py".
Proof.
  assert (get_all_absolute_tracked_files broken_parse_world None
          = Ok ["/repo/test_def.py"; "/repo/test_ref.py"]) as Hlist by reflexivity.
  split; [exact Hlist|].
  apply (proj2 (scan_stops_at_first_failure broken_parse_world _ Hlist)
           [] "/repo/test_def.py" ["/repo/test_ref.py"]);
    [reflexivity|constructor|reflexivity].
Defined.

Lemma answers_start_with_header_witness :
  get_parsed_tags test_world None None = Ok test_index ∧
  ∃ body st',
    get_definitions_tree test_world "TestSymbol" None true plain_navigator
    = Ok (LF +:+ "Definition(s) of `" +:+ "TestSymbol" +:+ "`:" +:+ LF +:+ body +:+ LF,
          st').
Proof.
  split; [exact get_parsed_tags_test_world|].
  exact (proj1 (answers_start_with_header test_world "TestSymbol" None true
                  plain_navigator test_index get_parsed_tags_test_world)).
Defined.

(** * Further properties of the index *)

(** ** Dictionaries of sets and of lists *)

Section DefaultDicts.
Context `{Countable K} `{Countable V}.
Implicit Types (d : gmap K (gset V)) (items : list (K * V)).

Lemma dd_add_lookup k x d k' :
  dd_add k x d !! k'
  = if decide (k = k') then Some (default ∅ (d !! k) ∪ {[x]}) else d !! k'.
Proof. unfold dd_add. by rewrite lookup_insert. Qed.

Lemma dd_fold_elem_of items d k v :
  v ∈ default ∅ (foldl (λ d kv, dd_add kv.1 kv.2 d) d items !! k) ↔
  v ∈ default ∅ (d !! k) ∨ (k, v) ∈ items.
Proof.
  revert d. induction items as [|[k0 v0] items IH]; intros d; simpl.
  - split; [by left|]. by intros [?|?%elem_of_nil].
  - rewrite IH, dd_add_lookup, elem_of_cons. case_decide as Hk; simpl.
    + subst k0. rewrite elem_of_union, elem_of_singleton. split.
      * intros [[?|?]|?]; [by left|right; left; congruence|by right; right].
      * intros [?|[[= ->]|?]]; [by left; left|by left; right|by right].
    + split.
      * intros [?|?]; [by left|by right; right].
      * intros [?|[[= ??]|?]]; [by left|done|by right].
Qed.

Lemma dd_fold_lookup_None items d k :
  foldl (λ d kv, dd_add kv.1 kv.2 d) d items !! k = None ↔
  d !! k = None ∧ ∀ v, (k, v) ∉ items.
Proof.
  revert d. induction items as [|[k0 v0] items IH]; intros d; simpl.
  - split; [|by intros [? _]]. intros ?. split; [done|]. intros v ?%elem_of_nil. done.
  - rewrite IH, dd_add_lookup. case_decide as Hk; simpl.
    + subst k0. split; [by intros [? _]|]. intros [_ Hno].
      exfalso. apply (Hno v0). left.
    + split.
      * intros [? Hno]. split; [done|]. intros v [?|?]%elem_of_cons; [congruence|].
        by eapply Hno.
      * intros [? Hno]. split; [done|]. intros v ?. apply (Hno v). by right.
Qed.

Lemma dd_fold_stored_nonempty items d k X :
  (∀ k' X', d !! k' = Some X' → X' ≠ ∅) →
  foldl (λ d kv, dd_add kv.1 kv.2 d) d items !! k = Some X → X ≠ ∅.
Proof.
  revert d. induction items as [|[k0 v0] items IH]; intros d Hd; simpl.
  - apply Hd.
  - apply IH. intros k' X'. rewrite dd_add_lookup. case_decide; [|apply Hd].
    intros [= <-]. set_solver.
Qed.

Lemma dd_fold_Permutation items1 items2 d :
  items1 ≡ₚ items2 →
  foldl (λ d kv, dd_add kv.1 kv.2 d) d items1
  = foldl (λ d kv, dd_add kv.1 kv.2 d) d items2.
Proof.
  intros Hperm. apply map_eq. intros k.
  destruct (foldl _ d items1 !! k) as [X1|] eqn:H1,
           (foldl _ d items2 !! k) as [X2|] eqn:H2.
  - f_equal. apply set_eq. intros v.
    pose proof (dd_fold_elem_of items1 d k v) as E1.
    pose proof (dd_fold_elem_of items2 d k v) as E2.
    rewrite H1 in E1. rewrite H2 in E2. simpl in *.
    rewrite E1, E2. by rewrite Hperm.
  - apply dd_fold_lookup_None in H2 as [Hd Hno].
    assert (foldl (λ d kv, dd_add kv.1 kv.2 d) d items1 !! k = None) as Hnone.
    { apply dd_fold_lookup_None. split; [done|]. intros v. rewrite Hperm. apply Hno. }
    congruence.
  - apply dd_fold_lookup_None in H1 as [Hd Hno].
    assert (foldl (λ d kv, dd_add kv.1 kv.2 d) d items2 !! k = None) as Hnone.
    { apply dd_fold_lookup_None. split; [done|]. intros v. rewrite <- Hperm. apply Hno. }
    congruence.
  - done.
Qed.

Lemma dd_append_fold_lookup (items : list (K * V)) (m : gmap K (list V)) k :
  default [] (foldl (λ m' kv, dd_append kv.1 kv.2 m') m items !! k)
  = default [] (m !! k) ++ (snd <$> filter (λ kv, kv.1 = k) items).
Proof.
  revert m. induction items as [|[k0 v0] items IH]; intros m; simpl.
  - by rewrite app_nil_r.
  - rewrite IH. unfold dd_append at 1. rewrite lookup_insert, filter_cons. simpl.
    case_decide as Hk; simpl.
    + subst k0. by rewrite <- app_assoc.
    + done.
Qed.

End DefaultDicts.

(** ** The index as four folds over the scanned tags *)

Lemma scan_files_skipping_foldl w files idx :
  scan_files_skipping w files idx = foldl add_pair idx (scanned_tags w files).
Proof.
  revert idx. induction files as [|abs_file files IH]; intros idx; [done|].
  unfold scanned_tags. rewrite bind_cons, foldl_app. fold (scanned_tags w files).
  simpl. destruct (get_tags_from_file w abs_file _) as [tags|msg]; simpl.
  - rewrite IH. f_equal. by rewrite foldl_fmap.
  - apply IH.
Qed.

Lemma scan_files_Ok_inv w files idx idx' :
  scan_files w files idx = Ok idx' →
  Forall (extraction_ok w) files ∧ idx' = scan_files_skipping w files idx.
Proof.
  revert idx. induction files as [|abs_file files IH]; intros idx; simpl.
  - intros [= <-]. by split.
  - destruct (get_tags_from_file w abs_file _) as [tags|msg] eqn:Htags; simpl; [|done].
    intros [Hok ->]%IH. split; [|done]. constructor; [|done]. by exists tags.
Qed.

Lemma foldl_add_pair_fields ps idx :
  foldl add_pair idx ps
  = mkIndex
      (foldl (λ d kv, dd_add kv.1 kv.2 d) (ident2defrels idx) (omap def_rel_item ps))
      (foldl (λ d kv, dd_append kv.1 kv.2 d) (ident2refrels idx) (omap ref_rel_item ps))
      (foldl (λ d kv, dd_add kv.1 kv.2 d) (identwrel2deftags idx) (omap def_tag_item ps))
      (foldl (λ d kv, dd_add kv.1 kv.2 d) (identwrel2reftags idx) (omap ref_tag_item ps)).
Proof.
  revert idx. induction ps as [|[rel_file t] ps IH]; intros idx; simpl.
  - by destruct idx.
  - rewrite IH. unfold add_pair, add_tag, def_rel_item, ref_rel_item, def_tag_item,
      ref_tag_item. simpl. by destruct (tag_kind t).
Qed.

Lemma elem_of_scanned_tags w files rel_file t :
  (rel_file, t) ∈ scanned_tags w files ↔ parsed_in w files rel_file t.
Proof.
  unfold scanned_tags, parsed_in. rewrite list_elem_of_bind. split.
  - intros (abs_file & Hin & Hfile).
    destruct (get_tags_from_file w abs_file _) as [tags|msg] eqn:Htags;
      [|by apply elem_of_nil in Hin].
    apply list_elem_of_fmap in Hin as (t' & [= -> ->] & Hin).
    by exists abs_file, tags.
  - intros (abs_file & tags & Hfile & <- & Htags & Hin).
    exists abs_file. split; [|done]. rewrite Htags. by apply list_elem_of_fmap_2.
Qed.

Lemma elem_of_def_tag_items (ps : list (string * ParsedTag)) (rel_file ident : string) t :
  (rel_file, ident, t) ∈ omap def_tag_item ps ↔
  (rel_file, t) ∈ ps ∧ tag_kind t = DEF ∧ node_content t = ident.
Proof.
  rewrite list_elem_of_omap. unfold def_tag_item. split.
  - intros ([r t'] & Hin & Hitem). simpl in Hitem.
    destruct (tag_kind t') eqn:Hk; [|done]. by injection Hitem as -> <- ->.
  - intros (Hin & Hk & <-). exists (rel_file, t). simpl. by rewrite Hk.
Qed.

Lemma elem_of_ref_tag_items (ps : list (string * ParsedTag)) (rel_file ident : string) t :
  (rel_file, ident, t) ∈ omap ref_tag_item ps ↔
  (rel_file, t) ∈ ps ∧ tag_kind t = REF ∧ node_content t = ident.
Proof.
  rewrite list_elem_of_omap. unfold ref_tag_item. split.
  - intros ([r t'] & Hin & Hitem). simpl in Hitem.
    destruct (tag_kind t') eqn:Hk; [done|]. by injection Hitem as -> <- ->.
  - intros (Hin & Hk & <-). exists (rel_file, t). simpl. by rewrite Hk.
Qed.

Lemma elem_of_def_rel_items (ps : list (string * ParsedTag)) (rel_file ident : string) :
  (ident, rel_file) ∈ omap def_rel_item ps ↔
  ∃ t, (rel_file, t) ∈ ps ∧ tag_kind t = DEF ∧ node_content t = ident.
Proof.
  rewrite list_elem_of_omap. unfold def_rel_item. split.
  - intros ([r t'] & Hin & Hitem). simpl in Hitem.
    destruct (tag_kind t') eqn:Hk; [|done]. injection Hitem as <- ->. by exists t'.
  - intros (t & Hin & Hk & <-). exists (rel_file, t). simpl. by rewrite Hk.
Qed.

Lemma ref_rel_items_scanned w files ident :
  snd <$> filter (λ kv, kv.1 = ident) (omap ref_rel_item (scanned_tags w files))
  = ref_occurrences w files ident.
Proof.
  unfold scanned_tags, ref_occurrences.
  induction files as [|abs_file files IH]; [done|].
  rewrite !bind_cons, omap_app, filter_app, fmap_app, IH. f_equal.
  destruct (get_tags_from_file w abs_file _) as [tags|msg]; [|done].
  generalize (get_relative_path_str w abs_file). intros rel_file.
  induction tags as [|t tags IHt]; [done|].
  rewrite fmap_cons.
  change (omap ref_rel_item ((rel_file, t) :: (pair rel_file <$> tags)))
    with (match ref_rel_item (rel_file, t) with
          | Some y => y :: omap ref_rel_item (pair rel_file <$> tags)
          | None => omap ref_rel_item (pair rel_file <$> tags)
          end).
  unfold ref_rel_item at 1. cbn [fst snd].
  rewrite (filter_cons _ t). destruct (tag_kind t) eqn:Hk.
  - rewrite IHt. case_decide as Hc; [by destruct Hc|done].
  - rewrite filter_cons. cbn [fst].
    case_decide as Hn; case_decide as Hc; rewrite ?fmap_cons, ?IHt; try done.
    + destruct Hc. by split.
    + by destruct Hc as [_ ?].
Qed.

Lemma get_parsed_tags_scanned w files idx :
  get_all_absolute_tracked_files w None = Ok files →
  get_parsed_tags w None None = Ok idx →
  Forall (extraction_ok w) files ∧
  idx = foldl add_pair empty_index (scanned_tags w files).
Proof.
  intros Hlist. unfold get_parsed_tags. simpl. rewrite Hlist. simpl.
  intros [Hok ->]%scan_files_Ok_inv. split; [done|].
  apply scan_files_skipping_foldl.
Qed.

(* The four dictionaries of a scan, one by one. *)
Lemma def_bucket_scanned w files idx rel_file ident t :
  get_all_absolute_tracked_files w None = Ok files →
  get_parsed_tags w None None = Ok idx →
  t ∈ default ∅ (identwrel2deftags idx !! (rel_file, ident)) ↔
  parsed_in w files rel_file t ∧ tag_kind t = DEF ∧ node_content t = ident.
Proof.
  intros Hlist Hidx.
  destruct (get_parsed_tags_scanned w files idx Hlist Hidx) as [_ ->].
  rewrite foldl_add_pair_fields. simpl.
  rewrite dd_fold_elem_of, lookup_empty, elem_of_def_tag_items, elem_of_scanned_tags.
  simpl. split; [by intros [?%not_elem_of_empty|?]|by right].
Qed.

Lemma def_rels_scanned w files idx rel_file ident :
  get_all_absolute_tracked_files w None = Ok files →
  get_parsed_tags w None None = Ok idx →
  rel_file ∈ default ∅ (ident2defrels idx !! ident) ↔
  ∃ t, parsed_in w files rel_file t ∧ tag_kind t = DEF ∧ node_content t = ident.
Proof.
  intros Hlist Hidx.
  destruct (get_parsed_tags_scanned w files idx Hlist Hidx) as [_ ->].
  rewrite foldl_add_pair_fields. simpl.
  rewrite dd_fold_elem_of, lookup_empty, elem_of_def_rel_items. simpl.
  setoid_rewrite elem_of_scanned_tags.
  split; [by intros [?%not_elem_of_empty|?]|by right].
Qed.

Lemma ref_bucket_scanned w files idx rel_file ident t :
  get_all_absolute_tracked_files w None = Ok files →
  get_parsed_tags w None None = Ok idx →
  t ∈ default ∅ (identwrel2reftags idx !! (rel_file, ident)) ↔
  parsed_in w files rel_file t ∧ tag_kind t = REF ∧ node_content t = ident.
Proof.
  intros Hlist Hidx.
  destruct (get_parsed_tags_scanned w files idx Hlist Hidx) as [_ ->].
  rewrite foldl_add_pair_fields. simpl.
  rewrite dd_fold_elem_of, lookup_empty, elem_of_ref_tag_items, elem_of_scanned_tags.
  simpl. split; [by intros [?%not_elem_of_empty|?]|by right].
Qed.

Lemma ref_rels_scanned w files idx ident :
  get_all_absolute_tracked_files w None = Ok files →
  get_parsed_tags w None None = Ok idx →
  default [] (ident2refrels idx !! ident) = ref_occurrences w files ident.
Proof.
  intros Hlist Hidx.
  destruct (get_parsed_tags_scanned w files idx Hlist Hidx) as [_ ->].
  rewrite foldl_add_pair_fields. simpl.
  by rewrite dd_append_fold_lookup, lookup_empty, ref_rel_items_scanned.
Qed.

Lemma ref_rels_elem_of w files idx rel_file ident :
  get_all_absolute_tracked_files w None = Ok files →
  get_parsed_tags w None None = Ok idx →
  rel_file ∈ default [] (ident2refrels idx !! ident) ↔
  ∃ t, t ∈ default ∅ (identwrel2reftags idx !! (rel_file, ident)).
Proof.
  intros Hlist Hidx.
  setoid_rewrite (ref_bucket_scanned w files idx rel_file ident _ Hlist Hidx).
  destruct (get_parsed_tags_scanned w files idx Hlist Hidx) as [_ ->].
  rewrite foldl_add_pair_fields. simpl.
  rewrite dd_append_fold_lookup, lookup_empty. simpl.
  rewrite list_elem_of_fmap. split.
  - intros ([i r] & -> & [Hi Hin]%list_elem_of_filter). simpl in *. subst i.
    apply list_elem_of_omap in Hin as ([r' t] & Hin & Hitem).
    unfold ref_rel_item in Hitem. simpl in Hitem.
    destruct (tag_kind t) eqn:Hk; [done|]. injection Hitem as <- ->.
    exists t. by rewrite <- elem_of_scanned_tags.
  - intros (t & Hin%elem_of_scanned_tags & Hk & Hn).
    exists (ident, rel_file). split; [done|]. apply list_elem_of_filter.
    split; [done|]. apply list_elem_of_omap. exists (rel_file, t).
    split; [done|]. unfold ref_rel_item. simpl. by rewrite Hk, Hn.
Qed.

(** X1. The definition side of the index holds what the parser returned and
    nothing else: a tag is in the bucket of (file, identifier) exactly when
    the parser returned it for a tracked file of that relative path as a
    definition of that identifier, and a file is listed under an identifier
    exactly when it has such a tag. *)
Theorem index_definitions_exact w files idx :
  get_all_absolute_tracked_files w None = Ok files →
  get_parsed_tags w None None = Ok idx →
  (∀ rel_file ident t,
     t ∈ default ∅ (identwrel2deftags idx !! (rel_file, ident)) ↔
     parsed_in w files rel_file t ∧ tag_kind t = DEF ∧ node_content t = ident) ∧
  (∀ rel_file ident,
     rel_file ∈ default ∅ (ident2defrels idx !! ident) ↔
     ∃ t, parsed_in w files rel_file t ∧ tag_kind t = DEF ∧ node_content t = ident).
Proof.
  intros Hlist Hidx. split.
  - intros rel_file ident t. by apply def_bucket_scanned.
  - intros rel_file ident. by apply def_rels_scanned.
Qed.

(** X2. The reference side of the index: a tag is in the bucket of (file,
    identifier) exactly when the parser returned it for such a file as a
    reference to that identifier, and the list kept under an identifier
    names each file once for every reference tag of the identifier the
    parser returned for it, repetitions included, in the order of the
    scan. *)
Theorem index_references_exact w files idx :
  get_all_absolute_tracked_files w None = Ok files →
  get_parsed_tags w None None = Ok idx →
  (∀ rel_file ident t,
     t ∈ default ∅ (identwrel2reftags idx !! (rel_file, ident)) ↔
     parsed_in w files rel_file t ∧ tag_kind t = REF ∧ node_content t = ident) ∧
  (∀ ident,
     default [] (ident2refrels idx !! ident) = ref_occurrences w files ident).
Proof.
  intros Hlist Hidx. split.
  - intros rel_file ident t. by apply ref_bucket_scanned.
  - intros ident. by apply ref_rels_scanned.
Qed.

(** X3. The dictionaries of the index agree with each other and hold no
    empty bucket: a file is listed among the definitions of an identifier
    exactly when the bucket of (file, identifier) holds a tag, every stored
    bucket and every stored file set is non-empty, and every tag sits under
    its own identifier with the kind of its dictionary. *)
Theorem index_buckets_consistent w idx :
  get_parsed_tags w None None = Ok idx →
  (∀ rel_file ident,
     rel_file ∈ default ∅ (ident2defrels idx !! ident) ↔
     ∃ t, t ∈ default ∅ (identwrel2deftags idx !! (rel_file, ident))) ∧
  (∀ rel_file ident,
     rel_file ∈ default [] (ident2refrels idx !! ident) ↔
     ∃ t, t ∈ default ∅ (identwrel2reftags idx !! (rel_file, ident))) ∧
  (∀ key tags, identwrel2deftags idx !! key = Some tags → tags ≠ ∅) ∧
  (∀ key tags, identwrel2reftags idx !! key = Some tags → tags ≠ ∅) ∧
  (∀ ident rels, ident2defrels idx !! ident = Some rels → rels ≠ ∅) ∧
  (∀ rel_file ident t,
     t ∈ default ∅ (identwrel2deftags idx !! (rel_file, ident)) →
     tag_kind t = DEF ∧ node_content t = ident) ∧
  (∀ rel_file ident t,
     t ∈ default ∅ (identwrel2reftags idx !! (rel_file, ident)) →
     tag_kind t = REF ∧ node_content t = ident).
Proof.
  intros Hidx.
  destruct (get_all_absolute_tracked_files w None) as [files|msg] eqn:Hlist.
  2:{ unfold get_parsed_tags in Hidx. simpl in Hidx. by rewrite Hlist in Hidx. }
  pose proof (λ rel_file ident t,
                def_bucket_scanned w files idx rel_file ident t Hlist Hidx) as Hdt.
  pose proof (λ rel_file ident,
                def_rels_scanned w files idx rel_file ident Hlist Hidx) as Hdr.
  pose proof (λ rel_file ident t,
                ref_bucket_scanned w files idx rel_file ident t Hlist Hidx) as Hrt.
  destruct (get_parsed_tags_scanned w files idx Hlist Hidx) as [_ Hfold].
  split_and!.
  - intros rel_file ident. rewrite Hdr. by setoid_rewrite Hdt.
  - intros rel_file ident. by apply (ref_rels_elem_of w files).
  - intros key tags. rewrite Hfold, foldl_add_pair_fields. simpl.
    apply dd_fold_stored_nonempty. intros ??. by rewrite lookup_empty.
  - intros key tags. rewrite Hfold, foldl_add_pair_fields. simpl.
    apply dd_fold_stored_nonempty. intros ??. by rewrite lookup_empty.
  - intros key rels. rewrite Hfold, foldl_add_pair_fields. simpl.
    apply dd_fold_stored_nonempty. intros ??. by rewrite lookup_empty.
  - intros rel_file ident t Hin. by apply Hdt in Hin as (_ & ? & ?).
  - intros rel_file ident t Hin. by apply Hrt in Hin as (_ & ? & ?).
Qed.

(** X4. The order in which the tracked files are scanned matters to the
    lists of referencing files only: scanning the same files in another
    order succeeds as well and builds the same three dictionaries of sets,
    and under every identifier a list of referencing files that is a
    rearrangement of the first one. *)
Theorem index_independent_of_scan_order w files files' idx :
  scan_files w files empty_index = Ok idx →
  files ≡ₚ files' →
  ∃ idx',
    scan_files w files' empty_index = Ok idx' ∧
    ident2defrels idx' = ident2defrels idx ∧
    identwrel2deftags idx' = identwrel2deftags idx ∧
    identwrel2reftags idx' = identwrel2reftags idx ∧
    ∀ ident,
      default [] (ident2refrels idx' !! ident) ≡ₚ default [] (ident2refrels idx !! ident).
Proof.
  intros [Hok ->]%scan_files_Ok_inv Hperm.
  exists (scan_files_skipping w files' empty_index). split.
  - apply scan_files_all_ok. by rewrite <- Hperm.
  - rewrite !scan_files_skipping_foldl, !foldl_add_pair_fields. simpl.
    assert (scanned_tags w files' ≡ₚ scanned_tags w files) as Hps.
    { unfold scanned_tags. by rewrite Hperm. }
    split_and!.
    + apply dd_fold_Permutation. by rewrite Hps.
    + apply dd_fold_Permutation. by rewrite Hps.
    + apply dd_fold_Permutation. by rewrite Hps.
    + intros ident. rewrite !dd_append_fold_lookup. by rewrite Hps.
Qed.

(** * Further properties of the queries *)

Lemma elem_of_collect_ref_tags idx symbol tag :
  tag ∈ collect_ref_tags idx symbol ↔
  ∃ ref_rel,
    ref_rel ∈ default [] (ident2refrels idx !! symbol) ∧
    tag ∈ default ∅ (identwrel2reftags idx !! (ref_rel, symbol)).
Proof.
  unfold collect_ref_tags.
  generalize (default [] (ident2refrels idx !! symbol)). intros rels.
  assert (∀ acc : gset ParsedTag,
    tag ∈ foldl (λ ref_tags ref_rel,
                   ref_tags ∪ default ∅ (identwrel2reftags idx !! (ref_rel, symbol)))
                acc rels ↔
    tag ∈ acc ∨ ∃ ref_rel, ref_rel ∈ rels ∧
      tag ∈ default ∅ (identwrel2reftags idx !! (ref_rel, symbol))) as Hgen.
  { induction rels as [|r rels IH]; intros acc; simpl.
    - split; [by left|]. by intros [?|(? & ?%elem_of_nil & _)].
    - rewrite IH, elem_of_union. split.
      + intros [[?|?]|(r' & ? & ?)]; [by left|right; exists r|right; exists r'].
        * split; [left|done].
        * split; [by right|done].
      + intros [?|(r' & [->|?]%elem_of_cons & ?)];
          [by left; left|by left; right|right; by exists r']. }
  rewrite Hgen. split; [by intros [?%not_elem_of_empty|?]|by right].
Qed.

(** X5. For a symbol other than the empty string, the tags whose lines
    [get_definitions_tree] shows are exactly the definition tags of that
    name which the parser returned for the tracked files, restricted, when a
    path filter is given, to the files whose relative path contains it. *)
Theorem definition_tags_exact w files idx symbol rel_file_path :
  get_all_absolute_tracked_files w None = Ok files →
  get_parsed_tags w None None = Ok idx →
  symbol ≠ "" →
  ∀ t,
    t ∈ collect_def_tags idx symbol rel_file_path ↔
    ∃ rel_file,
      parsed_in w files rel_file t ∧ tag_kind t = DEF ∧ node_content t = symbol ∧
      (∀ f, rel_file_path = Some f → is_substring f rel_file).
Proof.
  intros Hlist Hidx Hsym t.
  pose proof (λ rel_file ident t,
                def_bucket_scanned w files idx rel_file ident t Hlist Hidx) as Hdt.
  pose proof (λ rel_file ident,
                def_rels_scanned w files idx rel_file ident Hlist Hidx) as Hdr.
  rewrite (elem_of_collect_def_tags _ _ _ _ Hsym). split.
  - intros (rel_file & _ & Hf & (? & ? & ?)%Hdt). exists rel_file. split_and!; try done.
    intros f ->. apply str_contains_spec. by apply Hf.
  - intros (rel_file & Hp & Hk & Hn & Hf). exists rel_file. split_and!.
    + apply Hdr. by exists t.
    + intros f ->. apply str_contains_spec. by apply Hf.
    + by apply Hdt.
Qed.

(** X6. The tags whose lines [get_references_tree] shows are exactly the
    reference tags of the symbol's name which the parser returned for the
    tracked files; here the empty symbol is looked up like any other. *)
Theorem reference_tags_exact w files idx symbol :
  get_all_absolute_tracked_files w None = Ok files →
  get_parsed_tags w None None = Ok idx →
  ∀ t,
    t ∈ collect_ref_tags idx symbol ↔
    ∃ rel_file,
      parsed_in w files rel_file t ∧ tag_kind t = REF ∧ node_content t = symbol.
Proof.
  intros Hlist Hidx t.
  pose proof (λ rel_file ident t,
                ref_bucket_scanned w files idx rel_file ident t Hlist Hidx) as Hrt.
  pose proof (λ rel_file ident,
                ref_rels_elem_of w files idx rel_file ident Hlist Hidx) as Hrr.
  rewrite elem_of_collect_ref_tags. split.
  - intros (rel_file & _ & ?%Hrt). by exists rel_file.
  - intros (rel_file & ?%Hrt). exists rel_file. split; [|done].
    apply Hrr. by exists t.
Qed.

(* Every tag a query shows came from the parser. *)
Lemma collect_def_tags_parsed w files idx symbol rel_file_path t :
  get_all_absolute_tracked_files w None = Ok files →
  get_parsed_tags w None None = Ok idx →
  t ∈ collect_def_tags idx symbol rel_file_path →
  ∃ rel_file, parsed_in w files rel_file t.
Proof.
  intros Hlist Hidx Hin.
  destruct (decide (symbol = "")) as [->|Hsym]; [by apply not_elem_of_empty in Hin|].
  apply (elem_of_collect_def_tags _ _ _ _ Hsym) in Hin as (rel_file & _ & _ & Hin).
  apply (def_bucket_scanned w files idx _ _ _ Hlist Hidx) in Hin as [? _].
  by exists rel_file.
Qed.

Lemma collect_ref_tags_parsed w files idx symbol t :
  get_all_absolute_tracked_files w None = Ok files →
  get_parsed_tags w None None = Ok idx →
  t ∈ collect_ref_tags idx symbol →
  ∃ rel_file, parsed_in w files rel_file t.
Proof.
  intros Hlist Hidx (rel_file & _ & Hin)%elem_of_collect_ref_tags.
  apply (ref_bucket_scanned w files idx _ _ _ Hlist Hidx) in Hin as [? _].
  by exists rel_file.
Qed.

Lemma is_substring_trans s1 s2 s3 :
  is_substring s1 s2 → is_substring s2 s3 → is_substring s1 s3.
Proof.
  intros (pre1 & post1 & ->) (pre2 & post2 & ->).
  exists (pre2 +:+ pre1), (post1 +:+ post2). by rewrite !str_app_assoc.
Qed.

(** X7. The path filter can only take tags away: the empty filter keeps
    every tag, any filter keeps a subset of the unfiltered tags, and a filter
    that contains another one keeps a subset of what the other keeps. *)
Theorem path_filter_narrows idx symbol :
  collect_def_tags idx symbol (Some "") = collect_def_tags idx symbol None ∧
  (∀ f, collect_def_tags idx symbol (Some f) ⊆ collect_def_tags idx symbol None) ∧
  (∀ f1 f2, is_substring f1 f2 →
     collect_def_tags idx symbol (Some f2) ⊆ collect_def_tags idx symbol (Some f1)).
Proof.
  destruct (decide (symbol = "")) as [->|Hsym]; [done|].
  split_and!.
  - apply set_eq. intros t. rewrite !(elem_of_collect_def_tags _ _ _ _ Hsym).
    split; intros (r & ? & Hf & ?); exists r; split_and!; try done.
    intros f [= <-]. apply str_contains_spec. by exists "", r.
  - intros f t. rewrite !(elem_of_collect_def_tags _ _ _ _ Hsym).
    intros (r & ? & _ & ?). by exists r.
  - intros f1 f2 Hsub t. rewrite !(elem_of_collect_def_tags _ _ _ _ Hsym).
    intros (r & ? & Hf & ?). exists r. split_and!; try done.
    intros f [= <-]. apply str_contains_spec.
    eapply is_substring_trans; [done|]. apply str_contains_spec. by apply Hf.
Qed.

(** * Further properties of the render cache *)

Section RenderCacheMore.

Context {TreeContext : Type} `{!TreeContextOps TreeContext}.
Implicit Types (st : NavState TreeContext) (s : LoopState TreeContext) (w : World).

#[global] Instance nav_grows_preorder : PreOrder (nav_grows (TreeContext:=TreeContext)).
Proof.
  split.
  - intros st. by repeat split.
  - intros st1 st2 st3 (? & ? & ?) (? & ? & ?). repeat split; by etrans.
Qed.

Lemma render_tree_grows w abs_file rel_file ls st :
  nav_grows st (render_tree w abs_file rel_file ls st).2.
Proof.
  split; [apply render_tree_mono|]. unfold render_tree.
  destruct (rendered_tree_cache st !! _) eqn:Hhit; simpl; [done|].
  destruct (file_context_cache st !! rel_file) as [[context m]|] eqn:Hc;
    [destruct (m <? _)|]; simpl; (split; [rewrite dom_insert; set_solver|]);
    try done; by apply prefix_app_r.
Qed.

Lemma flush_grows w s : nav_grows (nav s) (nav (flush w s)).
Proof.
  unfold flush. destruct (lois s) eqn:Hl.
  - by destruct (cur_rel_file s).
  - pose proof (render_tree_grows w (cur_abs_file s) (cur_rel_file s) (lois s) (nav s)).
    rewrite <- Hl. by destruct (render_tree _ _ _ _ _).
Qed.

Lemma render_sections_grows w sections out st :
  nav_grows st (render_sections w sections out st).2.
Proof.
  revert out st. induction sections as [|[[rel_file abs_file] ls] rest IH];
    intros out st; simpl; [done|].
  etrans; [|apply IH]. apply (flush_grows w (mkLoop rel_file abs_file ls out st)).
Qed.

Lemma tag_list_to_tree_grows w tags uel st :
  nav_grows st (tag_list_to_tree w tags uel st).2.
Proof.
  rewrite tag_list_to_tree_sections.
  pose proof (render_sections_grows w (file_sections uel tags) "" st).
  by destruct (render_sections _ _ _ _).
Qed.

(** X8. A query never takes anything out of the navigator: after
    [get_definitions_tree] or [get_references_tree] every rendered tree
    cached before is still cached with the same text, every file with a
    cached context still has one, and the read log has only grown at its
    end. *)
Theorem queries_only_add_to_caches w symbol rel_file_path use_end_line st out st' :
  get_definitions_tree w symbol rel_file_path use_end_line st = Ok (out, st') ∨
  get_references_tree w symbol st = Ok (out, st') →
  nav_grows st st'.
Proof.
  unfold get_definitions_tree, get_references_tree.
  destruct (get_parsed_tags w None None) as [idx|msg]; simpl; [|by intros [?|?]].
  intros [Hq|Hq].
  - pose proof (tag_list_to_tree_grows w
      (sort_by tag_key_leb (elements (collect_def_tags idx symbol rel_file_path)))
      use_end_line st) as Hg.
    destruct (tag_list_to_tree _ _ _ _). by injection Hq as _ <-.
  - pose proof (tag_list_to_tree_grows w
      (sort_by tag_key_leb (elements (collect_ref_tags idx symbol))) false st) as Hg.
    destruct (tag_list_to_tree _ _ _ _). by injection Hq as _ <-.
Qed.

(** *** The context cache behind the rendered trees *)

Lemma new_navigator_context_covers : context_covers (new_navigator (TreeContext:=TreeContext)).
Proof. intros ????. simpl. by rewrite lookup_empty. Qed.

Lemma render_tree_context_covers w abs_file rel_file ls st :
  context_covers st → context_covers (render_tree w abs_file rel_file ls st).2.
Proof.
  intros Hcov. unfold render_tree.
  destruct (rendered_tree_cache st !! _) eqn:Hhit; simpl; [done|].
  assert (∀ (c : TreeContext) m0 reads',
    get_modified_time w abs_file ≤ m0 →
    (∀ c' m', file_context_cache st !! rel_file = Some (c', m') → m' ≤ m0) →
    context_covers
      (mkNav (<[rel_file := (c, m0)]> (file_context_cache st))
             (<[(rel_file, sort_by Z.leb ls, get_modified_time w abs_file)
                := format c]> (rendered_tree_cache st))
             reads')) as Hins.
  { intros c m0 reads' Hm0 Hold r ls' m res. simpl.
    rewrite lookup_insert. case_decide as Hk.
    - injection Hk as <- _ <-. intros _. exists c, m0.
      by rewrite lookup_insert_eq.
    - intros (c' & m' & Hc' & Hle)%Hcov.
      destruct (decide (rel_file = r)) as [<-|Hne].
      + exists c, m0. rewrite lookup_insert_eq. split; [done|].
        specialize (Hold _ _ Hc'). lia.
      + exists c', m'. by rewrite lookup_insert_ne. }
  destruct (file_context_cache st !! rel_file) as [[context m]|] eqn:Hc.
  - destruct (m <? get_modified_time w abs_file) eqn:Hlt; simpl; apply Hins.
    + lia.
    + intros c' m' [= _ <-]. apply Z.ltb_lt in Hlt. lia.
    + apply Z.ltb_ge in Hlt. lia.
    + by intros c' m' [= _ <-].
  - simpl. apply Hins; [lia|done].
Qed.

Lemma run_renders_context_covers calls st :
  context_covers st → context_covers (run_renders calls st).
Proof.
  revert st. induction calls as [|[[[w abs_file] rel_file] ls] calls IH];
    intros st Hst; simpl; [done|].
  apply IH. by apply render_tree_context_covers.
Qed.

(* With a cached context as recent as the file, a render consults neither
   the text of the file nor anything else of the tree but the modification
   time. *)
Lemma render_tree_without_text w w2 abs_file rel_file ls st context m :
  file_context_cache st !! rel_file = Some (context, m) →
  get_modified_time w abs_file ≤ m →
  get_modified_time w2 abs_file = get_modified_time w abs_file →
  render_tree w2 abs_file rel_file ls st = render_tree w abs_file rel_file ls st ∧
  read_log (render_tree w abs_file rel_file ls st).2 = read_log st.
Proof.
  intros Hc Hle Hsame. unfold render_tree. rewrite Hsame, Hc.
  destruct (rendered_tree_cache st !! _) eqn:Hhit; simpl; [done|].
  apply Z.ltb_ge in Hle. by rewrite Hle.
Qed.

(** X9. Once a file was rendered at its present modification time, further
    renders of it, for whatever lines, do not read it: the read log stays as
    it is, and the result is the same in any tree that reports the same
    modification time for the file, whatever text the file has there. This
    holds in every state reached from a new navigator by calls of
    [render_tree]. *)
Theorem rendered_file_is_not_read_again calls w w2 abs_file rel_file ls1 ls2 :
  get_modified_time w2 abs_file = get_modified_time w abs_file →
  let st := run_renders calls new_navigator in
  let st1 := (render_tree w abs_file rel_file ls1 st).2 in
  render_tree w2 abs_file rel_file ls2 st1 = render_tree w abs_file rel_file ls2 st1 ∧
  read_log (render_tree w abs_file rel_file ls2 st1).2 = read_log st1.
Proof.
  intros Hsame st st1.
  assert (context_covers st1) as Hcov.
  { apply render_tree_context_covers, run_renders_context_covers,
      new_navigator_context_covers. }
  pose proof (render_tree_stores w abs_file rel_file ls1 st) as Hstored.
  fold st1 in Hstored. unfold tree_cache_key in Hstored.
  apply Hcov in Hstored as (context & m & Hc & Hle).
  by eapply render_tree_without_text.
Qed.

(** *** The key of the rendered-tree cache *)

Lemma sort_by_Z_Permutation (ls1 ls2 : list Z) :
  ls1 ≡ₚ ls2 → sort_by Z.leb ls1 = sort_by Z.leb ls2.
Proof.
  intros Hperm.
  assert (∀ ls, Sorted Z.le (sort_by Z.leb ls)) as Hsorted.
  { intros ls. eapply Sorted_weaken; [|apply sort_by_Sorted].
    - intros x y. apply Z.leb_le.
    - intros x y. rewrite !Z.leb_le. lia. }
  apply (Sorted_unique Z.le); [done..|].
  by rewrite !sort_by_Permutation.
Qed.

Lemma length_sort_by {A : Type} (leb : A → A → bool) (l : list A) :
  length (sort_by leb l) = length l.
Proof. by rewrite sort_by_Permutation. Qed.

(** X10. The order of the lines of interest does not matter to the cache,
    their repetition does: a render of the same file for a rearrangement of
    the lines just rendered returns the same text and leaves the state as it
    is, while a list with one more copy of a line has a different cache
    key. *)
Theorem render_cache_key_sorted_not_deduplicated w abs_file rel_file ls1 ls2 st :
  ls1 ≡ₚ ls2 →
  render_tree w abs_file rel_file ls2 (render_tree w abs_file rel_file ls1 st).2
  = render_tree w abs_file rel_file ls1 st ∧
  ∀ n ls,
    tree_cache_key w abs_file rel_file (n :: n :: ls)
    ≠ tree_cache_key w abs_file rel_file (n :: ls).
Proof.
  intros Hperm. split.
  - pose proof (render_tree_stores w abs_file rel_file ls1 st) as Hstored.
    destruct (render_tree w abs_file rel_file ls1 st) as [res st1] eqn:Hfirst.
    simpl in *. apply render_tree_hit.
    unfold tree_cache_key in *. by rewrite <- (sort_by_Z_Permutation ls1 ls2).
  - intros n ls Hkey. apply (f_equal (λ key, length key.1.2)) in Hkey.
    unfold tree_cache_key in Hkey. cbn [fst snd] in Hkey.
    rewrite !length_sort_by in Hkey. simpl in Hkey. lia.
Qed.

End RenderCacheMore.

(** * The cache does not change the answers *)

Section Transparency.

Context {TreeContext : Type} `{!TreeContextOps TreeContext}.
Implicit Types (st : NavState TreeContext) (s : LoopState TreeContext) (w : World).

Hypothesis Hforgets : renderer_forgets (TreeContext:=TreeContext).
Hypothesis Horder : renderer_order_blind (TreeContext:=TreeContext).

Variable w : World.
Variable abs_of : string → string.

Lemma new_navigator_faithful : cache_faithful w abs_of new_navigator.
Proof. split; intros *; simpl; by rewrite lookup_empty. Qed.

Lemma render_tree_faithful rel_file ls st :
  cache_faithful w abs_of st →
  (render_tree w (abs_of rel_file) rel_file ls st).1
  = fresh_rendering w (abs_of rel_file) rel_file ls ∧
  cache_faithful w abs_of (render_tree w (abs_of rel_file) rel_file ls st).2.
Proof using Hforgets Horder.
  intros [Hrend Hctx]. unfold render_tree.
  destruct (rendered_tree_cache st !! _) as [res|] eqn:Hhit; simpl.
  { split; [|by split]. apply Hrend in Hhit as [_ Hres]. by apply Hres. }
  assert (∀ (c : TreeContext) m0 reads',
    m0 = get_modified_time w (abs_of rel_file) →
    (∀ ls', format (render_with ls' c)
            = fresh_rendering w (abs_of rel_file) rel_file ls') →
    format (render_with ls c) = fresh_rendering w (abs_of rel_file) rel_file ls ∧
    cache_faithful w abs_of
      (mkNav (<[rel_file := (render_with ls c, m0)]> (file_context_cache st))
             (<[(rel_file, sort_by Z.leb ls, get_modified_time w (abs_of rel_file))
                := format (render_with ls c)]> (rendered_tree_cache st))
             reads')) as Hins.
  { intros c m0 reads' Hm0 Hc. split; [apply Hc|]. split; simpl.
    - intros r key m res. rewrite lookup_insert. case_decide as Hk.
      + injection Hk as <- <- <-. intros [= <-]. split; [done|].
        intros ls' Hls'. rewrite Hc. unfold fresh_rendering. by apply Horder.
      + apply Hrend.
    - intros r c' m. rewrite lookup_insert. case_decide as Hk.
      + subst r. intros [= <- <-]. split; [done|].
        intros ls'. rewrite Hforgets. apply Hc.
      + apply Hctx. }
  destruct (file_context_cache st !! rel_file) as [[context m]|] eqn:Hc.
  - destruct (Hctx _ _ _ Hc) as [-> Hfmt]. rewrite Z.ltb_irrefl. simpl.
    by apply Hins.
  - simpl. by apply Hins.
Qed.

Lemma flush_faithful rel_file ls out st1 st2 :
  cache_faithful w abs_of st1 → cache_faithful w abs_of st2 →
  output (flush w (mkLoop rel_file (abs_of rel_file) ls out st1))
  = output (flush w (mkLoop rel_file (abs_of rel_file) ls out st2)) ∧
  cache_faithful w abs_of (nav (flush w (mkLoop rel_file (abs_of rel_file) ls out st1))).
Proof using Hforgets Horder.
  intros Hf1 Hf2. unfold flush. simpl. destruct ls as [|l ls]; simpl.
  - by destruct rel_file.
  - destruct (render_tree_faithful rel_file (l :: ls) st1 Hf1) as [Hr1 Hf1'].
    destruct (render_tree_faithful rel_file (l :: ls) st2 Hf2) as [Hr2 _].
    destruct (render_tree w _ _ _ st1) as [res1 st1'].
    destruct (render_tree w _ _ _ st2) as [res2 st2']. simpl in *.
    split; [congruence|done].
Qed.

Lemma render_sections_faithful sections out st1 st2 :
  Forall (λ sec : FileSection, sec.1.2 = abs_of (sec_rel sec)) sections →
  cache_faithful w abs_of st1 → cache_faithful w abs_of st2 →
  (render_sections w sections out st1).1 = (render_sections w sections out st2).1 ∧
  cache_faithful w abs_of (render_sections w sections out st1).2.
Proof using Hforgets Horder.
  intros Hloc. revert out st1 st2.
  induction Hloc as [|[[rel_file abs_file] ls] rest Habs _ IH]; intros out st1 st2 Hf1 Hf2;
    simpl; [done|].
  unfold sec_rel in Habs. simpl in Habs. subst abs_file.
  destruct (flush_faithful rel_file ls out st1 st2 Hf1 Hf2) as [Hout Hf1'].
  destruct (flush_faithful rel_file ls out st2 st1 Hf2 Hf1) as [_ Hf2'].
  rewrite Hout. by apply IH.
Qed.

Lemma closed_sections_located uel rel_file ls tags :
  abs_of "" = "" →
  Forall (λ t, abs_path t = abs_of (rel_path t)) tags →
  Forall (λ sec : FileSection, sec.1.2 = abs_of (sec_rel sec))
         (closed_sections uel rel_file (abs_of rel_file) ls (tags ++ [dummy_tag])).
Proof.
  intros Hempty Htags. revert rel_file ls.
  induction Htags as [|t tags Ht _ IH]; intros rel_file ls; simpl.
  - case_bool_decide; repeat constructor.
  - case_bool_decide; [|apply IH]. constructor; [done|]. rewrite Ht. apply IH.
Qed.

Lemma tag_list_to_tree_faithful tags uel st1 st2 :
  abs_of "" = "" →
  Forall (λ t, abs_path t = abs_of (rel_path t)) tags →
  cache_faithful w abs_of st1 → cache_faithful w abs_of st2 →
  (tag_list_to_tree w tags uel st1).1 = (tag_list_to_tree w tags uel st2).1 ∧
  cache_faithful w abs_of (tag_list_to_tree w tags uel st1).2.
Proof using Hforgets Horder.
  intros Hempty Htags Hf1 Hf2. rewrite !tag_list_to_tree_sections.
  assert (Forall (λ sec : FileSection, sec.1.2 = abs_of (sec_rel sec))
                 (file_sections uel tags)) as Hloc.
  { unfold file_sections. rewrite <- Hempty at 2. by apply closed_sections_located. }
  destruct (render_sections_faithful (file_sections uel tags) "" st1 st2 Hloc Hf1 Hf2)
    as [Htext Hf1'].
  destruct (render_sections w _ "" st1), (render_sections w _ "" st2). simpl in *.
  by rewrite Htext.
Qed.

Lemma ask_faithful q st1 st2 :
  tags_located w abs_of →
  cache_faithful w abs_of st1 → cache_faithful w abs_of st2 →
  text_of (ask w q st1) = text_of (ask w q st2) ∧
  cache_faithful w abs_of
    (match ask w q st1 with Ok (_, st') => st' | Raise _ => st1 end).
Proof using Hforgets Horder.
  intros [Hempty Hloc] Hf1 Hf2.
  destruct (get_all_absolute_tracked_files w None) as [files|msg] eqn:Hlist.
  2:{ destruct q; simpl; unfold get_definitions_tree, get_references_tree,
        get_parsed_tags; simpl; by rewrite Hlist. }
  destruct (get_parsed_tags w None None) as [idx|msg] eqn:Hidx.
  2:{ destruct q; simpl; unfold get_definitions_tree, get_references_tree;
        by rewrite Hidx. }
  assert (∀ tags : gset ParsedTag,
    (∀ t, t ∈ tags → ∃ rel_file, parsed_in w files rel_file t) →
    Forall (λ t, abs_path t = abs_of (rel_path t))
           (sort_by tag_key_leb (elements tags))) as Hsorted.
  { intros tags Hin. apply Forall_forall. intros t.
    rewrite sort_by_elem_of, elem_of_elements.
    intros (rel_file & ?)%Hin. by eapply Hloc. }
  destruct q as [symbol rel_file_path use_end_line|symbol]; simpl.
  - unfold get_definitions_tree. rewrite Hidx. simpl.
    destruct (tag_list_to_tree_faithful
                (sort_by tag_key_leb (elements (collect_def_tags idx symbol rel_file_path)))
                use_end_line st1 st2 Hempty) as [Htext Hf1']; [|done..|].
    { apply Hsorted. intros t Hin.
      by apply (collect_def_tags_parsed w files idx symbol rel_file_path). }
    destruct (tag_list_to_tree w _ _ st1), (tag_list_to_tree w _ _ st2). simpl in *.
    by rewrite Htext.
  - unfold get_references_tree. rewrite Hidx. simpl.
    destruct (tag_list_to_tree_faithful
                (sort_by tag_key_leb (elements (collect_ref_tags idx symbol)))
                false st1 st2 Hempty) as [Htext Hf1']; [|done..|].
    { apply Hsorted. intros t Hin.
      by apply (collect_ref_tags_parsed w files idx symbol). }
    destruct (tag_list_to_tree w _ _ st1), (tag_list_to_tree w _ _ st2). simpl in *.
    by rewrite Htext.
Qed.

Lemma state_after_faithful qs st :
  tags_located w abs_of →
  cache_faithful w abs_of st → cache_faithful w abs_of (state_after w qs st).
Proof using Hforgets Horder.
  intros Hloc. revert st. induction qs as [|q qs IH]; intros st Hst; simpl; [done|].
  apply IH. by apply (ask_faithful q st st).
Qed.

End Transparency.

(** X11. In a tree that does not change, the answer to a query does not
    depend on the queries asked before: after any sequence of queries the
    navigator answers with the text a new navigator would give. This relies
    on what the cache takes for granted: a renderer whose output depends
    only on the lines of interest given last, whatever their order, and tags
    whose absolute path is determined by their relative path. *)
Theorem answers_independent_of_history {TreeContext : Type}
    `{!TreeContextOps TreeContext} (w : World) (abs_of : string → string)
    (qs : list Query) (q : Query) :
  renderer_forgets (TreeContext:=TreeContext) →
  renderer_order_blind (TreeContext:=TreeContext) →
  tags_located w abs_of →
  text_of (ask w q (state_after w qs (new_navigator (TreeContext:=TreeContext))))
  = text_of (ask w q (new_navigator (TreeContext:=TreeContext))).
Proof.
  intros Hforgets Horder Hloc.
  apply (ask_faithful Hforgets Horder w abs_of); [done| |].
  - apply state_after_faithful; [done..|]. apply new_navigator_faithful.
  - apply new_navigator_faithful.
Qed.

Lemma str_join_LF_chars (parts : list string) :
  Forall (λ part, Forall (λ c, is_linebreak c = false) (chars part)) parts →
  Forall (λ c, is_linebreak c = true → c = "010"%char) (chars (str_join LF parts)).
Proof.
  unfold str_join.
  assert (∀ part, Forall (λ c, is_linebreak c = false) (chars part) →
    Forall (λ c, is_linebreak c = true → c = "010"%char) (chars part)) as Hweak.
  { intros part Hpart. eapply Forall_impl; [exact Hpart|]. simpl. congruence. }
  induction 1 as [|part parts Hpart Hparts IH]; simpl; [constructor|].
  destruct parts as [|part' parts]; [by apply Hweak|].
  rewrite !chars_app. apply Forall_app. split; [by apply Hweak|].
  apply Forall_app. split; [by repeat constructor|done].
Qed.

Section TagListToTreeMore.

Context {TreeContext : Type} `{!TreeContextOps TreeContext}.
Implicit Types (st : NavState TreeContext) (w : World).

(** X12. Whatever line endings the rendered files use, the text built by
    [tag_list_to_tree] separates its lines by LF alone: no carriage return
    and no other line boundary character occurs in it. *)
Theorem file_sections_use_LF_only w tags use_end_line st :
  Forall (λ c, is_linebreak c = true → c = "010"%char)
         (chars (tag_list_to_tree w tags use_end_line st).1).
Proof.
  rewrite tag_list_to_tree_sections.
  destruct (render_sections w _ "" st) as [text st']. simpl.
  unfold truncate_lines. apply str_join_LF_chars, Forall_fmap.
  eapply Forall_impl; [apply splitlines_no_linebreak|].
  intros line Hline. by apply str_take_chars.
Qed.

Lemma render_sections_bare w sections out st :
  Forall (λ sec, sec_lois sec = []) sections →
  render_sections w sections out st
  = (out +:+ foldr (λ sec acc, bare_section_header sec +:+ acc) "" sections, st).
Proof.
  intros Hbare. revert out.
  induction Hbare as [|[[rel_file abs_file] ls] rest Hls _ IH]; intros out; simpl.
  - by rewrite str_app_empty_r.
  - unfold sec_lois in Hls. simpl in Hls. subst ls.
    unfold flush, bare_section_header, sec_rel. simpl.
    destruct rel_file as [|c rel_file]; simpl; rewrite IH; [done|].
    by rewrite !str_app_assoc.
Qed.

Lemma closed_sections_bare rel_file abs_file tags :
  Forall (λ t, tag_lois true t = []) tags →
  Forall (λ sec, sec_lois sec = [])
         (closed_sections true rel_file abs_file [] (tags ++ [dummy_tag])).
Proof.
  intros Htags. revert rel_file abs_file.
  induction Htags as [|t tags Ht _ IH]; intros rel_file abs_file.
  - simpl. case_bool_decide; repeat constructor.
  - rewrite <- app_comm_cons. cbn [closed_sections]. rewrite Ht.
    case_bool_decide; [|apply IH]. constructor; [done|]. apply IH.
Qed.

(** X13. Definition tags whose end line lies before their start line have
    no line of interest: [tag_list_to_tree] then renders nothing, leaves the
    state of the navigator untouched, and writes for each file section only
    an empty line and the line with its path. *)
Theorem inverted_ranges_render_nothing w tags st :
  Forall (λ t, end_line t < start_line t) tags →
  tag_list_to_tree w tags true st
  = (truncate_lines
       (foldr (λ sec acc, bare_section_header sec +:+ acc) "" (file_sections true tags)),
     st).
Proof.
  intros Hinv. rewrite tag_list_to_tree_sections, render_sections_bare; [done|].
  apply closed_sections_bare. eapply Forall_impl; [done|].
  intros t Ht. simpl in Ht. unfold tag_lois. apply seqZ_nil. lia.
Qed.

(** X14. The loop flushes a file section when the relative path changes, and
    its closing dummy tag has the empty relative path: tags whose relative
    path is empty therefore form a section that is never written when they
    are the only ones, and the result is the empty text with the state
    untouched. *)
Theorem tags_without_relative_path_dropped w tags use_end_line st :
  Forall (λ t, rel_path t = "") tags →
  tag_list_to_tree w tags use_end_line st = ("", st).
Proof.
  intros Hempty. rewrite tag_list_to_tree_sections. unfold file_sections.
  assert (∀ ls, closed_sections use_end_line "" "" ls (tags ++ [dummy_tag]) = [])
    as ->; [|done].
  induction Hempty as [|t tags Ht _ IH]; intros ls; simpl; [done|].
  rewrite Ht. case_bool_decide; [done|]. apply IH.
Qed.

End TagListToTreeMore.

(** * The further properties on the test tree *)

Lemma scan_files_test_world :
  scan_files test_world ["/repo/test_def.py"; "/repo/test_ref.py"] empty_index
  = Ok test_index.
Proof.
  apply (scan_files_all_ok test_world ["/repo/test_def.py"; "/repo/test_ref.py"]).
  repeat constructor; eexists; reflexivity.
Qed.

Lemma index_definitions_exact_witness :
  get_all_absolute_tracked_files test_world None
  = Ok ["/repo/test_def.py"; "/repo/test_ref.py"] ∧
  get_parsed_tags test_world None None = Ok test_index ∧
  ∀ rel_file ident,
    rel_file ∈ default ∅ (ident2defrels test_index !! ident) ↔
    ∃ t, parsed_in test_world ["/repo/test_def.py"; "/repo/test_ref.py"] rel_file t ∧
         tag_kind t = DEF ∧ node_content t = ident.
Proof.
  split_and!; [reflexivity|exact get_parsed_tags_test_world|].
  exact (proj2 (index_definitions_exact test_world _ test_index eq_refl
                  get_parsed_tags_test_world)).
Defined.

Lemma index_references_exact_witness :
  get_all_absolute_tracked_files test_world None
  = Ok ["/repo/test_def.py"; "/repo/test_ref.py"] ∧
  get_parsed_tags test_world None None = Ok test_index ∧
  default [] (ident2refrels test_index !! "TestSymbol") = ["test_ref.py"; "test_ref.py"].
Proof.
  split_and!; [reflexivity|exact get_parsed_tags_test_world|].
  rewrite (proj2 (index_references_exact test_world _ test_index eq_refl
                    get_parsed_tags_test_world) "TestSymbol").
  reflexivity.
Defined.

Lemma index_buckets_consistent_witness :
  get_parsed_tags test_world None None = Ok test_index ∧
  ∀ rel_file ident,
    rel_file ∈ default ∅ (ident2defrels test_index !! ident) ↔
    ∃ t, t ∈ default ∅ (identwrel2deftags test_index !! (rel_file, ident)).
Proof.
  split; [exact get_parsed_tags_test_world|].
  exact (proj1 (index_buckets_consistent test_world test_index
                  get_parsed_tags_test_world)).
Defined.

Lemma index_independent_of_scan_order_witness :
  scan_files test_world ["/repo/test_def.py"; "/repo/test_ref.py"] empty_index
  = Ok test_index ∧
  ["/repo/test_def.py"; "/repo/test_ref.py"] ≡ₚ ["/repo/test_ref.py"; "/repo/test_def.py"] ∧
  ∃ idx',
    scan_files test_world ["/repo/test_ref.py"; "/repo/test_def.py"] empty_index = Ok idx' ∧
    ident2defrels idx' = ident2defrels test_index ∧
    identwrel2deftags idx' = identwrel2deftags test_index ∧
    identwrel2reftags idx' = identwrel2reftags test_index ∧
    ∀ ident,
      default [] (ident2refrels idx' !! ident)
      ≡ₚ default [] (ident2refrels test_index !! ident).
Proof.
  assert (["/repo/test_def.py"; "/repo/test_ref.py"]
          ≡ₚ ["/repo/test_ref.py"; "/repo/test_def.py"]) as Hperm by apply perm_swap.
  split_and!; [exact scan_files_test_world|exact Hperm|].
  exact (index_independent_of_scan_order test_world _ _ test_index
           scan_files_test_world Hperm).
Defined.

Lemma definition_tags_exact_witness :
  get_all_absolute_tracked_files test_world None
  = Ok ["/repo/test_def.py"; "/repo/test_ref.py"] ∧
  get_parsed_tags test_world None None = Ok test_index ∧
  "TestSymbol" ≠ "" ∧
  ∀ t,
    t ∈ collect_def_tags test_index "TestSymbol" (Some "def") ↔
    ∃ rel_file,
      parsed_in test_world ["/repo/test_def.py"; "/repo/test_ref.py"] rel_file t ∧
      tag_kind t = DEF ∧ node_content t = "TestSymbol" ∧
      (∀ f, Some "def" = Some f → is_substring f rel_file).
Proof.
  assert ("TestSymbol" ≠ "") as Hsym by discriminate.
  split_and!; [reflexivity|exact get_parsed_tags_test_world|exact Hsym|].
  exact (definition_tags_exact test_world _ test_index "TestSymbol" (Some "def")
           eq_refl get_parsed_tags_test_world Hsym).
Defined.

Lemma reference_tags_exact_witness :
  get_all_absolute_tracked_files test_world None
  = Ok ["/repo/test_def.py"; "/repo/test_ref.py"] ∧
  get_parsed_tags test_world None None = Ok test_index ∧
  ∀ t,
    t ∈ collect_ref_tags test_index "TestSymbol" ↔
    ∃ rel_file,
      parsed_in test_world ["/repo/test_def.py"; "/repo/test_ref.py"] rel_file t ∧
      tag_kind t = REF ∧ node_content t = "TestSymbol".
Proof.
  split_and!; [reflexivity|exact get_parsed_tags_test_world|].
  exact (reference_tags_exact test_world _ test_index "TestSymbol"
           eq_refl get_parsed_tags_test_world).
Defined.

Lemma get_references_tree_returns {TreeContext : Type} `{!TreeContextOps TreeContext}
    (w : World) (symbol : string) (st : NavState TreeContext) (idx : Index) :
  get_parsed_tags w None None = Ok idx →
  ∃ out st', get_references_tree w symbol st = Ok (out, st').
Proof.
  intros Hidx. unfold get_references_tree. rewrite Hidx. simpl.
  destruct (tag_list_to_tree _ _ _ _) as [tree st']. by eexists _, _.
Qed.

Lemma queries_only_add_to_caches_witness :
  ∃ out0 st0 out st',
    get_definitions_tree test_world "TestSymbol" None true plain_navigator
    = Ok (out0, st0) ∧
    read_log st0 = ["/repo/test_def.py"] ∧
    is_Some (file_context_cache st0 !! "test_def.py") ∧
    get_references_tree test_world "TestSymbol" st0 = Ok (out, st') ∧
    read_log st' = ["/repo/test_def.py"; "/repo/test_ref.py"] ∧
    nav_grows st0 st'.
Proof.
  assert (read_log <$> state_of (get_definitions_tree test_world "TestSymbol" None
                                   true plain_navigator)
          = Some ["/repo/test_def.py"]) as Hlog0 by (vm_compute; reflexivity).
  assert ((λ st0, bool_decide (is_Some (file_context_cache st0 !! "test_def.py")))
            <$> state_of (get_definitions_tree test_world "TestSymbol" None true
                                               plain_navigator)
          = Some true) as Hctx0 by (vm_compute; reflexivity).
  assert (state_of (get_definitions_tree test_world "TestSymbol" None true
                                         plain_navigator)
            ≫= (λ st0, read_log
                         <$> state_of (get_references_tree test_world "TestSymbol" st0))
          = Some ["/repo/test_def.py"; "/repo/test_ref.py"]) as Hlog
    by (vm_compute; reflexivity).
  destruct (get_definitions_tree test_world "TestSymbol" None true plain_navigator)
    as [[out0 st0]|msg] eqn:Hfirst; [|discriminate].
  change (Some (read_log st0) = Some ["/repo/test_def.py"]) in Hlog0.
  change (Some (bool_decide (is_Some (file_context_cache st0 !! "test_def.py")))
          = Some true) in Hctx0.
  change (read_log <$> state_of (get_references_tree test_world "TestSymbol" st0)
          = Some ["/repo/test_def.py"; "/repo/test_ref.py"]) in Hlog.
  injection Hlog0 as Hlog0. injection Hctx0 as Hctx0.
  apply bool_decide_eq_true in Hctx0.
  destruct (get_references_tree_returns test_world "TestSymbol" st0
              test_index get_parsed_tags_test_world) as (out & st' & Hq).
  rewrite Hq in Hlog.
  change (Some (read_log st') = Some ["/repo/test_def.py"; "/repo/test_ref.py"])
    in Hlog.
  injection Hlog as Hlog.
  exists out0, st0, out, st'. split_and!; [reflexivity|exact Hlog0|exact Hctx0
                                          |exact Hq|exact Hlog|].
  exact (queries_only_add_to_caches test_world "TestSymbol" None true
           st0 out st' (or_intror Hq)).
Defined.

Lemma rendered_file_is_not_read_again_witness :
  get_modified_time unreadable_world "/repo/test_def.py"
  = get_modified_time test_world "/repo/test_def.py" ∧
  let st1 :=
    (render_tree test_world "/repo/test_def.py" "test_def.py" [0] plain_navigator).2 in
  render_tree unreadable_world "/repo/test_def.py" "test_def.py" [1; 2] st1
  = render_tree test_world "/repo/test_def.py" "test_def.py" [1; 2] st1 ∧
  read_log (render_tree test_world "/repo/test_def.py" "test_def.py" [1; 2] st1).2
  = read_log st1.
Proof.
  split; [reflexivity|].
  exact (rendered_file_is_not_read_again (TreeContext:=PlainContext) [] test_world
           unreadable_world "/repo/test_def.py" "test_def.py" [0] [1; 2] eq_refl).
Defined.

Lemma render_cache_key_sorted_not_deduplicated_witness :
  [1; 0] ≡ₚ [0; 1] ∧
  render_tree test_world "/repo/test_def.py" "test_def.py" [0; 1]
    (render_tree test_world "/repo/test_def.py" "test_def.py" [1; 0] plain_navigator).2
  = render_tree test_world "/repo/test_def.py" "test_def.py" [1; 0] plain_navigator.
Proof.
  assert ([1; 0] ≡ₚ [0; 1]) as Hperm by apply perm_swap.
  split; [exact Hperm|].
  exact (proj1 (render_cache_key_sorted_not_deduplicated test_world
                  "/repo/test_def.py" "test_def.py" [1; 0] [0; 1] plain_navigator Hperm)).
Defined.

Lemma plain_renderer_forgets : renderer_forgets (TreeContext:=PlainContext).
Proof. by intros ls ls' [lines lois show]. Qed.

Lemma plain_renderer_order_blind : renderer_order_blind (TreeContext:=PlainContext).
Proof.
  intros ls1 ls2 [lines lois show] Hsort.
  unfold render_with, format, plain_format. simpl.
  rewrite (sort_by_Z_Permutation (remove_dups ls1) (remove_dups ls2)); [done|].
  assert (ls1 ≡ₚ ls2) as Hperm.
  { rewrite <- (sort_by_Permutation Z.leb ls1), Hsort. apply sort_by_Permutation. }
  apply NoDup_Permutation; [apply NoDup_remove_dups..|].
  intros x. by rewrite !elem_of_remove_dups, Hperm.
Qed.

Lemma test_world_tags_located : tags_located test_world repo_abs_of.
Proof.
  split; [done|].
  intros files rel_file t [= <-] (abs_file & tags & Hin & <- & Htags & Ht).
  injection Htags as <-.
  repeat (apply elem_of_cons in Hin as [->|Hin]);
    [..|by apply elem_of_nil in Hin];
    repeat (apply elem_of_cons in Ht as [->|Ht]); try (by apply elem_of_nil in Ht);
    reflexivity.
Qed.

Lemma answers_independent_of_history_witness :
  renderer_forgets (TreeContext:=PlainContext) ∧
  renderer_order_blind (TreeContext:=PlainContext) ∧
  tags_located test_world repo_abs_of ∧
  text_of (ask test_world (Definitions "TestSymbol" None true)
             (state_after test_world
                [References "TestSymbol"; Definitions "test_method" None true]
                plain_navigator))
  = text_of (ask test_world (Definitions "TestSymbol" None true) plain_navigator).
Proof.
  split_and!; [exact plain_renderer_forgets|exact plain_renderer_order_blind|
               exact test_world_tags_located|].
  exact (answers_independent_of_history test_world repo_abs_of
           [References "TestSymbol"; Definitions "test_method" None true]
           (Definitions "TestSymbol" None true)
           plain_renderer_forgets plain_renderer_order_blind test_world_tags_located).
Defined.

Lemma inverted_ranges_render_nothing_witness :
  Forall (λ t, end_line t < start_line t) [mkTag "/repo/a.py" "a.py" "f" DEF 5 3] ∧
  tag_list_to_tree test_world [mkTag "/repo/a.py" "a.py" "f" DEF 5 3] true plain_navigator
  = (LF +:+ "a.py:", plain_navigator).
Proof.
  assert (Forall (λ t, end_line t < start_line t) [mkTag "/repo/a.py" "a.py" "f" DEF 5 3])
    as Hinv by (repeat constructor).
  split; [exact Hinv|].
  rewrite (inverted_ranges_render_nothing test_world _ plain_navigator Hinv).
  reflexivity.
Defined.

Lemma tags_without_relative_path_dropped_witness :
  Forall (λ t, rel_path t = "") [mkTag "/repo/a.py" "" "f" DEF 0 3] ∧
  tag_list_to_tree test_world [mkTag "/repo/a.py" "" "f" DEF 0 3] true plain_navigator
  = ("", plain_navigator).
Proof.
  assert (Forall (λ t, rel_path t = "") [mkTag "/repo/a.py" "" "f" DEF 0 3]) as Hempty
    by (repeat constructor).
  split; [exact Hempty|].
  exact (tags_without_relative_path_dropped test_world _ true plain_navigator Hempty).
Defined.

(** * Properties of the editor *)

(** ** More about Python's strings *)

Lemma length_str_app (s1 s2 : string) :
  String.length (s1 +:+ s2) = (String.length s1 + String.length s2)%nat.
Proof.
  induction s1 as [|c s1 IH]; [done|].
  change (String c s1 +:+ s2) with (String c (s1 +:+ s2)). simpl. by rewrite IH.
Qed.

Lemma count_from_skip sub (x rest : string) :
  count_from (String.length x) sub (x +:+ rest) = count_from O sub rest.
Proof. induction x as [|c x IH]; [done|]. apply IH. Qed.

Lemma replace_from_skip old new (x rest : string) :
  replace_from (String.length x) old new (x +:+ rest) = replace_from O old new rest.
Proof. induction x as [|c x IH]; [done|]. apply IH. Qed.

Lemma split_from_skip sep (x rest : string) :
  split_from (String.length x) sep (x +:+ rest) = split_from O sep rest.
Proof. induction x as [|c x IH]; [done|]. apply IH. Qed.

(* The scan at the start of an occurrence. *)
Lemma prefix_cons_inv sub c rest :
  sub ≠ "" → String.prefix sub (String c rest) = true →
  ∃ sub' post, sub = String c sub' ∧ rest = sub' +:+ post ∧
               (String.length sub - 1)%nat = String.length sub'.
Proof.
  intros Hne [post Hpost]%prefix_spec. destruct sub as [|c' sub']; [done|].
  injection Hpost as -> ->. exists sub', post. split_and!; [done..|]. simpl. lia.
Qed.

Lemma count_from_zero_replace old new s :
  old ≠ "" → count_from O old s = O → replace_from O old new s = s.
Proof.
  intros Hne. induction s as [|c s IH]; [done|]. cbn [count_from replace_from].
  destruct (String.prefix old (String c s)); [done|]. intros Hc. by rewrite IH.
Qed.

Lemma count_one_replace old new s :
  old ≠ "" → count_from O old s = 1%nat →
  ∃ pre post,
    s = pre +:+ old +:+ post ∧
    replace_from O old new s = pre +:+ new +:+ post ∧
    count_from O old post = O ∧
    head (split_from O old s) = Some pre.
Proof.
  intros Hne. induction s as [|c s IH]; [done|]. cbn [count_from replace_from split_from].
  destruct (String.prefix old (String c s)) eqn:Hp.
  - destruct (prefix_cons_inv old c s Hne Hp) as (old' & post & -> & -> & ->).
    rewrite count_from_skip, replace_from_skip. intros [= Hpost].
    exists "", post. split_and!; try done.
    by rewrite (count_from_zero_replace _ _ _ Hne Hpost).
  - intros (pre & post & -> & Hrep & Hpost & Hhead)%IH.
    exists (String c pre), post. rewrite Hrep. split_and!; try done.
    destruct (split_from O old _); by simplify_eq/=.
Qed.

(** ** The methods of the editor *)

Section EditorProperties.

Context {FS TreeContext : Type} `{!TreeContextOps TreeContext}.
Variable env : Env FS.
Implicit Types (st : Editor.State (FS:=FS) (TreeContext:=TreeContext)).

Ltac unfold_editor :=
  unfold Editor.str_replace, Editor.insert, Editor.undo_edit, Editor.view,
    Editor.jump_to_definition, Editor.find_references, Editor.validate_path,
    Editor._populate_file_history_if_having_content_before_edit, Editor.the_path,
    Editor.navigate, Editor.read_file, Editor.write_file, Editor.history_of,
    Editor.history_append, Editor.history_pop, Editor.exists_, Editor.is_dir,
    Editor.ret, Editor.raise, mbind, Editor.M_bind, Editor.bind in *.

(* Filling the history reads the file at most; it writes nothing. *)
Lemma populate_spec path st :
  ∃ h,
    (Editor._populate_file_history_if_having_content_before_edit env path st).2
    = Editor.mkState (<[path := h]> (Editor.file_history st)) (Editor.files st)
                     (Editor.navigator st) ∧
    match (Editor._populate_file_history_if_having_content_before_edit env path st).1 with
    | inr _ =>
        h = match default [] (Editor.file_history st !! path) with
            | [] => if path_exists env (Editor.files st) path
                    then match path_read_text env (Editor.files st) path with
                         | Ok text => [text]
                         | Raise _ => []
                         end
                    else []
            | h0 => h0
            end
    | inl _ => h = []
    end.
Proof.
  unfold_editor. destruct st as [hist fs nav]. simpl.
  destruct (hist !! path) as [[|x h0]|] eqn:Hh; simpl.
  - destruct (path_exists env fs path); simpl.
    + destruct (path_read_text env fs path); simpl.
      * eexists. split; [|done]. by rewrite Hh.
      * exists []. split; [|done]. by rewrite insert_id.
    + exists []. split; [|done]. by rewrite insert_id.
  - exists (x :: h0). split; [|done]. by rewrite insert_id.
  - destruct (path_exists env fs path); simpl.
    + destruct (path_read_text env fs path); simpl.
      * eexists. split; [|done]. by rewrite lookup_insert_eq, insert_insert_eq.
      * by exists [].
    + by exists [].
Qed.

Lemma populate_success path st u stp :
  Editor._populate_file_history_if_having_content_before_edit env path st = (inr u, stp) →
  stp = Editor.mkState (<[path := populated env path st]> (Editor.file_history st))
                       (Editor.files st) (Editor.navigator st).
Proof.
  intros Hrun. destruct (populate_spec path st) as (h & Hst & Hh).
  rewrite Hrun in Hst, Hh. simpl in *. by subst.
Qed.

Lemma str_replace_success_inv path old_str new_str st r st1 :
  Editor.str_replace env path old_str new_str st = (inr r, st1) →
  let old := expandtabs old_str in
  let new := from_option expandtabs "" new_str in
  ∃ file_content pre post,
    path_read_text env (Editor.files st) path = Ok file_content ∧
    old ≠ "" ∧
    count_from O old file_content = 1%nat ∧
    file_content = pre +:+ old +:+ post ∧
    count_from O old post = O ∧
    path_write_text env (Editor.files st) path (pre +:+ new +:+ post)
    = (Editor.files st1, None) ∧
    Editor.file_history st1
    = <[path := populated env path st ++ [pre +:+ new +:+ post]]> (Editor.file_history st) ∧
    Editor.navigator st1 = Editor.navigator st.
Proof.
  intros Hrun old new. unfold Editor.str_replace in Hrun.
  unfold mbind at 1, Editor.M_bind, Editor.bind in Hrun.
  destruct (Editor._populate_file_history_if_having_content_before_edit env path st)
    as [[e|[]] stp] eqn:Hpop; [done|]. apply populate_success in Hpop. subst stp.
  unfold_editor. simpl in Hrun.
  destruct (path_read_text env (Editor.files st) path) as [file_content|e]; [|done].
  fold old new in Hrun.
  case_bool_decide as H0; [done|]. case_bool_decide as H1; [done|].
  assert (str_count old file_content = 1%nat) as Hcount by lia.
  simpl in Hrun.
  destruct (path_write_text env (Editor.files st) path _) as [fs1 [e|]] eqn:Hw;
    [done|].
  simpl in Hrun. rewrite lookup_insert_eq in Hrun. simpl in Hrun.
  destruct (str_split old file_content) as [pieces|] eqn:Hsplit; [|done].
  injection Hrun as _ <-. simpl.
  assert (old ≠ "") as Hne by (intros Heq; by rewrite Heq in Hsplit).
  assert (count_from O old file_content = 1%nat) as Hcount'.
  { unfold str_count in Hcount. by destruct old. }
  destruct (count_one_replace old new file_content Hne Hcount')
    as (pre & post & Hcontent & Hrep & Hpost & _).
  assert (str_replace_all old new file_content = pre +:+ new +:+ post) as Hall.
  { unfold str_replace_all. by destruct old. }
  rewrite Hall in Hw. exists file_content, pre, post. split_and!; try done.
  by rewrite insert_insert_eq, Hall.
Qed.

(** X15. A successful [str_replace] has found the tab-expanded [old_str]
    exactly once in the text of the file, counting from the left without
    overlap: the text is [pre + old + post] with no further occurrence in
    [post], the text written to the file is [pre + new + post], and this text
    is the last entry of the history of the path. *)
Theorem str_replace_replaces_one_occurrence path old_str new_str st r st1 :
  Editor.str_replace env path old_str new_str st = (inr r, st1) →
  let old := expandtabs old_str in
  let new := from_option expandtabs "" new_str in
  ∃ file_content pre post,
    path_read_text env (Editor.files st) path = Ok file_content ∧
    old ≠ "" ∧
    str_count old file_content = 1%nat ∧
    file_content = pre +:+ old +:+ post ∧
    str_count old post = O ∧
    path_write_text env (Editor.files st) path (pre +:+ new +:+ post)
    = (Editor.files st1, None) ∧
    last (default [] (Editor.file_history st1 !! path)) = Some (pre +:+ new +:+ post).
Proof.
  intros Hrun old new.
  destruct (str_replace_success_inv path old_str new_str st r st1 Hrun)
    as (file_content & pre & post & Hread & Hne & Hcount & Hcontent & Hpost & Hw & Hh & _).
  fold old new in Hne, Hcount, Hcontent, Hpost, Hw, Hh.
  exists file_content, pre, post.
  assert (∀ t, str_count old t = count_from O old t) as Hsc.
  { intros t. unfold str_count. by destruct old. }
  rewrite !Hsc. split_and!; try done.
  rewrite Hh, lookup_insert_eq. simpl. apply last_snoc.
Qed.

Lemma py_slice_take {A : Type} (l : list A) (n : Z) :
  0 ≤ n ≤ Z.of_nat (length l) → py_slice l None (Some n) = take (Z.to_nat n) l.
Proof.
  intros Hn. unfold py_slice, slice_index. simpl.
  assert ((n <? 0) = false) as -> by lia. rewrite drop_0. f_equal. lia.
Qed.

Lemma py_slice_drop {A : Type} (l : list A) (n : Z) :
  0 ≤ n ≤ Z.of_nat (length l) → py_slice l (Some n) None = drop (Z.to_nat n) l.
Proof.
  intros Hn. unfold py_slice, slice_index. simpl.
  assert ((n <? 0) = false) as -> by lia.
  rewrite take_ge; [f_equal; lia|]. rewrite length_drop. lia.
Qed.

Lemma insert_success_inv path insert_line new_str st r st1 :
  Editor.insert env path insert_line new_str st = (inr r, st1) →
  ∃ file_text,
    path_read_text env (Editor.files st) path = Ok file_text ∧
    0 ≤ insert_line ≤ Z.of_nat (length (split_lines (expandtabs file_text))) ∧
    path_write_text env (Editor.files st) path
      (String.concat LF (inserted_lines file_text insert_line new_str))
    = (Editor.files st1, None) ∧
    Editor.file_history st1
    = <[path := populated env path st
                ++ [String.concat LF (inserted_lines file_text insert_line new_str)]]>
        (Editor.file_history st) ∧
    Editor.navigator st1 = Editor.navigator st.
Proof.
  intros Hrun. unfold Editor.insert in Hrun.
  unfold mbind at 1, Editor.M_bind, Editor.bind in Hrun.
  destruct (Editor._populate_file_history_if_having_content_before_edit env path st)
    as [[e|[]] stp] eqn:Hpop; [done|]. apply populate_success in Hpop. subst stp.
  unfold_editor. simpl in Hrun.
  destruct (path_read_text env (Editor.files st) path) as [file_text|e]; [|done].
  simpl in Hrun.
  destruct ((insert_line <? 0) || _) eqn:Hrange; [done|].
  apply orb_false_elim in Hrange as [Hlo Hhi].
  apply Z.ltb_ge in Hlo. apply Z.ltb_ge in Hhi.
  rewrite py_slice_take, py_slice_drop in Hrun by lia.
  fold (inserted_lines file_text insert_line new_str) in Hrun.
  cbn [Editor.files Editor.file_history Editor.navigator] in Hrun.
  destruct (path_write_text env (Editor.files st) path
              (String.concat LF (inserted_lines file_text insert_line new_str)))
    as [fs1 [e|]] eqn:Hw; [done|].
  simpl in Hrun. rewrite lookup_insert_eq in Hrun. simpl in Hrun.
  injection Hrun as _ <-. simpl. exists file_text. split_and!; try done; try lia.
  by rewrite insert_insert_eq.
Qed.

Lemma split_lines_lines_lf s : split_lines s = lines_lf s.
Proof.
  unfold split_lines, LF. induction s as [|c s IH]; [done|].
  cbn [split_from lines_lf String.prefix String.length Nat.sub]. unfold is_LF.
  destruct (ascii_dec "010" c) as [<-|Hne].
  - assert (String.prefix "" s = true) as -> by (by destruct s).
    by rewrite IH.
  - assert (Ascii.eqb c "010" = false) as -> by (by apply Ascii.eqb_neq).
    by rewrite IH.
Qed.

Lemma lines_lf_chars (P : ascii → Prop) s :
  Forall P (chars s) → Forall (λ line, Forall P (chars line)) (lines_lf s).
Proof.
  induction s as [|c s IH]; simpl; [by repeat constructor|].
  intros [Hc Hs]%Forall_cons. specialize (IH Hs). destruct (is_LF c).
  - by repeat constructor.
  - pose proof (lines_lf_nonempty s).
    destruct (lines_lf s) as [|line lines]; [done|].
    apply Forall_cons in IH as [??]. constructor; [by constructor|done].
Qed.

Lemma lines_lf_no_LF s :
  Forall (λ line, Forall (λ c, is_LF c = false) (chars line)) (lines_lf s).
Proof.
  induction s as [|c s IH]; simpl; [by repeat constructor|].
  destruct (is_LF c) eqn:Hc.
  - by repeat constructor.
  - pose proof (lines_lf_nonempty s).
    destruct (lines_lf s) as [|line lines]; [done|].
    apply Forall_cons in IH as [??]. constructor; [by constructor|done].
Qed.

Lemma chars_spaces n : Forall (λ c, c ≠ TAB) (chars (spaces n)).
Proof. induction n; simpl; constructor; done. Qed.

Lemma expandtabs_no_tab s : Forall (λ c, c ≠ TAB) (chars (expandtabs s)).
Proof.
  unfold expandtabs. generalize O.
  induction s as [|c s IH]; intros col; simpl; [constructor|].
  destruct (Ascii.eqb c TAB) eqn:Hc.
  - rewrite chars_app. apply Forall_app. split; [apply chars_spaces|apply IH].
  - apply Ascii.eqb_neq in Hc. destruct (is_LF c || is_CR c); by constructor.
Qed.

Lemma chars_concat (P : ascii → Prop) (sep : string) (ls : list string) :
  Forall P (chars sep) → Forall (λ line, Forall P (chars line)) ls →
  Forall P (chars (String.concat sep ls)).
Proof.
  intros Hsep. induction 1 as [|x ls Hx Hls IH]; simpl; [constructor|].
  destruct ls as [|y ls]; [done|].
  rewrite !chars_app, !Forall_app. by split_and!.
Qed.

(** X16. After a successful [insert] the file holds, line by line, the first
    [insert_line] lines of its former text, then the lines of [new_str],
    then its remaining lines, all with their tabs expanded: no tab character
    is left anywhere in the file, also in the lines that were not touched. *)
Theorem insert_places_lines path insert_line new_str st r st1 :
  Editor.insert env path insert_line new_str st = (inr r, st1) →
  ∃ file_text new_file_text,
    path_read_text env (Editor.files st) path = Ok file_text ∧
    0 ≤ insert_line ≤ Z.of_nat (length (split_lines (expandtabs file_text))) ∧
    path_write_text env (Editor.files st) path new_file_text
    = (Editor.files st1, None) ∧
    split_lines new_file_text = inserted_lines file_text insert_line new_str ∧
    length (split_lines new_file_text)
    = (length (split_lines (expandtabs file_text))
       + length (split_lines (expandtabs new_str)))%nat ∧
    Forall (λ c, c ≠ TAB) (chars new_file_text).
Proof.
  intros (file_text & Hread & Hrange & Hw & _)%insert_success_inv.
  exists file_text, (String.concat LF (inserted_lines file_text insert_line new_str)).
  assert (Forall (λ line, Forall (λ c, is_LF c = false ∧ c ≠ TAB) (chars line))
                 (inserted_lines file_text insert_line new_str)) as Hlines.
  { assert (∀ t, Forall (λ line, Forall (λ c, is_LF c = false ∧ c ≠ TAB) (chars line))
                        (split_lines (expandtabs t))) as Hsplit.
    { intros t. rewrite split_lines_lines_lf.
      pose proof (lines_lf_no_LF (expandtabs t)) as H1.
      pose proof (lines_lf_chars _ _ (expandtabs_no_tab t)) as H2.
      rewrite Forall_forall in H1, H2. apply Forall_forall. intros line Hin.
      specialize (H1 _ Hin). specialize (H2 _ Hin).
      rewrite Forall_forall in H1, H2. apply Forall_forall. intros c Hc.
      split; [by apply H1|by apply H2]. }
    unfold inserted_lines. rewrite !Forall_app. split_and!; [|done|].
    - by apply Forall_take.
    - by apply Forall_drop. }
  assert (inserted_lines file_text insert_line new_str ≠ []) as Hne.
  { unfold inserted_lines. rewrite split_lines_lines_lf.
    pose proof (lines_lf_nonempty (expandtabs new_str)).
    intros Heq. apply app_eq_nil in Heq as [_ Heq].
    apply app_eq_nil in Heq as [Heq _]. by rewrite split_lines_lines_lf in Heq. }
  split; [done|]. split; [done|]. split; [done|]. split_and!.
  - rewrite split_lines_lines_lf. apply lines_lf_concat; [done|].
    eapply Forall_impl; [exact Hlines|]. intros line Hline.
    eapply Forall_impl; [exact Hline|]. by intros c [? _].
  - rewrite split_lines_lines_lf, lines_lf_concat; [| done |].
    + unfold inserted_lines. rewrite !length_app, length_take, length_drop. lia.
    + eapply Forall_impl; [exact Hlines|]. intros line Hline.
      eapply Forall_impl; [exact Hline|]. by intros c [? _].
  - apply chars_concat; [by repeat constructor|].
    eapply Forall_impl; [exact Hlines|]. intros line Hline.
    eapply Forall_impl; [exact Hline|]. by intros c [_ ?].
Qed.

Lemma undo_edit_two_entries path st h x y :
  Editor.file_history st !! path = Some (h ++ [x; y]) →
  Editor.undo_edit env path st
  = (match (path_write_text env (Editor.files st) path x).2 with
     | None =>
         inr (Editor.mkResult Editor.CLIResult
                ("Last edit to " +:+ path +:+ " undone successfully. "
                 +:+ Editor._make_output env x path 1 true)
                None)
     | Some e =>
         inl (Editor.ToolError ("Ran into " +:+ e +:+ " while trying to write to "
                                +:+ path))
     end,
     Editor.mkState (<[path := h ++ [x]]> (Editor.file_history st))
                    (path_write_text env (Editor.files st) path x).1
                    (Editor.navigator st)).
Proof.
  intros Hh. unfold_editor. rewrite Hh. simpl.
  case_bool_decide as Hlen; [rewrite length_app in Hlen; simpl in Hlen; lia|].
  simpl. rewrite Hh, lookup_insert_eq. simpl.
  assert (removelast (h ++ [x; y]) = h ++ [x]) as ->.
  { change [x; y] with ([x] ++ [y]). by rewrite app_assoc, removelast_last. }
  rewrite last_snoc. simpl.
  by destruct (path_write_text env (Editor.files st) path x) as [fs' [e|]].
Qed.

(** X17. The first successful edit of an existing file, by [str_replace] or
    by [insert], can be undone: [undo_edit] then writes back the text the
    file had when the edit began and leaves that text as the only entry of
    the history. When this write raises, [undo_edit] raises, the file
    system is the one the failed write left (the file may be empty by then),
    and the entry of the edit is gone from the history all the same. *)
Theorem undo_restores_first_edit path old_str new_str insert_line ins_str st r st1 :
  default [] (Editor.file_history st !! path) = [] →
  path_exists env (Editor.files st) path = true →
  Editor.str_replace env path old_str new_str st = (inr r, st1) ∨
  Editor.insert env path insert_line ins_str st = (inr r, st1) →
  ∃ original,
    path_read_text env (Editor.files st) path = Ok original ∧
    Editor.undo_edit env path st1
    = (match (path_write_text env (Editor.files st1) path original).2 with
       | None =>
           inr (Editor.mkResult Editor.CLIResult
                  ("Last edit to " +:+ path +:+ " undone successfully. "
                   +:+ Editor._make_output env original path 1 true)
                  None)
       | Some e =>
           inl (Editor.ToolError ("Ran into " +:+ e +:+ " while trying to write to "
                                  +:+ path))
       end,
       Editor.mkState (<[path := [original]]> (Editor.file_history st1))
                      (path_write_text env (Editor.files st1) path original).1
                      (Editor.navigator st)).
Proof.
  intros Hempty Hexists Hedit.
  assert (∃ original new_text,
    path_read_text env (Editor.files st) path = Ok original ∧
    Editor.file_history st1
    = <[path := populated env path st ++ [new_text]]> (Editor.file_history st) ∧
    Editor.navigator st1 = Editor.navigator st) as (original & new_text & Hread & Hh & Hnav).
  { destruct Hedit as [Hedit|Hedit].
    - apply str_replace_success_inv in Hedit
        as (original & pre & post & ? & _ & _ & _ & _ & _ & ? & ?).
      by eexists _, _.
    - apply insert_success_inv in Hedit as (original & ? & _ & _ & ? & ?).
      by eexists _, _. }
  exists original. split; [done|].
  assert (populated env path st = [original]) as Hpop.
  { unfold populated. by rewrite Hempty, Hexists, Hread. }
  rewrite Hpop in Hh.
  rewrite (undo_edit_two_entries path st1 [] original new_text), Hnav;
    [done|]. by rewrite Hh, lookup_insert_eq.
Qed.

(** *** What the methods leave alone *)

#[local] Existing Instance Editor.M_bind.

Lemma validate_path_state command path st :
  (Editor.validate_path env command path st).2 = st.
Proof. unfold_editor. by repeat (case_match; simpl). Qed.

(* [view] changes no history; the file system after it is the one before
   unless the path is a directory and the shell was run, which happens only
   when [view] returns. *)
Lemma view_frame path view_range st :
  Editor.file_history (Editor.view env path view_range st).2 = Editor.file_history st ∧
  ((Editor.view env path view_range st).2 = st ∨
   (path_is_dir env (Editor.files st) path = true ∧
    is_Some (returned (Editor.view env path view_range st)) ∧
    Editor.files (Editor.view env path view_range st).2
    = (run_shell_cmd env (Editor.files st)
         ("find " +:+ path +:+ " -maxdepth 2 -not -path '*/\.*'")).2)).
Proof.
  unfold_editor. unfold returned. simpl.
  destruct (path_is_dir env (Editor.files st) path); simpl.
  - destruct view_range as [[|??]|]; simpl; try (by split; [|left]).
    + destruct (run_shell_cmd env _ _) as [[[??] ?] ?]. simpl.
      split; [done|]. right. split_and!; [done|by eexists|done].
    + destruct (run_shell_cmd env _ _) as [[[??] ?] ?]. simpl.
      split; [done|]. right. split_and!; [done|by eexists|done].
  - destruct (path_read_text env (Editor.files st) path); simpl; [|by split; [|left]].
    destruct view_range as [[|lo [|hi [|??]]]|]; simpl; try (by split; [|left]).
    repeat (case_match; simpl); by split; [|left].
Qed.

Lemma view_raise_state path view_range st e st' :
  Editor.view env path view_range st = (inl e, st') → st' = st.
Proof.
  intros Hview. destruct (view_frame path view_range st) as [_ [Hst|(_ & Hret & _)]].
  - by rewrite Hview in Hst.
  - rewrite Hview in Hret. by destruct Hret as [? [=]].
Qed.

Lemma navigate_frame query st :
  Editor.files (Editor.navigate query st).2 = Editor.files st ∧
  Editor.file_history (Editor.navigate query st).2 = Editor.file_history st.
Proof. unfold_editor. by destruct (query _) as [[??]|?]. Qed.

Lemma jump_to_definition_frame w path symbol_name st :
  Editor.files (Editor.jump_to_definition env w path symbol_name st).2 = Editor.files st ∧
  Editor.file_history (Editor.jump_to_definition env w path symbol_name st).2
  = Editor.file_history st.
Proof.
  unfold Editor.jump_to_definition. destruct path as [path|].
  - destruct (path_relative_to env path _); [|done].
    unfold mbind, Editor.M_bind, Editor.bind.
    pose proof (navigate_frame
      (get_definitions_tree w symbol_name (Some a) true) st) as Hnav.
    by destruct (Editor.navigate _ st) as [[?|?] ?].
  - unfold mbind, Editor.M_bind, Editor.bind.
    pose proof (navigate_frame (get_definitions_tree w symbol_name None true) st) as Hnav.
    by destruct (Editor.navigate _ st) as [[?|?] ?].
Qed.

Lemma find_references_frame w symbol_name st :
  Editor.files (Editor.find_references w symbol_name st).2 = Editor.files st ∧
  Editor.file_history (Editor.find_references w symbol_name st).2
  = Editor.file_history st.
Proof.
  unfold Editor.find_references, mbind, Editor.M_bind, Editor.bind.
  pose proof (navigate_frame (get_references_tree w symbol_name) st) as Hnav.
  by destruct (Editor.navigate _ st) as [[?|?] ?].
Qed.

Lemma populate_files path st :
  Editor.files (Editor._populate_file_history_if_having_content_before_edit env path st).2
  = Editor.files st.
Proof. destruct (populate_spec path st) as (h & -> & _). done. Qed.

Lemma expandtabs_nonempty s : s ≠ "" → expandtabs s ≠ "".
Proof.
  destruct s as [|c s]; [done|]. intros _. unfold expandtabs. simpl.
  destruct (Ascii.eqb c TAB); [done|]. by destruct (is_LF c || is_CR c).
Qed.

(* A method that raises leaves the file system as it was, unless what it
   raises is the error of its write: then the file system is the one that
   write left. *)
Lemma write_file_raise path file_text st e st' :
  Editor.write_file env path file_text st = (inl e, st') →
  ∃ msg,
    path_write_text env (Editor.files st) path file_text = (Editor.files st', Some msg) ∧
    e = Editor.ToolError ("Ran into " +:+ msg +:+ " while trying to write to " +:+ path).
Proof.
  unfold Editor.write_file.
  destruct (path_write_text env (Editor.files st) path file_text) as [fs' [msg|]];
    [|done].
  intros [= <- <-]. by exists msg.
Qed.

Lemma str_replace_raise_files path old_str new_str st e st' :
  expandtabs old_str ≠ "" →
  Editor.str_replace env path old_str new_str st = (inl e, st') →
  Editor.files st' = Editor.files st ∨
  ∃ text msg,
    path_write_text env (Editor.files st) path text = (Editor.files st', Some msg) ∧
    e = Editor.ToolError ("Ran into " +:+ msg +:+ " while trying to write to " +:+ path).
Proof.
  intros Hne. unfold Editor.str_replace.
  unfold mbind at 1, Editor.M_bind, Editor.bind.
  pose proof (populate_files path st) as Hpop.
  destruct (Editor._populate_file_history_if_having_content_before_edit env path st)
    as [[e0|[]] stp]; simpl in Hpop; [by intros [= _ <-]; left|].
  unfold Editor.read_file. unfold mbind at 1, Editor.M_bind, Editor.bind.
  destruct (path_read_text env (Editor.files stp) path) as [file_content|e0];
    [|by intros [= _ <-]; left].
  cbv zeta.
  case_bool_decide; [by intros [= _ <-]; left|].
  case_bool_decide; [by intros [= _ <-]; left|].
  unfold mbind at 1, Editor.M_bind, Editor.bind.
  destruct (Editor.write_file env path _ stp) as [[e1|[]] stw] eqn:Hwrite.
  - intros [= <- <-]. right.
    apply write_file_raise in Hwrite as (msg & Hw & ->). rewrite Hpop in Hw.
    by eexists _, _.
  - unfold Editor.history_append, mbind, Editor.M_bind, Editor.bind.
    destruct (str_split (expandtabs old_str) file_content) eqn:Hsplit; [done|].
    unfold str_split in Hsplit. by destruct (expandtabs old_str).
Qed.

Lemma insert_raise_files path insert_line new_str st e st' :
  Editor.insert env path insert_line new_str st = (inl e, st') →
  Editor.files st' = Editor.files st ∨
  ∃ text msg,
    path_write_text env (Editor.files st) path text = (Editor.files st', Some msg) ∧
    e = Editor.ToolError ("Ran into " +:+ msg +:+ " while trying to write to " +:+ path).
Proof.
  unfold Editor.insert. unfold mbind at 1, Editor.M_bind, Editor.bind.
  pose proof (populate_files path st) as Hpop.
  destruct (Editor._populate_file_history_if_having_content_before_edit env path st)
    as [[e0|[]] stp]; simpl in Hpop; [by intros [= _ <-]; left|].
  unfold Editor.read_file. unfold mbind at 1, Editor.M_bind, Editor.bind.
  destruct (path_read_text env (Editor.files stp) path) as [file_text|e0];
    [|by intros [= _ <-]; left].
  cbv zeta.
  destruct ((insert_line <? 0) || _); [by intros [= _ <-]; left|].
  unfold mbind at 1, Editor.M_bind, Editor.bind.
  destruct (Editor.write_file env path _ stp) as [[e1|[]] stw] eqn:Hwrite; [|done].
  intros [= <- <-]. right.
  apply write_file_raise in Hwrite as (msg & Hw & ->). rewrite Hpop in Hw.
  by eexists _, _.
Qed.

Lemma undo_edit_raise_files path st e st' :
  Editor.undo_edit env path st = (inl e, st') →
  Editor.files st' = Editor.files st ∨
  ∃ text msg,
    path_write_text env (Editor.files st) path text = (Editor.files st', Some msg) ∧
    e = Editor.ToolError ("Ran into " +:+ msg +:+ " while trying to write to " +:+ path).
Proof.
  unfold_editor. destruct (Editor.file_history st !! path) as [h|]; simpl.
  - case_bool_decide; [by intros [= _ <-]; left|]. simpl.
    rewrite lookup_insert_eq. simpl.
    destruct (path_write_text env (Editor.files st) path _) as [fs' [msg|]] eqn:Hw;
      simpl; [|done].
    intros [= <- <-]. right. by eexists _, _.
  - by intros [= _ <-]; left.
Qed.

(* The first step of [__call__]: the path is checked, and the state stays. *)
Lemma validated_path_cases command path st validated :
  validated
  = match path with
    | Some path =>
        let _path := Path_of env path in
        Editor.validate_path env command _path;; Editor.ret (Some _path)
    | None => Editor.ret None
    end st →
  (∃ e, validated = (inl e, st)) ∨
  (match path with
   | Some p => Editor.validate_path env command (Path_of env p) st = (inr (), st)
   | None => True
   end ∧ validated = (inr (Path_of env <$> path), st)).
Proof.
  intros ->. destruct path as [p|]; [|by right]. cbv zeta.
  unfold mbind, Editor.M_bind, Editor.bind.
  pose proof (validate_path_state command (Path_of env p) st) as Hst.
  destruct (Editor.validate_path env command (Path_of env p) st) as [[e0|[]] st0];
    simpl in Hst; subst st0.
  - left. by exists e0.
  - by right.
Qed.

Ltac call_validated command path st Hvalid :=
  unfold Editor.call; unfold mbind at 1, Editor.M_bind, Editor.bind;
  match goal with
  | |- context [let (_, _) := ?v in _] =>
      let validated := fresh "validated" in
      let Hv := fresh "Hv" in
      set (validated := v);
      destruct (validated_path_cases command path st validated eq_refl) as [[? Hv]|[Hvalid Hv]];
      rewrite Hv; clear Hv validated
  end.

(** X18. A command that ends with an exception has left the files alone,
    unless the exception is the error of a write: every check of a command
    comes before its one write, and nothing is written after a write that
    raised. When [__call__] raises, the file system is the one it started
    with, or the exception is the [ToolError] of a write that was tried on
    the file system the call started with, and the file system is the one
    that write left. (The history may have changed in both cases.) *)
Theorem failed_command_changes_files_by_failed_write_only w command path file_text
    view_range old_str new_str insert_line symbol_name st e st' :
  Editor.call env w command path file_text view_range old_str new_str insert_line
              symbol_name st = (inl e, st') →
  Editor.files st' = Editor.files st ∨
  ∃ p text msg,
    path_write_text env (Editor.files st) p text = (Editor.files st', Some msg) ∧
    e = Editor.ToolError ("Ran into " +:+ msg +:+ " while trying to write to " +:+ p).
Proof.
  call_validated command path st Hvalid; [by intros [= _ <-]; left|].
  set (_path := Path_of env <$> path).
  assert (∀ (k : string → Editor.M Editor.Result),
    (∀ p st0 e0 st0', k p st0 = (inl e0, st0') →
       Editor.files st0' = Editor.files st0 ∨
       ∃ text msg,
         path_write_text env (Editor.files st0) p text = (Editor.files st0', Some msg) ∧
         e0 = Editor.ToolError ("Ran into " +:+ msg +:+ " while trying to write to "
                                +:+ p)) →
    (p ← Editor.the_path _path; k p) st = (inl e, st') →
    Editor.files st' = Editor.files st ∨
    ∃ p text msg,
      path_write_text env (Editor.files st) p text = (Editor.files st', Some msg) ∧
      e = Editor.ToolError ("Ran into " +:+ msg +:+ " while trying to write to " +:+ p))
    as Hpath.
  { intros k Hk. unfold_editor. destruct _path as [p|]; [|by intros [= _ <-]; left].
    intros [?|(text & msg & ? & ?)]%Hk; [by left|right; by exists p, text, msg]. }
  destruct (String.eqb command "view").
  { apply Hpath. intros p st0 e0 st0' ->%view_raise_state. by left. }
  destruct (String.eqb command "create").
  { destruct (negb (Editor.given file_text)); [by intros [= _ <-]; left|].
    apply Hpath. intros p st0 e0 st0'. unfold mbind at 1, Editor.M_bind, Editor.bind.
    destruct (Editor.write_file env p _ st0) as [[e1|[]] stw] eqn:Hwrite; [|done].
    intros [= <- <-]. right.
    apply write_file_raise in Hwrite as (msg & Hw & ->). by eexists _, _. }
  destruct (String.eqb command "str_replace").
  { destruct (negb (Editor.given old_str)) eqn:Hgiven; [by intros [= _ <-]; left|].
    apply Hpath. intros p st0 e0 st0'. apply str_replace_raise_files.
    apply expandtabs_nonempty. by destruct old_str as [[|??]|]. }
  destruct (String.eqb command "insert").
  { destruct insert_line as [n|]; [|by intros [= _ <-]; left].
    destruct (negb (Editor.given new_str)); [by intros [= _ <-]; left|].
    apply Hpath. intros p st0 e0 st0'. apply insert_raise_files. }
  destruct (String.eqb command "undo_edit").
  { apply Hpath. intros p st0 e0 st0'. apply undo_edit_raise_files. }
  destruct (String.eqb command "jump_to_definition").
  { destruct (negb (Editor.given symbol_name)); [by intros [= _ <-]; left|].
    intros Hj. left.
    pose proof (jump_to_definition_frame w
      (if Editor.given path then _path else None) (default "" symbol_name) st) as [Hf _].
    by rewrite Hj in Hf. }
  destruct (String.eqb command "find_references").
  { destruct (negb (Editor.given symbol_name)); [by intros [= _ <-]; left|].
    intros Hj. left.
    pose proof (find_references_frame w (default "" symbol_name) st) as [Hf _].
    by rewrite Hj in Hf. }
  by intros [= _ <-]; left.
Qed.

(** X19. The commands [view], [jump_to_definition] and [find_references]
    write no file and change no history: whatever they answer, and also when
    they raise, the edit history is the one the call started with, and so
    is the file system, with one exception. A [view] of a directory hands
    the shell a command line made of [find], the path as it was given and
    options; the file system after the call is then the one this command
    left. (The two navigation commands go through the collaborators of the
    navigator, which list, parse and read; these are taken to change no
    file.) *)
Theorem read_only_commands_keep_files w command path file_text view_range old_str
    new_str insert_line symbol_name st :
  command ∈ ["view"; "jump_to_definition"; "find_references"] →
  let st' := (Editor.call env w command path file_text view_range old_str new_str
                          insert_line symbol_name st).2 in
  Editor.file_history st' = Editor.file_history st ∧
  (Editor.files st' = Editor.files st ∨
   ∃ p,
     command = "view" ∧ path = Some p ∧
     path_is_dir env (Editor.files st) (Path_of env p) = true ∧
     Editor.files st'
     = (run_shell_cmd env (Editor.files st)
          ("find " +:+ Path_of env p +:+ " -maxdepth 2 -not -path '*/\.*'")).2).
Proof.
  intros Hcommand. cbv zeta.
  destruct (Editor.call env w command path file_text view_range old_str new_str
                        insert_line symbol_name st) as [res st'] eqn:Hcall.
  simpl. revert Hcall.
  call_validated command path st Hvalid; [by intros [= _ <-]; split; [|left]|].
  set_unfold in Hcommand.
  destruct Hcommand as [->|[->|[->|[]]]]; cbn [String.eqb Ascii.eqb Bool.eqb].
  - unfold mbind, Editor.M_bind, Editor.bind, Editor.the_path, Editor.ret, Editor.raise.
    destruct path as [p|]; simpl; [|by intros [= _ <-]; split; [|left]].
    intros Hview.
    destruct (view_frame (Path_of env p) view_range st) as [Hh [Hst|(Hdir & _ & Hfs)]];
      rewrite Hview in *; simpl in *.
    + subst st'. by split; [|left].
    + split; [done|]. right. by exists p.
  - destruct (negb (Editor.given symbol_name)); [by intros [= _ <-]; split; [|left]|].
    intros Hj.
    pose proof (jump_to_definition_frame w
      (if Editor.given path then Path_of env <$> path else None)
      (default "" symbol_name) st) as [Hf Hh].
    rewrite Hj in Hf, Hh. by split; [|left].
  - destruct (negb (Editor.given symbol_name)); [by intros [= _ <-]; split; [|left]|].
    intros Hj.
    pose proof (find_references_frame w (default "" symbol_name) st) as [Hf Hh].
    rewrite Hj in Hf, Hh. by split; [|left].
Qed.

(** X20. A file made by [create] cannot be given back by [undo_edit]: when
    the path had no history, [create] leaves one entry, the text it wrote,
    and the next [undo_edit] of the path raises [No edit history found]
    and changes nothing. *)
Theorem created_file_cannot_be_undone w path file_text view_range old_str new_str
    insert_line symbol_name st r st1 :
  default [] (Editor.file_history st !! Path_of env path) = [] →
  Editor.call env w "create" (Some path) file_text view_range old_str new_str
              insert_line symbol_name st = (inr r, st1) →
  Editor.file_history st1 !! Path_of env path = Some [default "" file_text] ∧
  Editor.undo_edit env (Path_of env path) st1
  = (inl (Editor.ToolError ("No edit history found for " +:+ Path_of env path +:+ ".")),
     st1).
Proof.
  intros Hempty. call_validated "create" (Some path) st Hvalid; [done|]. cbn [String.eqb Ascii.eqb Bool.eqb].
  destruct (negb (Editor.given file_text)); [done|]. unfold_editor. simpl.
  destruct (path_write_text env (Editor.files st) (Path_of env path) _)
    as [fs1 [?|]]; [done|].
  simpl. intros [= _ <-]. simpl. rewrite Hempty, !lookup_insert_eq. done.
Qed.




(** X22. A command that succeeded with a path was given an absolute one;
    the path did not exist when the command was [create] and existed for
    every other command, and it was a directory only if the command was
    [view]. *)
Theorem successful_command_had_valid_path w command path file_text view_range
    old_str new_str insert_line symbol_name st r st' :
  Editor.call env w command (Some path) file_text view_range old_str new_str
              insert_line symbol_name st = (inr r, st') →
  Editor.is_absolute (Path_of env path) = true ∧
  path_exists env (Editor.files st) (Path_of env path)
  = negb (String.eqb command "create") ∧
  (command ≠ "view" → path_is_dir env (Editor.files st) (Path_of env path) = false).
Proof.
  call_validated command (Some path) st Hvalid; [done|]. intros _. revert Hvalid.
  unfold_editor.
  destruct (Editor.is_absolute (Path_of env path)); [|done]. simpl.
  destruct (path_exists env (Editor.files st) (Path_of env path)),
    (String.eqb command "create"); simpl; try done.
  - destruct (String.eqb command "view") eqn:Hview; simpl.
    + intros _. split_and!; try done. intros Hne. by apply String.eqb_eq in Hview.
    + by destruct (path_is_dir env (Editor.files st) (Path_of env path)).
  - destruct (String.eqb command "view") eqn:Hview; simpl.
    + intros _. split_and!; try done. intros Hne. by apply String.eqb_eq in Hview.
    + by destruct (path_is_dir env (Editor.files st) (Path_of env path)).
Qed.

(** X23. Without a path only the two navigation commands can succeed: the
    five commands that work on a file read the local [_path], which is bound
    only when [path] was given, and an unknown command raises. *)
Theorem path_required_for_file_commands w command file_text view_range old_str
    new_str insert_line symbol_name st r st' :
  Editor.call env w command None file_text view_range old_str new_str insert_line
              symbol_name st = (inr r, st') →
  command = "jump_to_definition" ∨ command = "find_references".
Proof.
  call_validated command (@None string) st Hvalid; [done|]. simpl.
  unfold mbind, Editor.M_bind, Editor.bind, Editor.the_path, Editor.raise.
  destruct (String.eqb command "view"); [done|].
  destruct (String.eqb command "create"); [by destruct (negb _)|].
  destruct (String.eqb command "str_replace"); [by destruct (negb _)|].
  destruct (String.eqb command "insert");
    [destruct insert_line; [by destruct (negb _)|done]|].
  destruct (String.eqb command "undo_edit"); [done|].
  destruct (String.eqb command "jump_to_definition") eqn:Hj;
    [left; by apply String.eqb_eq|].
  destruct (String.eqb command "find_references") eqn:Hf;
    [right; by apply String.eqb_eq|].
  done.
Qed.

(* Filling the history raises only when the file cannot be read. *)
Lemma populate_raise_inv path st e stp :
  Editor._populate_file_history_if_having_content_before_edit env path st = (inl e, stp) →
  ∃ msg, path_read_text env (Editor.files st) path = Raise msg.
Proof.
  unfold_editor. destruct (Editor.file_history st !! path) as [[|??]|]; simpl;
    try done; destruct (path_exists env (Editor.files st) path); simpl; try done;
    destruct (path_read_text env (Editor.files st) path); simpl; try done;
    by eexists.
Qed.

Lemma expandtabs_keeps_LF s :
  Exists (λ c, is_LF c = true) (chars s) →
  Exists (λ c, is_LF c = true) (chars (expandtabs s)).
Proof.
  unfold expandtabs. generalize O.
  induction s as [|c s IH]; intros col; simpl; [done|].
  intros [Hc|Hs]%Exists_cons.
  - assert (Ascii.eqb c TAB = false) as ->.
    { apply Ascii.eqb_eq in Hc as ->. done. }
    rewrite Hc. simpl. by left.
  - destruct (Ascii.eqb c TAB).
    + rewrite chars_app. apply Exists_app. right. by apply IH.
    + destruct (is_LF c || is_CR c); right; by apply IH.
Qed.

Lemma elem_of_lines_containing old_str ls n :
  n ∈ Editor.lines_containing old_str ls ↔
  ∃ idx line, n = Z.of_nat idx + 1 ∧ ls !! idx = Some line ∧ is_substring old_str line.
Proof.
  unfold Editor.lines_containing. rewrite list_elem_of_omap. split.
  - intros ([idx line] & Hin & Hn).
    apply elem_of_lookup_imap in Hin as (i & l & [= -> ->] & Hl).
    destruct (str_contains old_str l) eqn:Hc; [|done]. injection Hn as <-.
    exists i, l. split_and!; try done. by apply str_contains_spec.
  - intros (idx & line & -> & Hl & Hc%str_contains_spec).
    exists (idx, line). split; [|by rewrite Hc].
    apply elem_of_lookup_imap. by exists idx, line.
Qed.

Lemma lines_containing_multiline old_str s :
  Exists (λ c, is_LF c = true) (chars old_str) →
  Editor.lines_containing old_str (split_lines s) = [].
Proof.
  intros Hlf. apply elem_of_nil_inv. intros n.
  intros (idx & line & _ & Hl & pre & post & ->)%elem_of_lines_containing.
  pose proof (lines_lf_no_LF s) as Hno. rewrite <- split_lines_lines_lf in Hno.
  rewrite Forall_forall in Hno. apply list_elem_of_lookup_2 in Hl.
  specialize (Hno _ Hl). rewrite !chars_app, !Forall_app in Hno.
  destruct Hno as (_ & Hold & _). apply Exists_exists in Hlf as (c & Hc & Hlf).
  rewrite Forall_forall in Hold. specialize (Hold c Hc). congruence.
Qed.

(** X24. [str_replace] refuses a text that occurs more than once: it raises,
    leaves the file as it is, and names the lines, counted from 1, that
    contain the whole of the tab-expanded [old_str]. Occurrences are counted
    in the text of the file, but looked for line by line: when [old_str]
    holds a line feed no line contains it, and the message names no line at
    all. *)
Theorem str_replace_refuses_ambiguous_text path old_str new_str st file_content :
  path_read_text env (Editor.files st) path = Ok file_content →
  (1 < str_count (expandtabs old_str) file_content)%nat →
  ∃ line_numbers st',
    Editor.str_replace env path old_str new_str st
    = (inl (Editor.ToolError
              ("No replacement was performed. Multiple occurrences of old_str `"
               +:+ expandtabs old_str +:+ "` in lines " +:+ str_of_Z_list line_numbers
               +:+ ". Please ensure it is unique.")), st') ∧
    Editor.files st' = Editor.files st ∧
    (∀ n, n ∈ line_numbers ↔
          ∃ idx line, n = Z.of_nat idx + 1 ∧
                      split_lines file_content !! idx = Some line ∧
                      is_substring (expandtabs old_str) line) ∧
    (Exists (λ c, is_LF c = true) (chars old_str) → line_numbers = []).
Proof.
  intros Hread Hcount.
  exists (Editor.lines_containing (expandtabs old_str) (split_lines file_content)).
  unfold Editor.str_replace. unfold mbind at 1, Editor.M_bind, Editor.bind.
  destruct (populate_spec path st) as (h & Hst & _).
  destruct (Editor._populate_file_history_if_having_content_before_edit env path st)
    as [[e|[]] stp] eqn:Hpop; simpl in Hst.
  { apply populate_raise_inv in Hpop as [msg Hmsg]. congruence. }
  subst stp. unfold_editor. simpl. rewrite Hread. simpl.
  case_bool_decide; [lia|]. case_bool_decide; [|lia]. eexists. split_and!.
  - done.
  - done.
  - intros n. apply elem_of_lines_containing.
  - intros Hlf. apply lines_containing_multiline. by apply expandtabs_keeps_LF.
Qed.

End EditorProperties.

(** ** The editor on the file of its tests *)

Lemma returned_Some {A S : Type} (run : (Editor.Exn + A) * S) :
  is_Some (returned run) → ∃ a st, run = (inr a, st).
Proof. destruct run as [[e|a] st]; [by intros [? [=]]|]. by exists a, st. Qed.

Lemma raised_Some {A S : Type} (run : (Editor.Exn + A) * S) :
  is_Some (raised run) → ∃ e st, run = (inl e, st).
Proof. destruct run as [[e|a] st]; [|by intros [? [=]]]. by exists e, st. Qed.

Lemma str_replace_replaces_one_occurrence_witness :
  ∃ r st1,
    Editor.str_replace plain_env "/tmp/test.txt" "test file" (Some "sample file")
                       test_editor = (inr r, st1) ∧
    let old := expandtabs "test file" in
    let new := from_option expandtabs "" (Some "sample file") in
    ∃ file_content pre post,
      path_read_text plain_env (Editor.files test_editor) "/tmp/test.txt"
      = Ok file_content ∧
      old ≠ "" ∧
      str_count old file_content = 1%nat ∧
      file_content = pre +:+ old +:+ post ∧
      str_count old post = O ∧
      path_write_text plain_env (Editor.files test_editor) "/tmp/test.txt"
                      (pre +:+ new +:+ post)
      = (Editor.files st1, None) ∧
      last (default [] (Editor.file_history st1 !! "/tmp/test.txt"))
      = Some (pre +:+ new +:+ post).
Proof.
  destruct (returned_Some
              (Editor.str_replace plain_env "/tmp/test.txt" "test file"
                                  (Some "sample file") test_editor))
    as (r & st1 & Hrun); [vm_compute; by eexists|].
  exists r, st1. split; [exact Hrun|].
  exact (str_replace_replaces_one_occurrence plain_env "/tmp/test.txt" "test file"
           (Some "sample file") test_editor r st1 Hrun).
Defined.

Lemma insert_places_lines_witness :
  ∃ r st1,
    Editor.insert plain_env "/tmp/test.txt" 1 "Inserted line" test_editor
    = (inr r, st1) ∧
    ∃ file_text new_file_text,
      path_read_text plain_env (Editor.files test_editor) "/tmp/test.txt"
      = Ok file_text ∧
      0 ≤ 1 ≤ Z.of_nat (length (split_lines (expandtabs file_text))) ∧
      path_write_text plain_env (Editor.files test_editor) "/tmp/test.txt"
                      new_file_text
      = (Editor.files st1, None) ∧
      split_lines new_file_text = inserted_lines file_text 1 "Inserted line" ∧
      length (split_lines new_file_text)
      = (length (split_lines (expandtabs file_text))
         + length (split_lines (expandtabs "Inserted line")))%nat ∧
      Forall (λ c, c ≠ TAB) (chars new_file_text).
Proof.
  destruct (returned_Some
              (Editor.insert plain_env "/tmp/test.txt" 1 "Inserted line" test_editor))
    as (r & st1 & Hrun); [vm_compute; by eexists|].
  exists r, st1. split; [exact Hrun|].
  exact (insert_places_lines plain_env "/tmp/test.txt" 1 "Inserted line" test_editor
           r st1 Hrun).
Defined.

Lemma undo_restores_first_edit_witness :
  default [] (Editor.file_history (disk_editor 1) !! "/tmp/test.txt") = [] ∧
  path_exists disk_env (Editor.files (disk_editor 1)) "/tmp/test.txt" = true ∧
  ∃ r st1,
    Editor.str_replace disk_env "/tmp/test.txt" "test file" (Some "sample file")
                       (disk_editor 1) = (inr r, st1) ∧
    raised (Editor.undo_edit disk_env "/tmp/test.txt" st1)
    = Some (Editor.ToolError
              "Ran into [Errno 28] No space left on device while trying to write to /tmp/test.txt") ∧
    path_read_text disk_env
      (Editor.files (Editor.undo_edit disk_env "/tmp/test.txt" st1).2) "/tmp/test.txt"
    = Ok "" ∧
    ∃ original,
      path_read_text disk_env (Editor.files (disk_editor 1)) "/tmp/test.txt"
      = Ok original ∧
      Editor.undo_edit disk_env "/tmp/test.txt" st1
      = (match (path_write_text disk_env (Editor.files st1) "/tmp/test.txt" original).2
         with
         | None =>
             inr (Editor.mkResult Editor.CLIResult
                    ("Last edit to " +:+ "/tmp/test.txt" +:+ " undone successfully. "
                     +:+ Editor._make_output disk_env original "/tmp/test.txt" 1 true)
                    None)
         | Some e =>
             inl (Editor.ToolError ("Ran into " +:+ e +:+ " while trying to write to "
                                    +:+ "/tmp/test.txt"))
         end,
         Editor.mkState (<["/tmp/test.txt" := [original]]> (Editor.file_history st1))
                        (path_write_text disk_env (Editor.files st1) "/tmp/test.txt"
                                         original).1
                        (Editor.navigator (disk_editor 1))).
Proof.
  assert (default [] (Editor.file_history (disk_editor 1) !! "/tmp/test.txt") = [])
    as Hempty by reflexivity.
  assert (path_exists disk_env (Editor.files (disk_editor 1)) "/tmp/test.txt" = true)
    as Hexists by (vm_compute; reflexivity).
  assert (raised (Editor.undo_edit disk_env "/tmp/test.txt"
                    (Editor.str_replace disk_env "/tmp/test.txt" "test file"
                                        (Some "sample file") (disk_editor 1)).2)
          = Some (Editor.ToolError
                    "Ran into [Errno 28] No space left on device while trying to write to /tmp/test.txt"))
    as Hraised by (vm_compute; reflexivity).
  assert (path_read_text disk_env
            (Editor.files
               (Editor.undo_edit disk_env "/tmp/test.txt"
                  (Editor.str_replace disk_env "/tmp/test.txt" "test file"
                                      (Some "sample file") (disk_editor 1)).2).2)
            "/tmp/test.txt"
          = Ok "") as Hemptied by (vm_compute; reflexivity).
  destruct (returned_Some
              (Editor.str_replace disk_env "/tmp/test.txt" "test file"
                                  (Some "sample file") (disk_editor 1)))
    as (r & st1 & Hrun); [vm_compute; by eexists|].
  rewrite Hrun in Hraised, Hemptied.
  split; [exact Hempty|]. split; [exact Hexists|].
  exists r, st1. split_and!; [exact Hrun|exact Hraised|exact Hemptied|].
  exact (undo_restores_first_edit disk_env "/tmp/test.txt" "test file"
           (Some "sample file") 0 "" (disk_editor 1) r st1 Hempty Hexists
           (or_introl Hrun)).
Defined.

Lemma failed_command_changes_files_by_failed_write_only_witness :
  path_read_text disk_env (Editor.files (disk_editor 0)) "/tmp/test.txt" = Ok test_txt ∧
  ∃ e st',
    Editor.call disk_env test_world "str_replace" (Some "/tmp/test.txt") None None
                (Some "test file") (Some "sample file") None None (disk_editor 0)
    = (inl e, st') ∧
    path_read_text disk_env (Editor.files st') "/tmp/test.txt" = Ok "" ∧
    (Editor.files st' = Editor.files (disk_editor 0) ∨
     ∃ p text msg,
       path_write_text disk_env (Editor.files (disk_editor 0)) p text
       = (Editor.files st', Some msg) ∧
       e = Editor.ToolError ("Ran into " +:+ msg +:+ " while trying to write to "
                             +:+ p)).
Proof.
  split; [vm_compute; reflexivity|].
  assert (path_read_text disk_env
            (Editor.files
               (Editor.call disk_env test_world "str_replace" (Some "/tmp/test.txt")
                            None None (Some "test file") (Some "sample file") None None
                            (disk_editor 0)).2)
            "/tmp/test.txt"
          = Ok "") as Hemptied by (vm_compute; reflexivity).
  destruct (raised_Some
              (Editor.call disk_env test_world "str_replace" (Some "/tmp/test.txt")
                           None None (Some "test file") (Some "sample file") None None
                           (disk_editor 0)))
    as (e & st' & Hrun); [vm_compute; by eexists|].
  rewrite Hrun in Hemptied.
  exists e, st'. split_and!; [exact Hrun|exact Hemptied|].
  exact (failed_command_changes_files_by_failed_write_only disk_env test_world
           "str_replace" (Some "/tmp/test.txt") None None (Some "test file")
           (Some "sample file") None None (disk_editor 0) e st' Hrun).
Defined.

Lemma read_only_commands_keep_files_witness :
  "view" ∈ ["view"; "jump_to_definition"; "find_references"] ∧
  path_read_text disk_env (Editor.files notes_editor) "/tmp/x/notes.txt"
  = Ok "keep me" ∧
  let st' := (Editor.call disk_env test_world "view" (Some "/tmp/x -delete") None None
                          None None None None notes_editor).2 in
  path_read_text disk_env (Editor.files st') "/tmp/x/notes.txt"
  = Raise "[Errno 2] No such file or directory: '/tmp/x/notes.txt'" ∧
  Editor.file_history st' = Editor.file_history notes_editor ∧
  (Editor.files st' = Editor.files notes_editor ∨
   ∃ p,
     "view" = "view" ∧ Some "/tmp/x -delete" = Some p ∧
     path_is_dir disk_env (Editor.files notes_editor) (Path_of disk_env p) = true ∧
     Editor.files st'
     = (run_shell_cmd disk_env (Editor.files notes_editor)
          ("find " +:+ Path_of disk_env p +:+ " -maxdepth 2 -not -path '*/\.*'")).2).
Proof.
  assert ("view" ∈ ["view"; "jump_to_definition"; "find_references"])
    as Hcommand by (by repeat constructor).
  split; [exact Hcommand|]. split; [vm_compute; reflexivity|].
  intros st'. split; [vm_compute; reflexivity|].
  exact (read_only_commands_keep_files disk_env test_world "view"
           (Some "/tmp/x -delete") None None None None None None notes_editor Hcommand).
Defined.

Lemma created_file_cannot_be_undone_witness :
  default [] (Editor.file_history test_editor !! Path_of plain_env "/tmp/new.txt") = [] ∧
  ∃ r st1,
    Editor.call plain_env test_world "create" (Some "/tmp/new.txt") (Some "New text")
                None None None None None test_editor = (inr r, st1) ∧
    Editor.file_history st1 !! Path_of plain_env "/tmp/new.txt"
    = Some [default "" (Some "New text")] ∧
    Editor.undo_edit plain_env (Path_of plain_env "/tmp/new.txt") st1
    = (inl (Editor.ToolError ("No edit history found for "
                              +:+ Path_of plain_env "/tmp/new.txt" +:+ ".")),
       st1).
Proof.
  assert (default [] (Editor.file_history test_editor
                      !! Path_of plain_env "/tmp/new.txt") = [])
    as Hempty by reflexivity.
  destruct (returned_Some
              (Editor.call plain_env test_world "create" (Some "/tmp/new.txt")
                           (Some "New text") None None None None None test_editor))
    as (r & st1 & Hrun); [vm_compute; by eexists|].
  split; [exact Hempty|]. exists r, st1. split; [exact Hrun|].
  exact (created_file_cannot_be_undone plain_env test_world "/tmp/new.txt"
           (Some "New text") None None None None None test_editor r st1 Hempty Hrun).
Defined.


Lemma successful_command_had_valid_path_witness :
  ∃ r st',
    Editor.call plain_env test_world "view" (Some "/tmp/test.txt") None None None
                None None None test_editor = (inr r, st') ∧
    Editor.is_absolute (Path_of plain_env "/tmp/test.txt") = true ∧
    path_exists plain_env (Editor.files test_editor) (Path_of plain_env "/tmp/test.txt")
    = negb (String.eqb "view" "create") ∧
    ("view" ≠ "view" →
     path_is_dir plain_env (Editor.files test_editor)
                 (Path_of plain_env "/tmp/test.txt") = false).
Proof.
  destruct (returned_Some
              (Editor.call plain_env test_world "view" (Some "/tmp/test.txt") None
                           None None None None None test_editor))
    as (r & st' & Hrun); [vm_compute; by eexists|].
  exists r, st'. split; [exact Hrun|].
  exact (successful_command_had_valid_path plain_env test_world "view"
           "/tmp/test.txt" None None None None None None test_editor r st' Hrun).
Defined.

Lemma path_required_for_file_commands_witness :
  ∃ r st',
    Editor.call plain_env test_world "find_references" None None None None None None
                (Some "TestSymbol") test_editor = (inr r, st') ∧
    ("find_references" = "jump_to_definition" ∨ "find_references" = "find_references").
Proof.
  destruct (returned_Some
              (Editor.call plain_env test_world "find_references" None None None
                           None None None (Some "TestSymbol") test_editor))
    as (r & st' & Hrun); [vm_compute; by eexists|].
  exists r, st'. split; [exact Hrun|].
  exact (path_required_for_file_commands plain_env test_world "find_references" None
           None None None None (Some "TestSymbol") test_editor r st' Hrun).
Defined.

Lemma str_replace_refuses_ambiguous_text_witness :
  path_read_text plain_env (Editor.files twice_editor) "/tmp/twice.txt" = Ok twice_txt ∧
  (1 < str_count (expandtabs ("a" +:+ LF +:+ "b")) twice_txt)%nat ∧
  ∃ line_numbers st',
    Editor.str_replace plain_env "/tmp/twice.txt" ("a" +:+ LF +:+ "b") None twice_editor
    = (inl (Editor.ToolError
              ("No replacement was performed. Multiple occurrences of old_str `"
               +:+ expandtabs ("a" +:+ LF +:+ "b") +:+ "` in lines "
               +:+ str_of_Z_list line_numbers +:+ ". Please ensure it is unique.")),
       st') ∧
    Editor.files st' = Editor.files twice_editor ∧
    (∀ n, n ∈ line_numbers ↔
          ∃ idx line, n = Z.of_nat idx + 1 ∧
                      split_lines twice_txt !! idx = Some line ∧
                      is_substring (expandtabs ("a" +:+ LF +:+ "b")) line) ∧
    (Exists (λ c, is_LF c = true) (chars ("a" +:+ LF +:+ "b")) → line_numbers = []).
Proof.
  assert (path_read_text plain_env (Editor.files twice_editor) "/tmp/twice.txt"
          = Ok twice_txt) as Hread by (vm_compute; reflexivity).
  assert (1 < str_count (expandtabs ("a" +:+ LF +:+ "b")) twice_txt)%nat as Hcount
    by (vm_compute; lia).
  split; [exact Hread|]. split; [exact Hcount|].
  exact (str_replace_refuses_ambiguous_text plain_env "/tmp/twice.txt"
           ("a" +:+ LF +:+ "b") None twice_editor twice_txt Hread Hcount).
Defined.
